(** * AgentWeb: the rendering pipeline, embedded and verified

    A shallow embedding of the JavaScript sources of the AgentWeb prototype
    (lite renderer, SPA detector, semantic chunker, page cache and the
    smart-render orchestrator) together with the properties its
    specification states about them, numbered C1 to C10, and further
    properties read off the sources, numbered X1 to X23.

    Conventions of the embedding.
    - A JavaScript string is a [string]: a sequence of 8-bit code units.
      The embedding is exact on ASCII text; [toLowerCase], [trim] and the
      [i] flag treat the ASCII letters and the ASCII white space only.
    - Scores, relevances and millisecond time stamps are [Z]; counts are
      [nat].
    - A quotient of two lengths that the sources compare with a decimal
      constant ([textRatio < 0.05], [linkDensity > 0.5], ...) is compared
      by cross multiplication. For lengths below 2^30, which bounds every
      JavaScript string, the result is the one of the floating-point
      comparison.
    - The regular expressions of the sources are terms of [Regex.regex],
      run by a backtracking matcher that tries alternatives in the order
      of the ECMAScript matcher.
    - A pattern whose groups the sources read is a list of
      [Captures.piece]s; its matches carry the texts of the groups.
    - A call that can throw returns an [outcome].
    - The readings of [Date.now()] and the outcomes of network and browser
      calls are inputs of the function that makes them. *)

From Stdlib Require Import ZArith Ascii String List Bool Lia DecimalString.
From stdpp Require Import gmap strings list sorting.

Set Default Proof Using "Type".

(* ===================================================================== *)
(** * JavaScript strings *)
(* ===================================================================== *)

Module JsString.

(** The double quote, which a string literal of this file cannot hold. *)
Definition dquote : ascii := "034"%char.

Definition code (c : ascii) : nat := nat_of_ascii c.

Definition is_upper (c : ascii) : bool := (65 <=? code c) && (code c <=? 90).
Definition is_lower (c : ascii) : bool := (97 <=? code c) && (code c <=? 122).
Definition is_digit (c : ascii) : bool := (48 <=? code c) && (code c <=? 57).

(** [\w]: letters, digits and the underscore. *)
Definition is_word (c : ascii) : bool :=
  is_upper c || is_lower c || is_digit c || (code c =? 95).

(** [\s] and the characters [trim] removes: TAB, LF, VT, FF, CR, space. *)
Definition is_space (c : ascii) : bool :=
  ((9 <=? code c) && (code c <=? 13)) || (code c =? 32).

Definition lower_char (c : ascii) : ascii :=
  if is_upper c then ascii_of_nat (code c + 32) else c.

Fixpoint toLowerCase (s : string) : string :=
  match s with
  | EmptyString => EmptyString
  | String c s' => String (lower_char c) (toLowerCase s')
  end.

Definition char_eqb (a b : ascii) : bool := Ascii.eqb a b.

(** Equality of code units under the [i] flag. *)
Definition char_eqb_ci (a b : ascii) : bool :=
  Ascii.eqb (lower_char a) (lower_char b).

Fixpoint startsWith (s p : string) : bool :=
  match p, s with
  | EmptyString, _ => true
  | String _ _, EmptyString => false
  | String a p', String b s' => char_eqb a b && startsWith s' p'
  end.

Fixpoint str_take (n : nat) (s : string) : string :=
  match n, s with
  | S n', String c s' => String c (str_take n' s')
  | _, _ => EmptyString
  end.

(** [s.slice(0, n)] for [n >= 0]. *)
Definition slice0 (n : nat) (s : string) : string := str_take n s.

Fixpoint last_char (d : option ascii) (s : string) : option ascii :=
  match s with
  | EmptyString => d
  | String c s' => last_char (Some c) s'
  end.

Fixpoint trimStart (s : string) : string :=
  match s with
  | String c s' => if is_space c then trimStart s' else s
  | EmptyString => EmptyString
  end.

(** [trimEnd] keeps a character when it is not a space or when something
    is kept after it. *)
Fixpoint trimEnd (s : string) : string :=
  match s with
  | EmptyString => EmptyString
  | String c s' =>
      match trimEnd s' with
      | EmptyString => if is_space c then EmptyString else String c EmptyString
      | t => String c t
      end
  end.

Definition trim (s : string) : string := trimEnd (trimStart s).

(** [l.join(sep)]. *)
Fixpoint join (sep : string) (l : list string) : string :=
  match l with
  | [] => EmptyString
  | [s] => s
  | s :: l' => s +:+ sep +:+ join sep l'
  end.

Fixpoint repeat_string (s : string) (n : nat) : string :=
  match n with
  | O => EmptyString
  | S n' => s +:+ repeat_string s n'
  end.

(** Decimal rendering of an integer, as a template literal prints it. *)
Definition of_Z (z : Z) : string := NilEmpty.string_of_int (Z.to_int z).
Definition of_nat (n : nat) : string := of_Z (Z.of_nat n).

End JsString.

Import JsString.

(* ===================================================================== *)
(** * A backtracking matcher for the regular expressions of the sources *)
(* ===================================================================== *)

Module Regex.

(** The position of a match attempt: the code unit just before it, when
    there is one, and the input that remains. *)
Definition cursor : Type := option ascii * string.

(** Patterns. [Look] is a zero-width assertion: it covers [^], [$], [\b]
    and the one-character lookbehind and lookahead of the sources. *)
Inductive regex : Type :=
| Eps
| Chr (p : ascii -> bool)
| Look (p : option ascii -> string -> bool)
| Cat (a b : regex)
| Alt (a b : regex)
| Star (greedy : bool) (a : regex).

Definition shorter (c : cursor) (c' : cursor) : bool :=
  String.length (snd c') <? String.length (snd c).

(** Zero or more iterations of [step], most iterations first when
    [greedy], fewest first otherwise. An iteration that consumes nothing
    is rejected, as the ECMAScript RepeatMatcher does. *)
Fixpoint star_loop (step : cursor -> list cursor) (greedy : bool)
    (fuel : nat) (c : cursor) : list cursor :=
  match fuel with
  | O => [c]
  | S f =>
      let more := flat_map (star_loop step greedy f)
                           (List.filter (shorter c) (step c)) in
      if greedy then more ++ [c] else c :: more
  end.

(** All the ways [r] matches at [c], as the cursors after the match, in
    the order a backtracking matcher tries them. *)
Fixpoint run (r : regex) (c : cursor) : list cursor :=
  match r with
  | Eps => [c]
  | Chr p =>
      match snd c with
      | String x s' => if p x then [(Some x, s')] else []
      | EmptyString => []
      end
  | Look p => if p (fst c) (snd c) then [c] else []
  | Cat a b => flat_map (run b) (run a c)
  | Alt a b => run a c ++ run b c
  | Star g a => star_loop (run a) g (String.length (snd c)) c
  end.

(** ** Derived forms *)

Definition Plus (g : bool) (a : regex) : regex := Cat a (Star g a).
Definition Opt (g : bool) (a : regex) : regex :=
  if g then Alt a Eps else Alt Eps a.

Fixpoint Times (n : nat) (a : regex) : regex :=
  match n with
  | O => Eps
  | S n' => Cat a (Times n' a)
  end.

(** [a{n,}] *)
Definition AtLeast (n : nat) (a : regex) : regex := Cat (Times n a) (Star true a).

Fixpoint Lit (s : string) : regex :=
  match s with
  | EmptyString => Eps
  | String c s' => Cat (Chr (char_eqb c)) (Lit s')
  end.

(** A literal under the [i] flag. *)
Fixpoint LitI (s : string) : regex :=
  match s with
  | EmptyString => Eps
  | String c s' => Cat (Chr (char_eqb_ci c)) (LitI s')
  end.

Fixpoint Seq (l : list regex) : regex :=
  match l with
  | [] => Eps
  | [r] => r
  | r :: l' => Cat r (Seq l')
  end.

Fixpoint OneOf (l : list regex) : regex :=
  match l with
  | [] => Look (fun _ _ => false)
  | [r] => r
  | r :: l' => Alt r (OneOf l')
  end.

Definition Any : regex := Chr (fun _ => true).                (* [\s\S] *)
Definition Space : regex := Chr is_space.                     (* \s *)
Definition Digit : regex := Chr is_digit.                     (* \d *)
Definition CharIn (cs : string) : regex :=                        (* [abc] *)
  Chr (fun x => existsb (char_eqb x) (list_ascii_of_string cs)).
Definition CharNotIn (cs : string) : regex :=                     (* [^abc] *)
  Chr (fun x => negb (existsb (char_eqb x) (list_ascii_of_string cs))).
Definition Range (lo hi : ascii) : regex :=                   (* [a-z] *)
  Chr (fun x => (code lo <=? code x) && (code x <=? code hi)).

(** [^] without the [m] flag. *)
Definition Bos : regex :=
  Look (fun prev _ => match prev with None => true | Some _ => false end).

(** [\b]. *)
Definition WordBoundary : regex :=
  Look (fun prev s =>
          xorb (match prev with Some c => is_word c | None => false end)
               (match s with String c _ => is_word c | EmptyString => false end)).

(** [(?<=[cs])] and [(?=[A-Z])]. *)
Definition Behind (p : ascii -> bool) : regex :=
  Look (fun prev _ => match prev with Some c => p c | None => false end).
Definition Ahead (p : ascii -> bool) : regex :=
  Look (fun _ s => match s with String c _ => p c | EmptyString => false end).

(** ** Searching *)

(** The result of one [exec]: the text skipped before the match, the
    matched text and the input after it. *)
Record found := Found { skipped : string; matched : string; after : string }.

Definition match_here (r : regex) (prev : option ascii) (s : string) : option found :=
  match run r (prev, s) with
  | (_, rest) :: _ =>
      Some (Found EmptyString (str_take (String.length s - String.length rest) s) rest)
  | [] => None
  end.

(** The leftmost match, the first one in backtracking order at its
    position. *)
Fixpoint search (r : regex) (prev : option ascii) (s : string) : option found :=
  match match_here r prev s with
  | Some f => Some f
  | None =>
      match s with
      | EmptyString => None
      | String c s' =>
          match search r (Some c) s' with
          | Some f => Some (Found (String c (skipped f)) (matched f) (after f))
          | None => None
          end
      end
  end.

(** [r.test(s)] for a pattern without the [g] flag. *)
Definition test (r : regex) (s : string) : bool :=
  match search r None s with Some _ => true | None => false end.

(** The successive matches of a [g] pattern: after an empty match the
    search resumes one code unit further. *)
Fixpoint matches_loop (r : regex) (fuel : nat) (prev : option ascii) (s : string)
    : list string :=
  match fuel with
  | O => []
  | S f =>
      match search r prev s with
      | None => []
      | Some (Found b m a) =>
          match m, a with
          | EmptyString, EmptyString => [m]
          | EmptyString, String c a' => m :: matches_loop r f (Some c) a'
          | _, _ => m :: matches_loop r f (last_char prev (b +:+ m)) a
          end
      end
  end.

(** [[...s.matchAll(r)]] and [s.match(r) || []], as the matched texts. *)
Definition matchAll (r : regex) (s : string) : list string :=
  matches_loop r (S (String.length s)) None s.

Fixpoint replace_loop (r : regex) (rep : string) (fuel : nat)
    (prev : option ascii) (s : string) : string :=
  match fuel with
  | O => s
  | S f =>
      match search r prev s with
      | None => s
      | Some (Found b m a) =>
          match m, a with
          | EmptyString, EmptyString => b +:+ rep
          | EmptyString, String c a' =>
              b +:+ rep +:+ String c (replace_loop r rep f (Some c) a')
          | _, _ => b +:+ rep +:+ replace_loop r rep f (last_char prev (b +:+ m)) a
          end
      end
  end.

(** [s.replace(r, rep)] for a [g] pattern and a replacement text without
    [$] patterns. *)
Definition replace (r : regex) (rep : string) (s : string) : string :=
  replace_loop r rep (S (String.length s)) None s.

(** [s.split(r)] (ECMAScript RegExp.prototype[@@split], no captures, no
    limit). [acc] is the piece being collected, [s] the input from the
    position under test. *)
Fixpoint split_loop (r : regex) (fuel : nat) (acc : string)
    (prev : option ascii) (s : string) : list string :=
  match fuel with
  | O => [acc +:+ s]
  | S f =>
      match s with
      | EmptyString => [acc]
      | String c s' =>
          match run r (prev, s) with
          | [] => split_loop r f (acc +:+ String c EmptyString) (Some c) s'
          | (prev', rest) :: _ =>
              if (String.length rest =? String.length s)
                 && (String.length acc =? 0)
              then split_loop r f (acc +:+ String c EmptyString) (Some c) s'
              else acc :: split_loop r f EmptyString prev' rest
          end
      end
  end.

Definition split (r : regex) (s : string) : list string :=
  match s with
  | EmptyString =>
      match run r (None, EmptyString) with
      | [] => [EmptyString]
      | _ :: _ => []
      end
  | _ => split_loop r (2 * String.length s + 2) EmptyString None s
  end.

End Regex.

Import Regex.

(* ===================================================================== *)
(** * HTML primitives (lite-renderer.js) *)
(* ===================================================================== *)

Module Html.

(** [decodeEntities]: six global replacements, applied one after the
    other, each to the output of the one before. *)
Definition decodeEntities (str : string) : string :=
  replace (Lit "&nbsp;") " "
    (replace (Lit "&#39;") "'"
      (replace (Lit "&quot;") (String dquote EmptyString)
        (replace (Lit "&gt;") ">"
          (replace (Lit "&lt;") "<"
            (replace (Lit "&amp;") "&" str))))).

(** [stripTags]. *)
Definition stripTags (html : string) : string :=
  trim (replace (Plus true Space) " "
          (replace (Seq [Lit "<"; Plus true (CharNotIn ">"); Lit ">"]) " " html)).

(** The six entities of the specification with their literals. *)
Definition entities : list (string * string) :=
  [ ("&amp;", "&"); ("&lt;", "<"); ("&gt;", ">");
    ("&quot;", String dquote EmptyString); ("&#39;", "'"); ("&nbsp;", " ") ].

Definition entity_at (s : string) : option (string * string) :=
  List.find (fun e => startsWith s (fst e)) entities.

(** The decoder the specification describes: one pass over the input,
    each entity replaced where it stands, the output never read again.
    [skip] counts the code units of an entity still to be passed over. *)
Fixpoint decodeOnePass_from (skip : nat) (s : string) : string :=
  match s with
  | EmptyString => EmptyString
  | String c s' =>
      match skip with
      | S k => decodeOnePass_from k s'
      | O =>
          match entity_at s with
          | Some (e, lit) => lit +:+ decodeOnePass_from (String.length e - 1) s'
          | None => String c (decodeOnePass_from 0 s')
          end
      end
  end.

Definition decodeOnePass (s : string) : string := decodeOnePass_from 0 s.

End Html.

Import Html.

(* ===================================================================== *)
(** * SPA detection (smart-renderer.js) *)
(* ===================================================================== *)

Module Detect.

(** A reason pushed by [detectSPA]. The three reasons built from a
    template literal keep the quantities the template formats. *)
Inductive reason : Type :=
| Because (label : string)
| VeryLowTextRatio (textLength htmlSize : Z)
| LowTextRatio (textLength htmlSize : Z)
| ScriptHeavy (scriptSize htmlSize : Z).

Inductive confidence_level : Type := Low | Medium | High.

Record DetectionReport := {
  isSPA : bool;
  score : Z;
  confidence : confidence_level;
  reasons : list reason
}.

Record spaSignal := { pattern : regex; reason_of : string; weight : Z }.

(** The class of the two quote characters. *)
Definition quote : regex := CharIn (String dquote "'").

Definition empty_div (id : string) : regex :=
  Seq [LitI "<div"; Plus true Space; LitI "id="; quote; LitI id; quote;
       Star true Space; LitI "></div>"].

Definition spaSignals : list spaSignal :=
  [ {| pattern := empty_div "root"; reason_of := "React root div (empty)"; weight := 4 |};
    {| pattern := empty_div "app"; reason_of := "Vue/React app div (empty)"; weight := 4 |};
    {| pattern := Seq [LitI "<div"; Plus true Space; LitI "id="; quote; LitI "__next"; quote];
       reason_of := "Next.js root"; weight := 3 |};
    {| pattern := LitI "<app-root>"; reason_of := "Angular app-root"; weight := 4 |};
    {| pattern := LitI "data-reactroot"; reason_of := "React data attribute"; weight := 3 |};
    {| pattern := LitI "data-vue-app"; reason_of := "Vue 3 attribute"; weight := 4 |};
    {| pattern := LitI "ng-version="; reason_of := "Angular version attribute"; weight := 3 |};
    {| pattern := LitI "__nuxt"; reason_of := "Nuxt.js signal"; weight := 2 |};
    {| pattern := LitI "window.__NEXT_DATA__"; reason_of := "Next.js data hydration"; weight := 3 |};
    {| pattern := LitI "window.__INITIAL_STATE__"; reason_of := "Redux initial state"; weight := 2 |};
    {| pattern := LitI "svelte-"; reason_of := "Svelte component"; weight := 2 |};
    {| pattern := LitI "ember-application"; reason_of := "Ember.js"; weight := 3 |} ].

Definition scriptBlock : regex := Seq [LitI "<script"; Star false Any; LitI "</script>"].
Definition styleBlock : regex := Seq [LitI "<style"; Star false Any; LitI "</style>"].
Definition anyTag : regex := Seq [Lit "<"; Plus true (CharNotIn ">"); Lit ">"].

Definition class_with (word : string) : regex :=
  Seq [LitI "class="; quote; Star true (CharNotIn (String dquote "'")); LitI word;
       Star true (CharNotIn (String dquote "'")); quote].

Definition skeletonPatterns : list regex :=
  [ class_with "loading"; class_with "skeleton"; class_with "spinner";
    Seq [LitI "aria-label="; quote; LitI "loading"; quote] ].

Definition headingBlock : regex :=
  Seq [LitI "<h"; Range "1" "6"; Star true (CharNotIn ">"); Lit ">";
       Star false Any; LitI "</h"; Range "1" "6"; Lit ">"].

Definition paragraphBlock : regex :=
  Seq [LitI "<p"; Star true (CharNotIn ">"); Lit ">"; AtLeast 20 (CharNotIn "<"); LitI "</p>"].

Definition metaReact : regex := Seq [LitI "content="; quote; LitI "React"].
Definition metaNext : regex := Seq [LitI "content="; quote; LitI "Next.js"].
Definition ldJson : regex := LitI "application/ld+json".

(** The quantities [detectSPA] measures on the raw HTML. *)
Definition htmlSize (html : string) : Z := Z.of_nat (String.length html).

Definition scriptSize (html : string) : Z :=
  fold_left (fun sum m => sum + Z.of_nat (String.length m))%Z (matchAll scriptBlock html) 0%Z.

Definition textContent (html : string) : string :=
  trim (replace (Plus true Space) " "
          (replace anyTag " "
             (replace styleBlock EmptyString
                (replace scriptBlock EmptyString html)))).

Definition textLength (html : string) : Z := Z.of_nat (String.length (textContent html)).

(** [textRatio < 1/den] and [textRatio > num/den], where
    [textRatio = textContent.length / Math.max(htmlSize, 1)]. *)
Definition textRatio_lt (html : string) (den : Z) : bool :=
  (den * textLength html <? Z.max (htmlSize html) 1)%Z.
Definition textRatio_gt (html : string) (num den : Z) : bool :=
  (num * Z.max (htmlSize html) 1 <? den * textLength html)%Z.
(** [scriptRatio > 0.50], where
    [scriptRatio = scriptSize / Math.max(htmlSize, 1)]. *)
Definition scriptRatio_gt_half (html : string) : bool :=
  (Z.max (htmlSize html) 1 <? 2 * scriptSize html)%Z.

Definition skeletonHits (html : string) : nat :=
  length (List.filter (fun p => test p html) skeletonPatterns).

(** The two accumulators of [detectSPA]. *)
Record acc := { acc_reasons : list reason; acc_score : Z }.

Definition push (r : reason) (w : Z) (a : acc) : acc :=
  {| acc_reasons := acc_reasons a ++ [r]; acc_score := acc_score a + w |}.

Definition detectSPA (html : string) : DetectionReport :=
  let a := {| acc_reasons := []; acc_score := 0 |} in
  (* 1. framework signals *)
  let a := fold_left
             (fun a sig =>
                if test (pattern sig) html
                then push (Because (reason_of sig)) (weight sig) a else a)
             spaSignals a in
  (* 2. text and script ratios *)
  let a := if textRatio_lt html 20 && (5000 <? htmlSize html)%Z
           then push (VeryLowTextRatio (textLength html) (htmlSize html)) 4 a
           else if textRatio_lt html 10 && (10000 <? htmlSize html)%Z
           then push (LowTextRatio (textLength html) (htmlSize html)) 2 a
           else a in
  let a := if scriptRatio_gt_half html
           then push (ScriptHeavy (scriptSize html) (htmlSize html)) 2 a else a in
  (* 3. loading skeletons *)
  let a := if 2 <=? skeletonHits html
           then push (Because "Loading skeleton patterns detected") 2 a else a in
  (* 4. no headings, few paragraphs *)
  let a := if (length (matchAll headingBlock html) =? 0)
              && (length (matchAll paragraphBlock html) <? 3)
              && (20000 <? htmlSize html)%Z
           then push (Because "Large HTML with almost no semantic content") 3 a else a in
  (* 5. meta generator *)
  let a := if test metaReact html || test metaNext html
           then push (Because "Meta generator = React/Next.js") 2 a else a in
  (* 6. structured data with good text: subtract, no reason *)
  let a := if test ldJson html && textRatio_gt html 3 20
           then {| acc_reasons := acc_reasons a; acc_score := acc_score a - 2 |} else a in
  {| isSPA := (4 <=? acc_score a)%Z;
     score := acc_score a;
     confidence := if (8 <=? acc_score a)%Z then High
                   else if (4 <=? acc_score a)%Z then Medium else Low;
     reasons := acc_reasons a |}.

End Detect.

(* ===================================================================== *)
(** * The signal table of the specification *)
(* ===================================================================== *)

Module Signals.

Import Detect.

(** A row of the table: when the signal fires on the raw HTML, its weight,
    and the reason it is reported with. *)
Record signal := {
  fires : string -> bool;
  sig_weight : Z;
  describe : string -> reason
}.

Definition of_pattern (s : spaSignal) : signal :=
  {| fires := test (pattern s);
     sig_weight := weight s;
     describe := fun _ => Because (reason_of s) |}.

Definition very_low_text (html : string) : bool :=
  textRatio_lt html 20 && (5000 <? htmlSize html)%Z.

Definition measured_signals : list signal :=
  [ {| fires := very_low_text; sig_weight := 4;
       describe := fun html => VeryLowTextRatio (textLength html) (htmlSize html) |};
    {| fires := fun html => negb (very_low_text html)
                            && (textRatio_lt html 10 && (10000 <? htmlSize html)%Z);
       sig_weight := 2;
       describe := fun html => LowTextRatio (textLength html) (htmlSize html) |};
    {| fires := scriptRatio_gt_half; sig_weight := 2;
       describe := fun html => ScriptHeavy (scriptSize html) (htmlSize html) |};
    {| fires := fun html => 2 <=? skeletonHits html; sig_weight := 2;
       describe := fun _ => Because "Loading skeleton patterns detected" |};
    {| fires := fun html => (length (matchAll headingBlock html) =? 0)
                            && (length (matchAll paragraphBlock html) <? 3)
                            && (20000 <? htmlSize html)%Z;
       sig_weight := 3;
       describe := fun _ => Because "Large HTML with almost no semantic content" |};
    {| fires := fun html => test metaReact html || test metaNext html; sig_weight := 2;
       describe := fun _ => Because "Meta generator = React/Next.js" |} ].

(** The eighteen positively weighted signals, in scan order. *)
Definition positive_signals : list signal :=
  List.map of_pattern spaSignals ++ measured_signals.

(** The last row of the table, weight -2. *)
Definition ld_json_fires (html : string) : bool :=
  test ldJson html && textRatio_gt html 3 20.

(** The nineteen weights of the table and, for a page, which of the
    nineteen signals fire on it. *)
Definition weights : list Z := List.map sig_weight positive_signals ++ [(-2)%Z].

Definition outcomes (html : string) : list bool :=
  List.map (fun s => fires s html) positive_signals ++ [ld_json_fires html].

Fixpoint weighted_sum (ws : list Z) (bs : list bool) : Z :=
  match ws, bs with
  | w :: ws', b :: bs' => ((if b then w else 0) + weighted_sum ws' bs')%Z
  | _, _ => 0%Z
  end.

(** The number of signals of the table that fire on a page. *)
Definition fired_count (html : string) : nat :=
  length (List.filter (fun b : bool => b) (outcomes html)).

(** The effect of a list of signals on the two accumulators. *)
Definition apply_signals (html : string) (sigs : list signal) (a : acc) : acc :=
  {| acc_reasons := acc_reasons a
        ++ List.map (fun s => describe s html) (List.filter (fun s => fires s html) sigs);
     acc_score := acc_score a
        + weighted_sum (List.map sig_weight sigs) (List.map (fun s => fires s html) sigs) |}.

End Signals.

(* ===================================================================== *)
(** * The page cache (cache.js) *)
(* ===================================================================== *)

Module Cache.

(** One row of [page_cache] without its key. The table has a unique index
    on [(url, query)], and the [id] column is only ever used to address
    the row just selected through that index, so the table is a finite
    map from [(url, query)] to the remaining columns. *)
Record row := {
  backend : string;
  result_json : string;
  created_at : Z;
  expires_at : Z;
  hit_count : Z;
  last_hit : Z
}.

Definition key : Type := string * string.

(** A [PageCache] object: its two numeric options and the table behind
    [this._db]. [dbPath] and [verbose] only choose the file and the
    logging. *)
Record PageCache := {
  ttlMs : Z;
  maxEntries : nat;
  db : gmap key row
}.

Definition DEFAULT_TTL_MS : Z := 10 * 60 * 1000.
Definition DEFAULT_MAX_ENTRIES : nat := 500.

(** [new PageCache(opts)] on the table [t] found in the database file. *)
Definition open (opt_ttlMs : option Z) (opt_maxEntries : option nat)
    (t : gmap key row) : PageCache :=
  {| ttlMs := default DEFAULT_TTL_MS opt_ttlMs;
     maxEntries := default DEFAULT_MAX_ENTRIES opt_maxEntries;
     db := t |}.

Definition with_db (c : PageCache) (t : gmap key row) : PageCache :=
  {| ttlMs := ttlMs c; maxEntries := maxEntries c; db := t |}.

Definition expired (now : Z) (r : row) : bool := (expires_at r <? now)%Z.

(** [UPDATE page_cache SET hit_count = hit_count + 1, last_hit = now] on one row. *)
Definition hit (now : Z) (r : row) : row :=
  {| backend := backend r; result_json := result_json r;
     created_at := created_at r; expires_at := expires_at r;
     hit_count := hit_count r + 1; last_hit := now |}.

(** [ORDER BY CASE WHEN expires_at < now THEN 0 ELSE 1 END ASC, last_hit ASC]. *)
Definition evict_rank (now : Z) (r : row) : Z * Z :=
  (if expired now r then 0%Z else 1%Z, last_hit r).

Definition rank_le (a b : Z * Z) : Prop :=
  (a.1 < b.1)%Z \/ (a.1 = b.1 /\ (a.2 <= b.2)%Z).

Definition evict_le (now : Z) (a b : key * row) : Prop :=
  rank_le (evict_rank now a.2) (evict_rank now b.2).

#[export] Instance rank_le_dec (a b : Z * Z) : Decision (rank_le a b) :=
  decide ((a.1 < b.1)%Z \/ (a.1 = b.1 /\ (a.2 <= b.2)%Z)).

#[export] Instance evict_le_dec (now : Z) (a b : key * row) : Decision (evict_le now a b) :=
  rank_le_dec (evict_rank now a.2) (evict_rank now b.2).

(** The rows the eviction statement selects: the first [n] of the table
    in eviction order. *)
Definition victims (now : Z) (n : nat) (t : gmap key row) : list (key * row) :=
  take n (merge_sort (evict_le now) (map_to_list t)).

Definition delete_all (ks : list key) (t : gmap key row) : gmap key row :=
  foldr delete t ks.

(** [_evictIfNeeded], with the reading of [Date.now()] it interpolates. *)
Definition _evictIfNeeded (now : Z) (c : PageCache) : PageCache :=
  let count := size (db c) in
  if count <=? maxEntries c then c
  else
    let toRemove := count - maxEntries c in
    with_db c (delete_all (victims now toRemove (db c)).*1 (db c)).

Section Operations.

(** The cached value and what the cache does with it: the [backend]
    property read by [set], the text [set] stores for it
    ([JSON.stringify] of [stripUnserializable(result)]) and
    [JSON.parse], which throws on some texts. *)
Context {R : Type}.
Variable backend_of : R -> option string.
Variable serialize : R -> string.
Variable JSON_parse : string -> option R.

(** [get(url, query)] at time [now]: the returned value ([None] is
    [null]) and the cache afterwards. *)
Definition get (now : Z) (url query : string) (c : PageCache) : option R * PageCache :=
  match db c !! (url, query) with
  | None => (None, c)
  | Some r =>
      if (expires_at r <? now)%Z
      then (None, with_db c (delete (url, query) (db c)))
      else (JSON_parse (result_json r), with_db c (<[(url, query) := hit now r]> (db c)))
  end.

(** The [INSERT ... ON CONFLICT (url, query) DO UPDATE] statement of [set]
    at time [now]. *)
Definition upsert (now : Z) (url query : string) (result : R)
    (opt_ttlMs : option Z) (c : PageCache) : PageCache :=
  let ttl := default (ttlMs c) opt_ttlMs in
  let expiresAt := (now + ttl)%Z in
  let r := {| backend := default "unknown" (backend_of result);
              result_json := serialize result;
              created_at := now; expires_at := expiresAt;
              hit_count := 0; last_hit := now |} in
  with_db c (<[(url, query) := r]> (db c)).

(** [set(url, query, result, ttlMs)]: [now] is the reading of
    [Date.now()] in [set], [now_evict] the later one in
    [_evictIfNeeded]. *)
Definition set (now now_evict : Z) (url query : string) (result : R)
    (opt_ttlMs : option Z) (c : PageCache) : PageCache :=
  _evictIfNeeded now_evict (upsert now url query result opt_ttlMs c).

(** One [set] call with the clock readings it makes. *)
Record set_call := {
  at_set : Z; at_evict : Z;
  set_url : string; set_query : string; set_result : R; set_ttl : option Z
}.

Definition run_set (c : PageCache) (s : set_call) : PageCache :=
  set (at_set s) (at_evict s) (set_url s) (set_query s) (set_result s) (set_ttl s) c.

Definition run_sets (calls : list set_call) (c : PageCache) : PageCache :=
  fold_left run_set calls c.

End Operations.

(** [invalidate(url)]: the number of rows removed and the cache after. *)
Definition invalidate (url : string) (c : PageCache) : nat * PageCache :=
  let t := filter (fun kr : key * row => kr.1.1 <> url) (db c) in
  (size (db c) - size t, with_db c t).

(** [purgeExpired()] at time [now]. *)
Definition purgeExpired (now : Z) (c : PageCache) : nat * PageCache :=
  let t := filter (fun kr : key * row => ~ (expires_at kr.2 < now)%Z) (db c) in
  (size (db c) - size t, with_db c t).

(** The counters of [stats()]. *)
Record CacheStats := { entries : nat; expired_entries : nat; active : nat }.

Definition stats (now : Z) (c : PageCache) : CacheStats :=
  let total := size (db c) in
  let n_expired := size (filter (fun kr : key * row => (expires_at kr.2 < now)%Z) (db c)) in
  {| entries := total; expired_entries := n_expired; active := total - n_expired |}.

End Cache.

(* ===================================================================== *)
(** * Page records *)
(* ===================================================================== *)

Module Page.

Record Heading := { level : positive; h_text : string }.

Record Link := { l_text : string; href : string }.

(** A form field, as either renderer builds it: [tag] is input, textarea
    or select; the other properties are absent ([None]) or null on some
    tags. *)
Record Field := {
  tag : string;
  f_type : option string;
  name : option string;
  placeholder : option string;
  required : bool;
  options : list string
}.

Record Form := { action : option string; method : string; fields : list Field }.

Record Image := { src : string; alt : option string; width : option Z; height : option Z }.

Record Stats := {
  headingCount : nat;
  linkCount : nat;
  formCount : nat;
  imageCount : option nat;
  tableCount : option nat;
  textLength : nat
}.

(** The page record. [images] and [tables] are absent from a browser
    rendering; [httpStatus], [contentType] and [renderer] are the three
    properties [renderLite] adds to what [parseHTML] returns. *)
Record PageRecord := {
  url : string;
  title : option string;
  meta : list (string * string);
  headings : list Heading;
  links : list Link;
  forms : list Form;
  images : list Image;
  textContent : string;
  tables : list (list (list string));
  stats : Stats;
  httpStatus : option Z;
  contentType : option string;
  renderer : option string
}.

(** [page.meta.description]. *)
Definition description (p : PageRecord) : option string :=
  snd <$> List.find (fun kv => String.eqb (fst kv) "description") (meta p).

End Page.

(* ===================================================================== *)
(** * Results of calls that can throw *)
(* ===================================================================== *)

(** A call returns, throws, or leaves what the embedding covers: the
    fragment of JavaScript regular expression syntax of [RegExp.compile]
    below, and the results [Strip.stripUnserializable] can describe. *)
Inductive outcome (A : Type) : Type :=
| Returned (a : A)
| Threw (error : string)
| Unmodelled.

Arguments Returned {A} a.
Arguments Threw {A} error.
Arguments Unmodelled {A}.

Definition bind {A B : Type} (o : outcome A) (k : A -> outcome B) : outcome B :=
  match o with
  | Returned a => k a
  | Threw e => Threw e
  | Unmodelled => Unmodelled
  end.

Fixpoint map_outcome {A B : Type} (f : A -> outcome B) (l : list A) : outcome (list B) :=
  match l with
  | [] => Returned []
  | a :: l' => bind (f a) (fun b => bind (map_outcome f l') (fun bs => Returned (b :: bs)))
  end.

(* ===================================================================== *)
(** * [new RegExp(pattern, 'g')] *)
(* ===================================================================== *)

Module RegExp.

(** The syntax characters left out: classes, groups, braces and escapes. *)
Definition unmodelled_char (c : ascii) : bool :=
  existsb (char_eqb c) (list_ascii_of_string "\()[]{}").

Definition is_quantifier (c : ascii) : bool :=
  existsb (char_eqb c) (list_ascii_of_string "*+?").

(** [.] matches any code unit but a line terminator. *)
Definition Dot : regex := Chr (fun c => negb ((code c =? 10) || (code c =? 13))).

Definition Eos : regex :=
  Look (fun _ s => match s with EmptyString => true | _ => false end).

Definition quantify (q : ascii) (greedy : bool) (a : regex) : regex :=
  if char_eqb q "*" then Star greedy a
  else if char_eqb q "+" then Plus greedy a
  else Opt greedy a.

(** One alternative: a sequence of terms. [None] is the SyntaxError
    "nothing to repeat": a quantifier at the start, after an assertion or
    after a complete quantifier. *)
Fixpoint alternative (fuel : nat) (s : string) : option regex :=
  match fuel with
  | O => None
  | S fuel' =>
      match s with
      | EmptyString => Some Eps
      | String c s1 =>
          if is_quantifier c then None
          else if char_eqb c "^" then Cat Bos <$> alternative fuel' s1
          else if char_eqb c "$" then Cat Eos <$> alternative fuel' s1
          else
            let atom := if char_eqb c "." then Dot else Chr (char_eqb c) in
            match s1 with
            | String q s2 =>
                if is_quantifier q then
                  match s2 with
                  | String l s3 =>
                      if char_eqb l "?"
                      then Cat (quantify q false atom) <$> alternative fuel' s3
                      else Cat (quantify q true atom) <$> alternative fuel' s2
                  | EmptyString => Some (Cat (quantify q true atom) Eps)
                  end
                else Cat atom <$> alternative fuel' s1
            | EmptyString => Some (Cat atom Eps)
            end
      end
  end.

(** The pieces of a pattern between the top-level bars. *)
Fixpoint split_bars (acc : string) (s : string) : list string :=
  match s with
  | EmptyString => [acc]
  | String c s' =>
      if char_eqb c "|" then acc :: split_bars EmptyString s'
      else split_bars (acc +:+ String c EmptyString) s'
  end.

Fixpoint disjunction (alts : list string) : option regex :=
  match alts with
  | [] => None
  | [a] => alternative (S (String.length a)) a
  | a :: rest =>
      match alternative (S (String.length a)) a, disjunction rest with
      | Some r, Some r' => Some (Alt r r')
      | _, _ => None
      end
  end.

Definition compile (pattern : string) : outcome regex :=
  if existsb unmodelled_char (list_ascii_of_string pattern) then Unmodelled
  else match disjunction (split_bars EmptyString pattern) with
       | Some r => Returned r
       | None => Threw "SyntaxError"
       end.

End RegExp.

(* ===================================================================== *)
(** * The semantic chunker (semantic-chunks.js) *)
(* ===================================================================== *)

Module Chunker.

Import Page.

Definition newline : string := String "010"%char EmptyString.

Inductive chunk_type : Type :=
| TSummary | TToc | TParagraph | THeading | TListItem | TCallout
| TTableCell | TLabel | TLink | TCode | TForm | TLinks.

Definition type_name (t : chunk_type) : string :=
  match t with
  | TSummary => "summary" | TToc => "toc" | TParagraph => "paragraph"
  | THeading => "heading" | TListItem => "list-item" | TCallout => "callout"
  | TTableCell => "table-cell" | TLabel => "label" | TLink => "link"
  | TCode => "code" | TForm => "form" | TLinks => "links"
  end.

(** The [meta] objects [chunkPage] builds. *)
Inductive chunk_meta : Type :=
| IsSummary
| IsNav
| NoMeta
| Partial (part : nat)
| OfForm (f : Form)
| LinkCount (n : nat).

Record Chunk := {
  id : nat;
  type : chunk_type;
  section : option string;
  text : string;
  c_score : Z;
  c_meta : chunk_meta;
  relevance : option Z
}.

(** [linkMatches / wordCount], kept as the two counts. *)
Record density := { num : nat; den : nat }.

(** [d > n/10] *)
Definition density_gt (d : density) (tenths : nat) : bool :=
  tenths * den d <? 10 * num d.

Record context := { linkDensity : option density; underHeading : bool }.

Definition navWords : list string :=
  ["home"; "menu"; "search"; "login"; "sign in"; "sign up"; "subscribe";
   "newsletter"; "cookie"; "privacy"; "terms"].

Definition codePattern : regex :=
  OneOf [ Seq [Lit "`"; Plus true (CharNotIn "`"); Lit "`"];
          Lit "```";
          Seq [WordBoundary; Lit "const"; WordBoundary];
          Seq [WordBoundary; Lit "function"; WordBoundary];
          Seq [WordBoundary; Lit "import"; WordBoundary] ].

Definition scoreBlock (text : string) (ctx : context) : Z :=
  let score := 0%Z in
  let lower := toLowerCase text in
  let len := String.length text in
  let score :=
    if (50 <=? len) && (len <=? 500) then (score + 2)%Z
    else if (500 <? len) && (len <=? 2000) then (score + 1)%Z
    else if len <? 20 then (score - 2)%Z
    else score in
  let score := if test (Plus true Digit) text then (score + 1)%Z else score in
  let score := if test codePattern text then (score + 2)%Z else score in
  let score :=
    if test (Cat Bos (OneOf (List.map LitI navWords))) lower
    then (score - 3)%Z else score in
  let score :=
    if test (OneOf (List.map LitI ["copyright"; "all rights reserved"; "powered by"])) lower
    then (score - 2)%Z else score in
  let score :=
    match linkDensity ctx with
    | Some d => if density_gt d 7 then (score - 2)%Z else score
    | None => score
    end in
  let score := if underHeading ctx then (score + 1)%Z else score in
  let score :=
    if test (OneOf (List.map LitI ["how to"; "step"; "guide"; "tutorial"; "example";
                                   "note:"; "warning:"; "important:"])) lower
    then (score + 2)%Z else score in
  score.

(** The second argument of [detectType]. *)
Record type_hint := { isCode : bool; hint_tag : option string; standalone : bool }.

Definition no_hint : type_hint :=
  {| isCode := false; hint_tag := None; standalone := false |}.

(** [s.split(' ').length] *)
Fixpoint space_pieces (s : string) : nat :=
  match s with
  | EmptyString => 1
  | String c s' => if char_eqb c " " then S (space_pieces s') else space_pieces s'
  end.

Definition tag_is (h : type_hint) (t : string) : bool :=
  match hint_tag h with Some t' => String.eqb t' t | None => false end.

Definition detectType (text : string) (h : type_hint) : chunk_type :=
  let lower := trim (toLowerCase text) in
  if isCode h
     || test (Cat Bos (OneOf [Lit "```"; Lit "~~~"; Seq [Lit "$"; Space]; Seq [Lit ">"; Space]])) text
  then TCode
  else if match hint_tag h with
          | Some t => negb (String.eqb t EmptyString)
                      && test (Seq [Bos; Lit "h"; Range "1" "6"; RegExp.Eos]) t
          | None => false
          end
  then THeading
  else if tag_is h "li" || startsWith lower "•" || startsWith lower "-" || startsWith lower "*"
  then TListItem
  else if test (Seq [Bos; OneOf (List.map LitI ["note"; "warning"; "tip"; "important";
                                                "caution"; "info"]); Lit ":"]) lower
  then TCallout
  else if tag_is h "td" || tag_is h "th" then TTableCell
  else if (String.length text <? 50) && standalone h then TLabel
  else if test (Seq [WordBoundary; OneOf [Lit "http"; Lit "https"]; Lit "://"]) text
          && (space_pieces text <? 5)
  then TLink
  else TParagraph.

Definition sentenceBreak : regex :=
  Seq [Behind (fun c => existsb (char_eqb c) (list_ascii_of_string ".!?"));
       Plus true Space; Ahead is_upper].

Definition splitSentences (text : string) : list string :=
  List.filter (fun s => 10 <? String.length s)
    (List.map trim (split sentenceBreak text)).

(** The options of [chunkPage]; [None] is an absent property. *)
Record ChunkOpts := {
  maxChunkSize : option nat;
  opt_minScore : option Z;
  includeNav : bool
}.

Definition default_opts : ChunkOpts :=
  {| maxChunkSize := None; opt_minScore := None; includeNav := false |}.

(** [JSON.stringify(page.stats)] *)
Definition stringify_stats (s : Stats) : string :=
  let q := String dquote EmptyString in
  let entry (k : string) (v : nat) := q +:+ k +:+ q +:+ ":" +:+ of_nat v in
  "{" +:+ join ","
    ([entry "headingCount" (headingCount s); entry "linkCount" (linkCount s);
      entry "formCount" (formCount s)]
     ++ match imageCount s with Some n => [entry "imageCount" n] | None => [] end
     ++ match tableCount s with Some n => [entry "tableCount" n] | None => [] end
     ++ [entry "textLength" (textLength s)]) +:+ "}".

Definition nonempty (s : option string) : option string :=
  match s with
  | Some EmptyString => None
  | _ => s
  end.

Definition summaryText (page : PageRecord) : string :=
  join newline
    (omap (fun x : option string => x)
       [ (fun t => "Title: " +:+ t) <$> nonempty (title page);
         (fun d => "Description: " +:+ d) <$> nonempty (description page);
         (fun u => "URL: " +:+ u) <$> nonempty (Some (url page));
         Some ("Stats: " +:+ stringify_stats (stats page)) ]).

Definition tocText (page : PageRecord) : string :=
  "Page structure:" +:+ newline +:+
  join newline
    (List.map (fun h => repeat_string "  " (Pos.to_nat (level h) - 1)
                        +:+ (if Pos.eqb (level h) 1 then "" else "→ ")
                        +:+ h_text h)
              (headings page)).

(** The state of the paragraph loop. *)
Record loop_state := {
  chunks : list Chunk;
  chunkId : nat;
  currentSection : option string
}.

Definition emit (st : loop_state) (ty : chunk_type) (txt : string) (score : Z)
    (m : chunk_meta) : loop_state :=
  {| chunks := chunks st ++ [ {| id := chunkId st; type := ty; section := currentSection st;
                                  text := txt; c_score := score; c_meta := m;
                                  relevance := None |} ];
     chunkId := S (chunkId st);
     currentSection := currentSection st |}.

(** The heading texts a paragraph is compared with. *)
Definition headingTexts (page : PageRecord) : list string :=
  List.map (fun h => trim (toLowerCase (h_text h))) (headings page).

(** [headingTexts.findIndex(h => paraLower === h || paraLower.startsWith(h))] *)
Fixpoint findIndex {A : Type} (p : A -> bool) (l : list A) : option nat :=
  match l with
  | [] => None
  | x :: l' => if p x then Some 0 else S <$> findIndex p l'
  end.

Definition headingMatch (page : PageRecord) (para : string) : option nat :=
  let paraLower := trim (toLowerCase para) in
  findIndex (fun h => String.eqb paraLower h || startsWith paraLower h) (headingTexts page).

(** The inner loop over the sentences of a long paragraph: the state,
    the group being built and its index. *)
Record group_state := { g_loop : loop_state; current : string; sentIdx : nat }.

Definition sentence_step (maxSize : nat) (minScore score : Z)
    (g : group_state) (sentence : string) : group_state :=
  if (maxSize <? String.length (current g +:+ " " +:+ sentence))
     && negb (String.eqb (current g) EmptyString)
  then
    {| g_loop := if (minScore <=? score)%Z
                 then emit (g_loop g) (detectType (current g) no_hint) (trim (current g))
                           score (Partial (sentIdx g))
                 else g_loop g;
       current := sentence;
       sentIdx := S (sentIdx g) |}
  else
    {| g_loop := g_loop g;
       current := if String.eqb (current g) EmptyString then sentence
                  else current g +:+ " " +:+ sentence;
       sentIdx := sentIdx g |}.

(** One iteration of the loop over the paragraphs. *)
Definition para_step (page : PageRecord) (maxSize : nat) (minScore : Z) (nav : bool)
    (st : loop_state) (para : string) : loop_state :=
  match headingMatch page para with
  | Some i =>
      {| chunks := chunks st; chunkId := chunkId st;
         currentSection := h_text <$> (headings page !! i) |}
  | None =>
      let wordCount := length (split (Plus true Space) para) in
      let linkMatches := length (matchAll (Seq [Lit "http"; Opt true (Lit "s"); Lit "://"]) para) in
      let d := if 0 <? wordCount then {| num := linkMatches; den := wordCount |}
               else {| num := 0; den := 1 |} in
      let score := scoreBlock para
                     {| linkDensity := Some d;
                        underHeading := match currentSection st with
                                        | Some s => negb (String.eqb s EmptyString)
                                        | None => false
                                        end |} in
      if negb nav && density_gt d 5 then st
      else if maxSize <? String.length para then
        let g := fold_left (sentence_step maxSize minScore score) (splitSentences para)
                   {| g_loop := st; current := EmptyString; sentIdx := 0 |} in
        if negb (String.eqb (trim (current g)) EmptyString) && (minScore <=? score)%Z
        then emit (g_loop g) (detectType (current g) no_hint) (trim (current g))
                  score (Partial (sentIdx g))
        else g_loop g
      else if (minScore <=? score)%Z
      then emit st (detectType para no_hint) para score NoMeta
      else st
  end.

Definition paragraphs_of (txt : string) : list string :=
  List.filter (fun p => 0 <? String.length p)
    (List.map trim (split (AtLeast 2 (Lit newline)) txt)).

Definition fieldDesc (f : Field) : string :=
  let q := String dquote EmptyString in
  tag f +:+ "[" +:+ default (tag f) (nonempty (f_type f)) +:+ "] name=" +:+ q
  +:+ default EmptyString (name f) +:+ q +:+ " "
  +:+ match nonempty (placeholder f) with
      | Some p => "placeholder=" +:+ q +:+ p +:+ q
      | None => EmptyString
      end
  +:+ " " +:+ (if required f then "(required)" else EmptyString).

Definition formText (f : Form) : string :=
  "Form: " +:+ method f +:+ " " +:+ default "(self)" (nonempty (action f))
  +:+ newline +:+ "  " +:+ join (newline +:+ "  ") (List.map fieldDesc (fields f)).

Definition skipLinkWords : list string :=
  ["home"; "menu"; "back"; "next"; "prev"; "more"; "see all"].

Definition importantLinks (page : PageRecord) : list Link :=
  List.firstn 20
    (List.filter (fun l => negb (test (Cat Bos (OneOf (List.map LitI skipLinkWords))) (l_text l)))
       (List.filter (fun l => (3 <? String.length (l_text l)) && (String.length (l_text l) <? 80))
          (links page))).

Definition linksText (ls : list Link) : string :=
  "Notable links:" +:+ newline +:+
  join newline (List.map (fun l => "• " +:+ l_text l +:+ " → " +:+ href l) ls).

(** [list.sort((a, b) => key(b) - key(a))]: a stable sort, largest key
    first. *)
Fixpoint insert_desc {A : Type} (key : A -> Z) (x : A) (l : list A) : list A :=
  match l with
  | [] => [x]
  | y :: l' => if (key x <? key y)%Z then y :: insert_desc key x l' else x :: l
  end.

Definition sort_desc {A : Type} (key : A -> Z) (l : list A) : list A :=
  foldr (insert_desc key) [] l.

Definition chunkPage (page : PageRecord) (opts : ChunkOpts) : list Chunk :=
  let maxSize := match maxChunkSize opts with Some (S n) => S n | _ => 800 end in
  let minScore := default (-1)%Z (opt_minScore opts) in
  let st := {| chunks := []; chunkId := 0; currentSection := None |} in
  (* the page summary *)
  let st := {| chunks := chunks st ++ [ {| id := chunkId st; type := TSummary; section := None;
                                           text := summaryText page; c_score := 10;
                                           c_meta := IsSummary; relevance := None |} ];
               chunkId := S (chunkId st); currentSection := None |} in
  (* the headings *)
  let st := match headings page with
            | [] => st
            | _ :: _ =>
                {| chunks := chunks st ++ [ {| id := chunkId st; type := TToc; section := None;
                                               text := tocText page; c_score := 5;
                                               c_meta := IsNav; relevance := None |} ];
                   chunkId := S (chunkId st); currentSection := None |}
            end in
  (* the main text *)
  let st := fold_left (para_step page maxSize minScore (includeNav opts))
              (paragraphs_of (textContent page)) st in
  (* the forms *)
  let st := fold_left
              (fun st f =>
                 {| chunks := chunks st ++ [ {| id := chunkId st; type := TForm; section := None;
                                                text := formText f; c_score := 7;
                                                c_meta := OfForm f; relevance := None |} ];
                    chunkId := S (chunkId st); currentSection := currentSection st |})
              (forms page) st in
  (* the notable links *)
  let st := match importantLinks page with
            | [] => st
            | ls =>
                {| chunks := chunks st ++ [ {| id := chunkId st; type := TLinks; section := None;
                                               text := linksText ls; c_score := 3;
                                               c_meta := LinkCount (length ls);
                                               relevance := None |} ];
                   chunkId := S (chunkId st); currentSection := currentSection st |}
            end in
  sort_desc c_score (chunks st).

(** [formatChunks(chunks)] with its default options. *)
Definition formatChunks (cs : list Chunk) : string :=
  let q := String dquote EmptyString in
  let limit := 10 in
  let minScore := 0%Z in
  let filtered := List.firstn limit (List.filter (fun c => (minScore <=? c_score c)%Z) cs) in
  join (newline +:+ newline +:+ "---" +:+ newline +:+ newline)
    (List.map
       (fun c =>
          join " "
            (omap (fun x : option string => x)
               [ Some ("[chunk:" +:+ of_nat (id c) +:+ "]");
                 Some ("type=" +:+ type_name (type c));
                 (fun s => "section=" +:+ q +:+ s +:+ q) <$> nonempty (section c);
                 Some ("score=" +:+ of_Z (c_score c)) ])
          +:+ newline +:+ text c)
       filtered).

(** The words of a query that [findRelevant] keeps. *)
Definition queryWords (query : string) : list string :=
  List.filter (fun w => 2 <? String.length w) (split (Plus true Space) (toLowerCase query)).

(** The inner loop of [findRelevant]: each word is compiled as a pattern
    and its matches in the text are counted. *)
Fixpoint add_matches (textLower : string) (words : list string) (rel : Z) : outcome Z :=
  match words with
  | [] => Returned rel
  | word :: rest =>
      bind (RegExp.compile word)
        (fun r =>
           let matches := length (matchAll r textLower) in
           add_matches textLower rest (rel + Z.of_nat matches * 2)%Z)
  end.

Definition with_relevance (c : Chunk) (rel : Z) : Chunk :=
  {| id := id c; type := type c; section := section c; text := text c;
     c_score := c_score c; c_meta := c_meta c; relevance := Some rel |}.

Definition relevance_key (c : Chunk) : Z := default 0%Z (relevance c).

Definition findRelevant (cs : list Chunk) (query : string) (limit : nat)
    : outcome (list Chunk) :=
  let words := queryWords query in
  bind (map_outcome
          (fun c => bind (add_matches (toLowerCase (text c)) words (c_score c))
                         (fun rel => Returned (with_relevance c rel)))
          cs)
       (fun scored => Returned (List.firstn limit (sort_desc relevance_key scored))).

End Chunker.

(* ===================================================================== *)
(** * The lite renderer (lite-renderer.js) *)
(* ===================================================================== *)

Module Lite.

Import Page.

(** What [fetch] resolves to. *)
Record Response := {
  ok : bool;
  status : Z;
  statusText : string;
  response_url : string;
  content_type : option string;
  body : string
}.

Definition with_http (p : PageRecord) (st : Z) (ct : option string) : PageRecord :=
  {| url := url p; title := title p; meta := meta p; headings := headings p;
     links := links p; forms := forms p; images := images p;
     textContent := textContent p; tables := tables p; stats := stats p;
     httpStatus := Some st; contentType := ct; renderer := Some "lite" |}.

Section Renderer.

(** [parseHTML(html, url)] runs the extractors over the text; it returns
    for every text, and no property below depends on what it extracts. *)
Variable parseHTML : string -> string -> PageRecord.

(** [renderLite(url, options)]: [rawHtml] is [options._rawHtml] and [net]
    is what the [fetch] of the second branch would give, a response or a
    rejection. The first branch is guarded by the truthiness of
    [options._rawHtml], so an empty text takes the second. *)
Definition renderLite (url : string) (rawHtml : option string) (net : outcome Response)
    : outcome PageRecord :=
  match rawHtml with
  | Some (String _ _ as html) =>
      Returned (with_http (parseHTML html url) 200 (Some "text/html"))
  | _ =>
      bind net (fun response =>
        if negb (ok response)
        then Threw ("HTTP " +:+ of_Z (status response) +:+ " " +:+ statusText response)
        else
          let finalUrl := match response_url response with
                          | EmptyString => url
                          | u => u
                          end in
          Returned (with_http (parseHTML (body response) finalUrl)
                              (status response) (content_type response)))
  end.

End Renderer.

End Lite.

(* ===================================================================== *)
(** * The orchestrator (smart-renderer.js) *)
(* ===================================================================== *)

Module Orchestrator.

Import Page Chunker Lite.

Record RenderResult := {
  r_url : string;
  backend : string;
  detection : option Detect.DetectionReport;
  data : option PageRecord;
  r_chunks : option (list Chunk);
  summary : option string;
  ms : Z;
  cached : bool;
  error : option string
}.

(** The options of [render]; [None] is an absent property. *)
Record Options := {
  force : option string;
  query : option string;
  chunkLimit : option nat;
  timeout : option Z;
  noCache : bool;
  cacheTtlMs : option Z
}.

(** What [fetchRaw] resolves to. *)
Record Fetched := { html : string; fetch_status : Z; fetch_contentType : string }.

(** What one call of [render] observes of the world: the readings of
    [Date.now()] (at entry, in [getCache], in [cache.get], when [ms] is
    computed, in [cache.set] and in the eviction) and the outcomes of the
    raw fetch, of the browser rendering and of the fetch [renderLite]
    performs when it is given no HTML. *)
Record World := {
  t0 : Z;
  t_open : Z;
  t_get : Z;
  t_ms : Z;
  t_set : Z;
  t_evict : Z;
  fetched : outcome Fetched;
  browser : outcome PageRecord;
  lite_fetch : outcome Response
}.

(** The module variable [_cache]: not yet created, over the table found in
    the database file, or created. *)
Inductive CacheState : Type :=
| Closed (table : gmap Cache.key Cache.row)
| Opened (c : Cache.PageCache).

Definition truthy (s : option string) : bool :=
  match s with
  | Some (String _ _) => true
  | _ => false
  end.

Definition error_result (url : string) (msg : string) (elapsed : Z) : RenderResult :=
  {| r_url := url; backend := "error"; detection := None; data := None;
     r_chunks := None; summary := None; ms := elapsed; cached := false;
     error := Some msg |}.

Section Render.

Variable parseHTML : string -> string -> PageRecord.
(** [JSON.stringify(stripUnserializable(result))] and [JSON.parse]. *)
Variable serialize : RenderResult -> string.
Variable JSON_parse : string -> option RenderResult.

Definition cache_get := Cache.get JSON_parse.
Definition cache_set := Cache.set (fun r => Some (backend r)) serialize.

(** [getCache()] *)
Definition getCache (now : Z) (st : CacheState) : Cache.PageCache :=
  match st with
  | Opened c => c
  | Closed table =>
      snd (Cache.purgeExpired now (Cache.open (Some (10 * 60 * 1000)%Z) (Some 200) table))
  end.

(** [buildResult]: a throw of the chunking block is caught and the summary
    falls back to the start of the text. *)
Definition buildResult (url backend_tag : string) (d : Detect.DetectionReport) (page : PageRecord)
    (q : option string) (limit : nat) (elapsed : Z) : outcome RenderResult :=
  let allChunks := chunkPage page default_opts in
  let relevant := match q with
                  | Some (String _ _ as query) => findRelevant allChunks query limit
                  | _ => Returned (List.firstn limit allChunks)
                  end in
  let make (cs : option (list Chunk)) (s : string) :=
    {| r_url := url; backend := backend_tag; detection := Some d; data := Some page;
       r_chunks := cs; summary := Some s; ms := elapsed; cached := false;
       error := None |} in
  match relevant with
  | Returned cs => Returned (make (Some cs) (formatChunks cs))
  | Threw _ => Returned (make None (slice0 2000 (textContent page)))
  | Unmodelled => Unmodelled
  end.

Definition render (w : World) (url : string) (o : Options) (st : CacheState)
    : outcome (RenderResult * CacheState) :=
  let limit := default 8 (chunkLimit o) in
  let elapsed := (t_ms w - t0 w)%Z in
  (* cache lookup *)
  let cache := getCache (t_open w) st in
  let cacheKey := default EmptyString (query o) in
  let '(hit, cache) :=
    if negb (noCache o) && negb (truthy (force o))
    then cache_get (t_get w) url cacheKey cache
    else (None, cache) in
  match hit with
  | Some c =>
      Returned ({| r_url := r_url c; backend := backend c; detection := detection c;
                   data := data c; r_chunks := r_chunks c; summary := summary c;
                   ms := elapsed; cached := true; error := error c |},
                Opened cache)
  | None =>
      (* step 1: the raw HTML *)
      match fetched w with
      | Unmodelled => Unmodelled
      | Threw msg =>
          Returned (error_result url ("Fetch failed: " +:+ msg) elapsed, Opened cache)
      | Returned f =>
          let rawHtml := html f in
          (* step 2: detection *)
          let d := Detect.detectSPA rawHtml in
          let useLite :=
            match force o with
            | Some (String _ _ as how) => String.eqb how "lite"
            | _ => negb (Detect.isSPA d)
            end in
          let backend_tag := if useLite then "lite" else "playwright" in
          (* step 3: rendering *)
          let rendered := if useLite then renderLite parseHTML url (Some rawHtml) (lite_fetch w)
                          else browser w in
          match rendered with
          | Returned page =>
              bind (buildResult url backend_tag d page (query o) limit elapsed)
                (fun result =>
                   (* cache store *)
                   if negb (noCache o) && negb (String.eqb (backend result) "error")
                   then
                     let ttl := default (if String.eqb backend_tag "playwright"
                                         then 5 * 60 * 1000 else 10 * 60 * 1000)%Z
                                        (cacheTtlMs o) in
                     Returned (result,
                               Opened (cache_set (t_set w) (t_evict w) url cacheKey result
                                                 (Some ttl) cache))
                   else Returned (result, Opened cache))
          | Unmodelled => Unmodelled
          | Threw msg =>
              if String.eqb backend_tag "playwright"
              then
                match renderLite parseHTML url (Some rawHtml) (lite_fetch w) with
                | Returned page =>
                    bind (buildResult url "lite-fallback" d page (query o) limit elapsed)
                      (fun result => Returned (result, Opened cache))
                | Threw e2 => Returned (error_result url e2 elapsed, Opened cache)
                | Unmodelled => Unmodelled
                end
              else Returned (error_result url msg elapsed, Opened cache)
          end
      end
  end.

End Render.

End Orchestrator.

(* ===================================================================== *)
(** * Query ranking as the specification words it *)
(* ===================================================================== *)

Module Ranking.

Import Chunker.

(** The occurrences of a token in a text, counted from left to right
    without overlap. *)
Definition occurrences (token txt : string) : nat :=
  length (matchAll (Lit token) txt).

Definition total_occurrences (words : list string) (txt : string) : nat :=
  foldr (fun w n => occurrences w txt + n) 0 words.

(** [score + 2 x (count of token occurrences in chunk.text,
    case-insensitive)] *)
Definition relevance_spec (words : list string) (c : Chunk) : Z :=
  (c_score c + 2 * Z.of_nat (total_occurrences words (toLowerCase (text c))))%Z.

(** The characters with a meaning in a pattern. A word without any of
    them is a pattern that matches itself. *)
Definition syntax_chars : string := "\()[]{}*+?^$.|".

Definition plain_char (c : ascii) : bool :=
  negb (existsb (char_eqb c) (list_ascii_of_string syntax_chars)).

Fixpoint plain (w : string) : bool :=
  match w with
  | EmptyString => true
  | String c w' => plain_char c && plain w'
  end.

End Ranking.

(* ===================================================================== *)
(** * Auxiliary notions used in the statements *)
(* ===================================================================== *)

Module Notions.

Import Page Chunker Orchestrator.

(** Largest key first. *)
Definition desc {A : Type} (key : A -> Z) (a b : A) : Prop := (key b <= key a)%Z.

(** In the paragraph loop, [st'] continues [st]: the current section is
    the same, and every chunk added since carries it. *)
Definition extends (st st' : loop_state) : Prop :=
  currentSection st' = currentSection st /\
  exists new, chunks st' = chunks st ++ new /\
              Forall (fun c => section c = currentSection st) new.

(** The cache lookup at the head of [render]: what it returns and the
    cache after it. *)
Definition cache_lookup (JSON_parse : string -> option RenderResult)
    (w : World) (url : string) (o : Options) (st : CacheState)
    : option RenderResult * Cache.PageCache :=
  if negb (noCache o) && negb (truthy (force o))
  then cache_get JSON_parse (t_get w) url (default EmptyString (query o))
                 (getCache (t_open w) st)
  else (None, getCache (t_open w) st).

(** [render] chooses the browser: [force] is set to something other than
    lite, or it is not set and the page is detected as an SPA. *)
Definition uses_browser (o : Options) (rawHtml : string) : Prop :=
  (truthy (force o) = true /\ force o <> Some "lite") \/
  (truthy (force o) = false /\ Detect.isSPA (Detect.detectSPA rawHtml) = true).

(** The time to live [render] passes to [cache.set]. *)
Definition store_ttl (o : Options) (backend_tag : string) : Z :=
  default (if String.eqb backend_tag "playwright"
           then 5 * 60 * 1000 else 10 * 60 * 1000)%Z (cacheTtlMs o).

End Notions.

(* ===================================================================== *)
(** * Sample inputs *)
(* ===================================================================== *)

Module Samples.

Import Cache.

Definition row_a : row :=
  {| backend := "lite"; result_json := "{}";
     created_at := 0; expires_at := 10; hit_count := 0; last_hit := 0 |}.

(** A cache of capacity 1 that holds one row, which expires at time 10. *)
Definition cache_a : PageCache :=
  {| ttlMs := 600000; maxEntries := 1;
     db := {[ ("https://a.example", "") := row_a ]} |}.

Definition call_b : set_call (R:=string) :=
  {| at_set := 3; at_evict := 4; set_url := "https://b.example"; set_query := "";
     set_result := "{}"; set_ttl := None |}.

Import Page Chunker Lite Orchestrator.

Definition chunk_abc : Chunk :=
  {| id := 0; type := TParagraph; section := None; text := "abc";
     c_score := 0; c_meta := NoMeta; relevance := None |}.

(** A page with one heading and three paragraphs: the first is a prefix
    of the heading text, the second starts with it. *)
Definition page_steps : PageRecord :=
  {| url := "https://a.example/guide"; title := Some "Guide"; meta := [];
     headings := [ {| level := 1; h_text := "Step 1: Install the tools" |} ];
     links := []; forms := []; images := [];
     textContent := "Step 1" +:+ newline +:+ newline
                    +:+ "Step 1: Install the tools and more" +:+ newline +:+ newline
                    +:+ "Run the installer 2 times.";
     tables := [];
     stats := {| headingCount := 1; linkCount := 0; formCount := 0;
                 imageCount := Some 0; tableCount := Some 0; textLength := 70 |};
     httpStatus := Some 200%Z; contentType := Some "text/html"; renderer := Some "lite" |}.

Definition loop_start : loop_state :=
  {| chunks := []; chunkId := 2; currentSection := None |}.

(** A stand-in for [parseHTML] that keeps the address and the stripped
    text. *)
Definition bare_parser (html url : string) : PageRecord :=
  {| url := url; title := None; meta := []; headings := []; links := []; forms := [];
     images := []; textContent := slice0 5000 (decodeEntities (stripTags html));
     tables := [];
     stats := {| headingCount := 0; linkCount := 0; formCount := 0;
                 imageCount := Some 0; tableCount := Some 0;
                 textLength := String.length (slice0 5000 (decodeEntities (stripTags html))) |};
     httpStatus := None; contentType := None; renderer := None |}.



Definition no_options : Options :=
  {| force := None; query := None; chunkLimit := None; timeout := None;
     noCache := false; cacheTtlMs := None |}.

Definition spa_fetched : Fetched :=
  {| html := "<html><body><app-root></app-root></body></html>";
     fetch_status := 200; fetch_contentType := "text/html" |}.

(** A call during which the page is an Angular shell and the browser
    cannot be launched. *)
Definition world_no_browser : World :=
  {| t0 := 100; t_open := 100; t_get := 101; t_ms := 150; t_set := 151; t_evict := 152;
     fetched := Returned spa_fetched;
     browser := Threw "Playwright not installed";
     lite_fetch := Threw "no second fetch" |}.

(** The same call with the browser rendering the page. *)
Definition world_browser : World :=
  {| t0 := 100; t_open := 100; t_get := 101; t_ms := 150; t_set := 151; t_evict := 152;
     fetched := Returned spa_fetched;
     browser := Returned (bare_parser "<app-root>Hello</app-root>" "https://a.example/");
     lite_fetch := Threw "no second fetch" |}.

Definition no_serialize (r : RenderResult) : string := "{}".
Definition no_parse (s : string) : option RenderResult := None.

End Samples.

(* ===================================================================== *)
(** * Sequences of cache calls *)
(* ===================================================================== *)

Module CacheRuns.

Import Cache.

(** Successive [get] calls on one key, at the given times: the values
    returned, in order, and the cache after the last call. *)
Fixpoint gets {R : Type} (JSON_parse : string -> option R) (times : list Z)
    (url query : string) (c : PageCache) : list (option R) * PageCache :=
  match times with
  | [] => ([], c)
  | now :: later =>
      let '(v, c1) := get JSON_parse now url query c in
      let '(vs, c2) := gets JSON_parse later url query c1 in
      (v :: vs, c2)
  end.

(** The row [set] writes. *)
Definition fresh_row {R : Type} (backend_of : R -> option string) (serialize : R -> string)
    (now : Z) (result : R) (ttl : Z) : row :=
  {| backend := default "unknown" (backend_of result);
     result_json := serialize result;
     created_at := now; expires_at := now + ttl;
     hit_count := 0; last_hit := now |}.

End CacheRuns.

(* ===================================================================== *)
(** * What [chunkPage] produces *)
(* ===================================================================== *)

Module ChunkShapes.

Import Page Chunker.

(** The two numeric options of [chunkPage] after their defaults. *)
Definition maxSize_of (opts : ChunkOpts) : nat :=
  match maxChunkSize opts with Some (S n) => S n | _ => 800 end.

Definition minScore_of (opts : ChunkOpts) : Z := default (-1)%Z (opt_minScore opts).

(** The first chunk [chunkPage] pushes. *)
Definition summary_chunk (page : PageRecord) : Chunk :=
  {| id := 0; type := TSummary; section := None; text := summaryText page;
     c_score := 10; c_meta := IsSummary; relevance := None |}.

(** The types of the chunks cut from the page text. *)
Definition from_text (t : chunk_type) : bool :=
  match t with
  | TParagraph | TListItem | TCallout | TLink | TCode => true
  | _ => false
  end.

(** A section is absent or the text of a heading of the page. *)
Definition section_of_page (page : PageRecord) (s : option string) : Prop :=
  s = None \/ exists h, h ∈ headings page /\ s = Some (h_text h).

(** The text of a chunk cut from the page text. It is a whole paragraph
    no longer than the limit; or it is a part of a paragraph that is
    longer than the limit: one or more consecutive sentences of that
    paragraph, joined by single spaces and trimmed, which together are no
    longer than the limit unless the part is a single sentence. The type
    is what [detectType] makes of the text, before trimming for a part. *)
Definition text_of_page (page : PageRecord) (maxSize : nat) (c : Chunk) : Prop :=
  (c_meta c = NoMeta /\ text c ∈ paragraphs_of (textContent page) /\
   String.length (text c) <= maxSize /\
   type c = detectType (text c) no_hint) \/
  (exists part para before group after,
     c_meta c = Partial part /\
     para ∈ paragraphs_of (textContent page) /\
     maxSize < String.length para /\
     splitSentences para = before ++ group ++ after /\
     group <> [] /\
     text c = trim (join " " group) /\
     type c = detectType (join " " group) no_hint /\
     (String.length (join " " group) <= maxSize \/ length group = 1)).

(** What a chunk of [chunkPage page opts] can be, by type. *)
Definition chunk_shape (page : PageRecord) (opts : ChunkOpts) (c : Chunk) : Prop :=
  relevance c = None /\
  match type c with
  | TSummary => c = summary_chunk page
  | TToc => c_score c = 5%Z /\ section c = None /\ c_meta c = IsNav /\
            text c = tocText page /\ headings page <> []
  | TForm => c_score c = 7%Z /\ section c = None /\
             exists f, f ∈ forms page /\ c_meta c = OfForm f /\ text c = formText f
  | TLinks => c_score c = 3%Z /\ section c = None /\
              c_meta c = LinkCount (length (importantLinks page)) /\
              text c = linksText (importantLinks page) /\ importantLinks page <> []
  | THeading | TTableCell | TLabel => False
  | TParagraph | TListItem | TCallout | TLink | TCode =>
      (minScore_of opts <= c_score c <= 8)%Z /\
      section_of_page page (section c) /\
      text_of_page page (maxSize_of opts) c
  end.

(** The invariant of the loops of [chunkPage]: the chunks pushed so far
    have these shapes, they are numbered from 0 in the order pushed, and
    the summary comes first. *)
Definition chunks_inv (page : PageRecord) (opts : ChunkOpts) (st : loop_state) : Prop :=
  Forall (chunk_shape page opts) (chunks st) /\
  List.map id (chunks st) = seq 0 (chunkId st) /\
  section_of_page page (currentSection st) /\
  head (chunks st) = Some (summary_chunk page).

(** The group under construction in the loop over the sentences of a
    paragraph, after the sentences [seen]: it is the last of them, joined
    by single spaces, and it is within the limit unless it is a single
    sentence. *)
Definition group_ok (opts : ChunkOpts) (seen : list string) (cur : string) : Prop :=
  exists before group,
    seen = before ++ group /\ cur = join " " group /\
    (group = [] \/ String.length cur <= maxSize_of opts \/ length group = 1).

End ChunkShapes.

(* ===================================================================== *)
(** * Values handed to the cache (cache.js, [stripUnserializable]) *)
(* ===================================================================== *)

Module Strip.

(** A JavaScript value as [stripUnserializable] sees it: what [typeof],
    [Array.isArray], [Object.entries] and [constructor.name] tell of it.
    An object is the name its [constructor] is read with and its own
    enumerable entries, in the order of [Object.entries]; a value is a
    finite tree, so an object that contains itself has no counterpart
    here. *)
#[local] Unset Elimination Schemes.

Inductive jsval : Type :=
| JUndefined
| JNull
| JBool (b : bool)
| JNum (z : Z)
| JStr (s : string)
| JFun
| JArr (items : list jsval)
| JObj (ctor : string) (entries : list (string * jsval)).

#[local] Set Elimination Schemes.

(** [typeof v === 'function'] *)
Definition is_function (v : jsval) : bool :=
  match v with JFun => true | _ => false end.

(** [v && typeof v === 'object' && v.constructor?.name === 'Page'] *)
Definition is_page (v : jsval) : bool :=
  match v with JObj c _ => String.eqb c "Page" | _ => false end.

Definition too_deep : jsval := JStr "[too deep]".

(** The values whose assignment to [out.__proto__] replaces the prototype
    of [out]: objects, arrays and null. The assignment of any other value
    does nothing. *)
Definition replaces_prototype (v : jsval) : bool :=
  match v with JNull | JArr _ | JObj _ _ => true | _ => false end.

(** The loop over [Object.entries(obj)], with [strip] for the recursive
    call. The result object starts as the literal [{}], so as long as its
    prototype and its [constructor] are left alone its constructor reads
    as [Object]. Two assignments change that, and the description of the
    result by a constructor name and a list of entries ends with them: the
    call is [Unmodelled]
    - when the key is [__proto__] and the stripped value is an object, an
      array or null, which becomes the prototype of the result (its
      constructor then reads as that of the prototype);
    - when the key is [constructor], which makes the stripped value what
      the constructor of the result reads as.
    An assignment of any other value to [__proto__] adds no entry and
    changes nothing. *)
Fixpoint strip_entries (strip : jsval -> outcome jsval) (es : list (string * jsval))
    : outcome (list (string * jsval)) :=
  match es with
  | [] => Returned []
  | (k, v) :: es' =>
      if is_function v then strip_entries strip es'
      else if is_page v then strip_entries strip es'
      else
        bind (strip v) (fun v' =>
          if String.eqb k "__proto__"
          then if replaces_prototype v' then Unmodelled else strip_entries strip es'
          else if String.eqb k "constructor" then Unmodelled
          else bind (strip_entries strip es') (fun out => Returned ((k, v') :: out)))
  end.

(** [stripUnserializable(obj, depth)] *)
Fixpoint stripUnserializable (obj : jsval) (depth : nat) : outcome jsval :=
  if 10 <? depth then Returned too_deep
  else
    match obj with
    | JNull | JUndefined => Returned obj
    | JFun => Returned JUndefined
    | JBool _ | JNum _ | JStr _ => Returned obj
    | JArr items =>
        bind (map_outcome (fun v => stripUnserializable v (S depth)) items)
             (fun items' => Returned (JArr items'))
    | JObj _ entries =>
        bind (strip_entries (fun v => stripUnserializable v (S depth)) entries)
             (fun out => Returned (JObj "Object" out))
    end.

(** The keys whose assignment can change what the constructor of the
    result reads as. *)
Definition special_key (k : string) : bool :=
  String.eqb k "__proto__" || String.eqb k "constructor".

(** A value none of whose objects has an entry under a special key. *)
Fixpoint ordinary (v : jsval) : bool :=
  match v with
  | JArr items => forallb ordinary items
  | JObj _ entries => forallb (fun e => negb (special_key e.1) && ordinary e.2) entries
  | _ => true
  end.

(** A value holds no function, and its objects are plain. *)
Fixpoint serializable (v : jsval) : bool :=
  match v with
  | JFun => false
  | JArr items => forallb serializable items
  | JObj c entries =>
      String.eqb c "Object" && forallb (fun e => serializable e.2) entries
  | _ => true
  end.

(** The levels of arrays and objects in a value. *)
Fixpoint height (v : jsval) : nat :=
  match v with
  | JArr items => S (list_max (List.map height items))
  | JObj _ entries => S (list_max (List.map (fun e => height e.2) entries))
  | _ => 0
  end.

(** The values that [stripUnserializable] returns as they are at a depth:
    no function, plain objects with no entry under a special key, and
    below ten levels of nesting nothing but the marker. *)
Fixpoint settled (v : jsval) (depth : nat) : bool :=
  if 10 <? depth
  then match v with JStr s => String.eqb s "[too deep]" | _ => false end
  else
    match v with
    | JFun => false
    | JArr items => forallb (fun v => settled v (S depth)) items
    | JObj c entries =>
        String.eqb c "Object" &&
        forallb (fun e => negb (special_key e.1) && settled e.2 (S depth)) entries
    | _ => true
    end.

(** What a value returned at a depth is like. *)
Definition stripped (depth : nat) (v : jsval) : Prop :=
  serializable v = true /\ height v <= 11 - depth /\ settled v depth = true.

End Strip.

(* ===================================================================== *)
(** * Matches with capture groups *)
(* ===================================================================== *)

Module Captures.

(** A pattern as a sequence of pieces: plain sub-patterns, capture groups
    (none of them under a quantifier in the sources) and, for [\1] under
    the [i] flag, the text of an earlier group matched again without
    regard to case. Groups are numbered from 0 here. *)
Inductive piece : Type :=
| Plain (r : regex)
| Group (r : regex)
| SameAs (n : nat).

(** The text between two cursors of the same input. *)
Definition consumed (c c' : cursor) : string :=
  str_take (String.length (snd c) - String.length (snd c')) (snd c).

(** All the ways the pieces match at [c], in backtracking order, each
    with the texts of the groups. *)
Fixpoint run_pieces (ps : list piece) (caps : list string) (c : cursor)
    : list (list string * cursor) :=
  match ps with
  | [] => [(caps, c)]
  | Plain r :: ps' => flat_map (run_pieces ps' caps) (run r c)
  | Group r :: ps' =>
      flat_map (fun c' => run_pieces ps' (caps ++ [consumed c c']) c') (run r c)
  | SameAs n :: ps' =>
      flat_map (run_pieces ps' caps) (run (LitI (default EmptyString (caps !! n))) c)
  end.

(** What [exec] returns: the groups, the matched text, and the cursor
    after the match. *)
Record hit := { groups : list string; whole : string; rest : cursor }.

(** [m[i + 1]] of a match all of whose groups take part. *)
Definition group (m : hit) (i : nat) : string := default EmptyString (groups m !! i).

(** The leftmost match from a position on. *)
Fixpoint exec (ps : list piece) (prev : option ascii) (s : string) : option hit :=
  match run_pieces ps [] (prev, s) with
  | (caps, c') :: _ =>
      Some {| groups := caps; whole := consumed (prev, s) c'; rest := c' |}
  | [] =>
      match s with
      | EmptyString => None
      | String ch s' => exec ps (Some ch) s'
      end
  end.

(** [while ((m = re.exec(s)) !== null)] for a [g] pattern: each search
    resumes where the last match ended. A loop of the source that met an
    empty match would find it again for ever; the patterns below all begin
    with a literal character, and the list ends there. *)
Fixpoint exec_loop (ps : list piece) (fuel : nat) (prev : option ascii) (s : string)
    : list hit :=
  match fuel with
  | O => []
  | S f =>
      match exec ps prev s with
      | None => []
      | Some m =>
          match whole m with
          | EmptyString => [m]
          | _ => m :: exec_loop ps f (fst (rest m)) (snd (rest m))
          end
      end
  end.

Definition exec_all (ps : list piece) (s : string) : list hit :=
  exec_loop ps (S (String.length s)) None s.

(** The patterns that begin with a character. *)
Definition begins_with_char (ps : list piece) : Prop :=
  exists p r ps',
    ps = Plain (Cat (Chr p) r) :: ps' \/ ps = Group (Cat (Chr p) r) :: ps'.

End Captures.

(* ===================================================================== *)
(** * The extractors of the lite renderer (lite-renderer.js) *)
(* ===================================================================== *)

Module Extract.

Import Page Captures.

Definition quotes : string := String dquote "'".

Definition upper_char (c : ascii) : ascii :=
  if is_lower c then ascii_of_nat (code c - 32) else c.

Fixpoint toUpperCase (s : string) : string :=
  match s with
  | EmptyString => EmptyString
  | String c s' => String (upper_char c) (toUpperCase s')
  end.

(** [s.includes(sub)] *)
Fixpoint includes (s sub : string) : bool :=
  startsWith s sub ||
  match s with
  | EmptyString => false
  | String _ s' => includes s' sub
  end.

(** The pattern of [parseAttrs], under [g]: a group of one word character
    and then word characters and hyphens, the equals sign, a quote of
    either kind, a lazy group of characters that are no quotes, and a
    quote of either kind. *)
Definition attrPattern : list piece :=
  [ Group (Cat (Chr is_word) (Star true (Chr (fun c => is_word c || char_eqb c "-"))));
    Plain (Lit "="); Plain (CharIn quotes);
    Group (Star false (CharNotIn quotes));
    Plain (CharIn quotes) ].

(** [parseAttrs]: the object it fills, read below only at the keys of
    attributes. A later attribute of the same name replaces an earlier
    one. *)
Definition parseAttrs (str : string) : gmap string string :=
  fold_left (fun attrs m => <[toLowerCase (group m 0) := group m 1]> attrs)
    (exec_all attrPattern str) (∅ : gmap string string).

(** [attrs.k] where the source tests it for truthiness: an absent
    attribute and an empty one count alike. *)
Definition attr (attrs : gmap string string) (k : string) : option string :=
  match attrs !! k with
  | Some (String _ _ as v) => Some v
  | _ => None
  end.

(** [<tag\s+([^>]*?)>([\s\S]*?)<\/tag>] under [gi]. *)
Definition element (tag : string) : list piece :=
  [ Plain (LitI ("<" +:+ tag)); Plain (Plus true Space);
    Group (Star false (CharNotIn ">")); Plain (Lit ">");
    Group (Star false Any); Plain (LitI ("</" +:+ tag +:+ ">")) ].

(** [<tag[^>]*>([\s\S]*?)<\/tag>] under [gi]. *)
Definition block (tag : string) : list piece :=
  [ Plain (LitI ("<" +:+ tag)); Plain (Star true (CharNotIn ">")); Plain (Lit ">");
    Group (Star false Any); Plain (LitI ("</" +:+ tag +:+ ">")) ].

(** ** Headings *)

(** [/<(h[1-6])[^>]*>([\s\S]*?)<\/\1>/gi] *)
Definition headingPattern : list piece :=
  [ Plain (Lit "<"); Group (Cat (Chr (char_eqb_ci "h")) (Range "1" "6"));
    Plain (Star true (CharNotIn ">")); Plain (Lit ">");
    Group (Star false Any); Plain (Lit "</"); SameAs 0; Plain (Lit ">") ].

(** [parseInt(m[1][1])], where [m[1]] is the letter h and a digit from 1
    to 6: the digit. *)
Definition level_of (tag : string) : positive :=
  match tag with
  | String _ (String d _) => Pos.of_nat (code d - 48)
  | _ => 1%positive
  end.

Definition heading_of (m : hit) : option Heading :=
  let text := trim (stripTags (group m 1)) in
  match text with
  | EmptyString => None
  | _ => Some {| level := level_of (group m 0); h_text := text |}
  end.

Definition extractHeadings (html : string) : list Heading :=
  omap heading_of (exec_all headingPattern html).

(** ** Links *)

Section Links.

(** [new URL(href, baseUrl).href], or [None] when the constructor throws. *)
Variable resolve : string -> string -> option string.

(** The address an anchor stands for, when [extractLinks] does not pass
    it over: it has an [href] that is no fragment and no script, and the
    address resolves. *)
Definition anchor_target (baseUrl : string) (m : hit) : option string :=
  match attr (parseAttrs (group m 0)) "href" with
  | None => None
  | Some href =>
      if startsWith href "#" || startsWith href "javascript:" then None
      else resolve href baseUrl
  end.

Definition anchor_text (m : hit) : string := trim (stripTags (group m 1)).

(** One iteration of the loop of [extractLinks] over the anchors: the set
    [seen] and the links pushed so far. *)
Definition link_step (baseUrl : string) (st : gset string * list Link) (m : hit)
    : gset string * list Link :=
  match anchor_target baseUrl m with
  | None => st
  | Some resolved =>
      if decide (resolved ∈ st.1) then st
      else
        let seen := {[ resolved ]} ∪ st.1 in
        match anchor_text m with
        | EmptyString => (seen, st.2)
        | text => (seen, st.2 ++ [ {| l_text := slice0 120 text; href := resolved |} ])
        end
  end.

Definition links_of (baseUrl : string) (anchors : list hit) : list Link :=
  (fold_left (link_step baseUrl) anchors ((∅ : gset string), [])).2.

Definition extractLinks (html baseUrl : string) : list Link :=
  links_of baseUrl (exec_all (element "a") html).

(** A link stands for the first anchor of its address, and that anchor
    has a text. *)
Definition first_anchor (baseUrl : string) (anchors : list hit) (l : Link) : Prop :=
  exists i m,
    anchors !! i = Some m /\
    anchor_target baseUrl m = Some (href l) /\
    anchor_text m <> EmptyString /\
    l_text l = slice0 120 (anchor_text m) /\
    forall j m', j < i -> anchors !! j = Some m' ->
                 anchor_target baseUrl m' <> Some (href l).

(** The invariant of the loop of [extractLinks]: [seen] holds the
    addresses of the anchors met, the links are those of the first
    anchors, and no two links share an address. *)
Definition links_inv (baseUrl : string) (anchors : list hit)
    (st : gset string * list Link) : Prop :=
  (forall t, t ∈ st.1 <->
             exists i m, anchors !! i = Some m /\ anchor_target baseUrl m = Some t) /\
  (forall l, l ∈ st.2 <-> first_anchor baseUrl anchors l) /\
  NoDup (List.map href st.2).

End Links.

(** ** Forms *)

(** [/<input\s+([^>]*?)\/?>/gi] *)
Definition inputPattern : list piece :=
  [ Plain (LitI "<input"); Plain (Plus true Space);
    Group (Star false (CharNotIn ">")); Plain (Opt true (Lit "/")); Plain (Lit ">") ].

(** [/<textarea\s+([^>]*?)>/gi] *)
Definition textareaPattern : list piece :=
  [ Plain (LitI "<textarea"); Plain (Plus true Space);
    Group (Star false (CharNotIn ">")); Plain (Lit ">") ].

Definition input_of (m : hit) : option Field :=
  let ia := parseAttrs (group m 0) in
  if decide (ia !! "type" = Some "hidden") then None
  else Some {| tag := "input"; f_type := Some (default "text" (attr ia "type"));
               name := attr ia "name"; placeholder := attr ia "placeholder";
               required := includes (group m 0) "required"; options := [] |}.

Definition textarea_of (m : hit) : Field :=
  let ta := parseAttrs (group m 0) in
  {| tag := "textarea"; f_type := None; name := attr ta "name";
     placeholder := attr ta "placeholder";
     required := includes (group m 0) "required"; options := [] |}.

Definition select_of (m : hit) : Field :=
  let sa := parseAttrs (group m 0) in
  let opts := List.map (fun om => trim (stripTags (group om 0)))
                (exec_all (block "option") (group m 1)) in
  {| tag := "select"; f_type := None; name := attr sa "name"; placeholder := None;
     required := false; options := List.firstn 20 opts |}.

Definition form_of (m : hit) : Form :=
  let attrs := parseAttrs (group m 0) in
  let body := group m 1 in
  {| action := attr attrs "action";
     method := toUpperCase (default "GET" (attr attrs "method"));
     fields := omap input_of (exec_all inputPattern body)
               ++ List.map textarea_of (exec_all textareaPattern body)
               ++ List.map select_of (exec_all (element "select") body) |}.

Definition extractForms (html : string) : list Form :=
  List.map form_of (exec_all (element "form") html).

(** ** Tables *)

(** [/<t[dh][^>]*>([\s\S]*?)<\/t[dh]>/gi] *)
Definition cellPattern : list piece :=
  let dh := Chr (fun x => existsb (char_eqb_ci x) (list_ascii_of_string "dh")) in
  [ Plain (LitI "<t"); Plain dh; Plain (Star true (CharNotIn ">")); Plain (Lit ">");
    Group (Star false Any); Plain (LitI "</t"); Plain dh; Plain (Lit ">") ].

Definition row_of (m : hit) : option (list string) :=
  match List.map (fun cm => trim (stripTags (group cm 0)))
          (exec_all cellPattern (group m 0)) with
  | [] => None
  | cells => Some cells
  end.

Definition table_of (m : hit) : option (list (list string)) :=
  match omap row_of (exec_all (block "tr") (group m 0)) with
  | [] => None
  | rows => Some rows
  end.

Definition extractTables (html : string) : list (list (list string)) :=
  List.firstn 10 (omap table_of (exec_all (block "table") html)).

(** ** Text *)

Definition removed (tag : string) : regex :=
  Seq [LitI ("<" +:+ tag); Star false Any; LitI ("</" +:+ tag +:+ ">")].

(** [/<div[^>]*(?:class|id)=Q[^Q]*(?:content|main|article)[^Q]*Q[^>]*>([\s\S]*?)<\/div>/i],
    where [Q] stands for the class of the two quote characters. *)
Definition contentDiv : list piece :=
  [ Plain (LitI "<div"); Plain (Star true (CharNotIn ">"));
    Plain (Alt (LitI "class") (LitI "id")); Plain (Lit "="); Plain (CharIn quotes);
    Plain (Star true (CharNotIn quotes));
    Plain (OneOf [LitI "content"; LitI "main"; LitI "article"]);
    Plain (Star true (CharNotIn quotes)); Plain (CharIn quotes);
    Plain (Star true (CharNotIn ">")); Plain (Lit ">");
    Group (Star false Any); Plain (LitI "</div>") ].

Definition extractText (html : string) : string :=
  let clean := replace (removed "header") EmptyString
                 (replace (removed "footer") EmptyString
                    (replace (removed "nav") EmptyString
                       (replace (removed "style") EmptyString
                          (replace (removed "script") EmptyString html)))) in
  let mainMatch :=
    match exec (block "main") None clean with
    | Some m => Some m
    | None =>
        match exec (block "article") None clean with
        | Some m => Some m
        | None => exec contentDiv None clean
        end
    end in
  let clean := match mainMatch with Some m => group m 0 | None => clean end in
  slice0 5000 (decodeEntities (stripTags clean)).

(** The patterns the extractors run in a [while] loop over [exec]. *)
Definition looped_patterns : list (list piece) :=
  [ attrPattern; headingPattern; element "a"; element "form"; inputPattern;
    textareaPattern; element "select"; block "option"; block "table"; block "tr";
    cellPattern ].

End Extract.

(* ===================================================================== *)
(** * The formatted summary *)
(* ===================================================================== *)

Module Summary.

Import Page Chunker.

(** What [formatChunks] prints for the summary chunk of a page. *)
Definition summary_block (page : PageRecord) : string :=
  "[chunk:0] type=summary score=10" +:+ newline +:+ summaryText page.

End Summary.

(* ===================================================================== *)
(** * Worlds that differ in the browser *)
(* ===================================================================== *)

Module Worlds.

Import Page Orchestrator.

(** The world [w] with another outcome of the browser rendering. *)
Definition with_browser (w : World) (b : outcome PageRecord) : World :=
  {| t0 := t0 w; t_open := t_open w; t_get := t_get w; t_ms := t_ms w;
     t_set := t_set w; t_evict := t_evict w; fetched := fetched w;
     browser := b; lite_fetch := lite_fetch w |}.

End Worlds.

(* ===================================================================== *)
(** * A server-rendered page *)
(* ===================================================================== *)

Module Blog.

Import Page.

(** A page with a heading and two paragraphs, after the server-rendered
    page of the test suite. *)
Definition html : string :=
  "<html><body><h1>My Blog</h1>"
  +:+ "<p>Welcome to my blog. This is a long paragraph with lots of text content.</p>"
  +:+ "<p>Here is another paragraph talking about various topics.</p>"
  +:+ "</body></html>".

(** What the lite renderer makes of it: the document has no title, no
    meta element and no image, and the other properties are what the
    extractors return. *)
Definition page : PageRecord :=
  {| url := "https://blog.example/"; title := None; meta := [];
     headings := Extract.extractHeadings html;
     links := Extract.extractLinks (fun _ _ => None) html "https://blog.example/";
     forms := Extract.extractForms html; images := [];
     textContent := Extract.extractText html;
     tables := Extract.extractTables html;
     stats := {| headingCount := length (Extract.extractHeadings html);
                 linkCount := 0; formCount := 0; imageCount := Some 0;
                 tableCount := Some 0;
                 textLength := String.length (Extract.extractText html) |};
     httpStatus := Some 200%Z; contentType := Some "text/html"; renderer := Some "lite" |}.

End Blog.

(* ===================================================================== *)
(** * Properties *)
(* ===================================================================== *)

Example regex_lazy_example :
  matchAll (Seq [LitI "<b"; Star false Any; LitI "</b>"]) "x<b>1</b><B>22</b>y"
  = ["<b>1</b>"; "<B>22</b>"].
Proof. reflexivity. Qed.

Example regex_replace_example :
  replace (Plus true Space) " " "a  b   c" = "a b c".
Proof. reflexivity. Qed.

Example regex_split_example :
  split (Plus true Space) "install  c++ now" = ["install"; "c++"; "now"].
Proof. reflexivity. Qed.

Example decodeEntities_plain :
  decodeEntities "a &lt; b &amp;&amp; c&nbsp;&gt; d" = "a < b && c > d".
Proof. reflexivity. Qed.

Example decodeOnePass_plain :
  decodeOnePass "a &lt; b &amp;&amp; c&nbsp;&gt; d" = "a < b && c > d".
Proof. reflexivity. Qed.

Example stripTags_example :
  stripTags "<p>Hello,   <b>web</b> </p>" = "Hello, web".
Proof. reflexivity. Qed.

(* --------------------------------------------------------------------- *)
(** ** HTML primitives *)
(* --------------------------------------------------------------------- *)

(** C5. [decodeEntities] is not a one-pass decoder: its six replacements
    run one after the other, so the ampersand produced by the first is read
    again by the second. On the escaped entity of the less-than sign it
    returns the less-than sign, where the one-pass decoder of the
    specification returns the four characters of the entity. *)
Theorem decodeEntities_decodes_twice :
  decodeEntities "&amp;lt;" = "<" /\ decodeOnePass "&amp;lt;" = "&lt;".
Proof. split; reflexivity. Qed.

(* --------------------------------------------------------------------- *)
(** ** SPA detection *)
(* --------------------------------------------------------------------- *)

Section DetectionFacts.

Import Detect Signals.

(** The detection scenarios of the test suite. *)
Example detect_react_root :
  let q := String dquote EmptyString in
  let r := detectSPA ("<html><head></head><body><div id=" +:+ q +:+ "root" +:+ q
                      +:+ "></div><script src=" +:+ q +:+ "bundle.js" +:+ q
                      +:+ "></script></body></html>") in
  isSPA r = true /\ score r = 4%Z /\ reasons r = [Because "React root div (empty)"].
Proof. vm_compute. auto. Qed.

Example detect_angular :
  let q := String dquote EmptyString in
  let r := detectSPA ("<html><body><app-root></app-root><script src=" +:+ q
                      +:+ "main.js" +:+ q +:+ "></script></body></html>") in
  isSPA r = true /\ reasons r = [Because "Angular app-root"].
Proof. vm_compute. auto. Qed.

Example detect_blog :
  isSPA (detectSPA ("<html><body><h1>My Blog</h1>"
                    +:+ "<p>Welcome to my blog. This is a long paragraph with lots of text content.</p>"
                    +:+ "<p>Here is another paragraph talking about various topics.</p>"
                    +:+ "</body></html>")) = false.
Proof. vm_compute. reflexivity. Qed.

Lemma fold_spaSignals html sigs a :
  fold_left (fun a sig =>
               if test (pattern sig) html
               then push (Because (reason_of sig)) (weight sig) a else a) sigs a
  = apply_signals html (List.map of_pattern sigs) a.
Proof.
  revert a. induction sigs as [|s sigs IH]; intros a.
  - destruct a. unfold apply_signals. simpl. f_equal; [by rewrite app_nil_r | lia].
  - simpl. rewrite IH. unfold apply_signals. simpl.
    destruct (test (pattern s) html); simpl; f_equal; try lia.
    by rewrite <- app_assoc.
Qed.

Lemma weighted_sum_app ws1 bs1 ws2 bs2 :
  length ws1 = length bs1 ->
  weighted_sum (ws1 ++ ws2) (bs1 ++ bs2)
  = (weighted_sum ws1 bs1 + weighted_sum ws2 bs2)%Z.
Proof.
  revert bs1. induction ws1 as [|w ws1 IH]; intros [|b bs1] Hlen; simpl in *; try done.
  rewrite IH by lia. lia.
Qed.

(** The reasons are the descriptions of the positive signals that fire;
    the score is the sum of the weights of all the signals that fire. *)
Lemma detectSPA_acc html :
  reasons (detectSPA html)
  = List.map (fun s => describe s html) (List.filter (fun s => fires s html) positive_signals)
  /\ score (detectSPA html) = weighted_sum weights (outcomes html).
Proof.
  unfold detectSPA, weights, outcomes, positive_signals. cbn [reasons score].
  rewrite fold_spaSignals.
  rewrite List.filter_app, !List.map_app.
  rewrite !weighted_sum_app by (by rewrite ?length_app, !length_map).
  unfold apply_signals, measured_signals, ld_json_fires, very_low_text.
  cbn [acc_reasons acc_score List.map List.filter fires sig_weight describe weighted_sum app].
  destruct (textRatio_lt html 20 && (5000 <? htmlSize html)%Z);
  destruct (textRatio_lt html 10 && (10000 <? htmlSize html)%Z);
  destruct (scriptRatio_gt_half html);
  destruct (2 <=? skeletonHits html);
  destruct ((length (matchAll headingBlock html) =? 0)
            && (length (matchAll paragraphBlock html) <? 3)
            && (20000 <? htmlSize html)%Z);
  destruct (test metaReact html || test metaNext html);
  destruct (test ldJson html && textRatio_gt html 3 20);
  cbn [negb andb push acc_reasons acc_score List.map List.filter app];
  (split; [rewrite <- ?app_assoc, ?app_nil_r; reflexivity | lia]).
Qed.

(** Changing one outcome changes the sum by the weight at that place. *)
Lemma weighted_sum_insert ws bs i b :
  bs !! i = Some (negb b) ->
  weighted_sum ws (<[i:=b]> bs)
  = (weighted_sum ws bs + (if b then 1 else -1) * default 0 (ws !! i))%Z.
Proof.
  revert bs i. induction ws as [|w ws IH]; intros [|b0 bs] [|i] Hi; simpl in *; try done.
  - destruct b; lia.
  - destruct b; lia.
  - injection Hi as ->. destruct b; simpl; lia.
  - rewrite (IH bs i Hi). lia.
Qed.

Lemma positive_weights i w : i < 18 -> weights !! i = Some w -> (0 <= w)%Z.
Proof.
  intros Hi Hw.
  assert (Hall : Forall (fun w => 0 <= w)%Z (take 18 weights)).
  { vm_compute. repeat constructor; discriminate. }
  apply (Forall_lookup_1 _ _ i w Hall).
  by rewrite lookup_take_lt.
Qed.

(** C4 (amended). [isSPA] holds exactly when the score is at least 4, the
    confidence is [High] from 8, [Medium] from 4 to 7 and [Low] below, and
    [reasons] lists, in scan order, exactly the positively weighted signals
    that fire; the negative ld+json signal changes the score and adds no
    reason. *)
Theorem detectSPA_report (html : string) :
  let r := detectSPA html in
  (isSPA r = true <-> (4 <= score r)%Z) /\
  (confidence r = High <-> (8 <= score r)%Z) /\
  (confidence r = Medium <-> (4 <= score r < 8)%Z) /\
  (confidence r = Low <-> (score r < 4)%Z) /\
  reasons r = List.map (fun s => describe s html)
                (List.filter (fun s => fires s html) positive_signals) /\
  score r = weighted_sum weights (outcomes html).
Proof.
  destruct (detectSPA_acc html) as [Hr Hs].
  cbv zeta. rewrite <- Hs, <- Hr. clear Hr Hs.
  unfold detectSPA. cbn [isSPA score confidence reasons].
  match goal with |- context [acc_score ?a] => generalize (acc_score a) end.
  intros z.
  destruct (Z.leb_spec 8 z), (Z.leb_spec 4 z);
    repeat split; intros; try done; try lia.
Qed.

(** C4, as stated, fails: on this page the ld+json signal fires and takes 2
    off the score, yet no reason is listed for it. *)
Lemma detectSPA_unlisted_signal :
  let html := "application/ld+json" in
  ld_json_fires html = true /\
  fired_count html = 1 /\
  score (detectSPA html) = (-2)%Z /\
  reasons (detectSPA html) = [].
Proof. vm_compute. auto. Qed.

(** C7 (amended). Between two pages on which all the signals but one have
    the same outcome, the score does not decrease when that one signal is a
    positively weighted one that fires on the second page only, nor when
    it is the ld+json signal and fires on the first page only; in the
    second case the score rises by 2. *)
Theorem detection_monotone (html html' : string) (i : nat) (b : bool) :
  outcomes html !! i = Some (negb b) ->
  outcomes html' = <[i:=b]> (outcomes html) ->
  (b = true /\ i < 18) \/ (b = false /\ i = 18) ->
  (score (detectSPA html) <= score (detectSPA html'))%Z /\
  (i = 18 -> score (detectSPA html') = (score (detectSPA html) + 2)%Z).
Proof.
  intros Hi Hout Hcase.
  destruct (detectSPA_acc html) as [_ ->], (detectSPA_acc html') as [_ ->].
  rewrite Hout, (weighted_sum_insert _ _ _ _ Hi).
  destruct Hcase as [[-> Hlt] | [-> ->]].
  - split; [|lia].
    destruct (weights !! i) as [w|] eqn:Hw; simpl; [|lia].
    pose proof (positive_weights i w Hlt Hw). lia.
  - change (weights !! 18) with (Some (-2)%Z). simpl. lia.
Qed.

Lemma detection_monotone_witness :
  ((score (detectSPA "") <= score (detectSPA "<app-root>"))%Z /\
   (3 = 18 -> score (detectSPA "<app-root>") = (score (detectSPA "") + 2)%Z)) /\
  ((score (detectSPA "application/ld+json") <= score (detectSPA ""))%Z /\
   (18 = 18 -> score (detectSPA "") = (score (detectSPA "application/ld+json") + 2)%Z)).
Proof.
  split.
  - apply (detection_monotone "" "<app-root>" 3 true);
      [vm_compute; reflexivity | vm_compute; reflexivity | left; split; [reflexivity | lia]].
  - apply (detection_monotone "application/ld+json" "" 18 false);
      [vm_compute; reflexivity | vm_compute; reflexivity | right; split; reflexivity].
Defined.

(** C7, as stated, fails on both counts. Appending the token of the Nuxt
    signal to the first page makes that signal match, and the score drops
    from 2 to 0: the page is no longer script-heavy and its ld+json signal
    now fires. Removing the text that triggers the ld+json signal from the
    second page raises the score from -2 to 0. *)
Lemma detection_not_monotone :
  let h := "<script>123456789012</script><i application/ld+json>xxxxx" in
  (test (LitI "__nuxt") h = false /\
   test (LitI "__nuxt") (h +:+ "__nuxt") = true /\
   score (detectSPA h) = 2%Z /\
   score (detectSPA (h +:+ "__nuxt")) = 0%Z) /\
  (ld_json_fires "application/ld+json" = true /\
   ld_json_fires "" = false /\
   score (detectSPA "application/ld+json") = (-2)%Z /\
   score (detectSPA "") = 0%Z).
Proof. vm_compute. repeat split. Qed.

End DetectionFacts.

(* --------------------------------------------------------------------- *)
(** ** The page cache *)
(* --------------------------------------------------------------------- *)

Section CacheFacts.

Import Cache.

Lemma lookup_delete_all (ks : list key) (t : gmap key row) (k : key) :
  delete_all ks t !! k = if decide (k ∈ ks) then None else t !! k.
Proof.
  induction ks as [|a ks IH].
  - destruct (decide (k ∈ [])) as [H|]; [|done]. by apply elem_of_nil in H.
  - change (delete_all (a :: ks) t) with (delete a (delete_all ks t)).
    rewrite lookup_delete, IH.
    destruct (decide (a = k)) as [Heq|Hne].
    + rewrite decide_True; [done | rewrite Heq; by left].
    + destruct (decide (k ∈ ks)) as [Hin|Hnin].
      * rewrite decide_True; [done | by right].
      * rewrite decide_False; [done|]. intros [?|?]%elem_of_cons; congruence.
Qed.

Lemma size_delete_all (ks : list key) (t : gmap key row) :
  NoDup ks -> (forall k, k ∈ ks -> is_Some (t !! k)) ->
  size (delete_all ks t) = size t - length ks.
Proof.
  induction 1 as [|a ks Ha Hnd IH]; intros Hin; simpl.
  - lia.
  - rewrite map_size_delete_Some.
    + rewrite IH by (intros; apply Hin; by right). lia.
    + rewrite lookup_delete_all, decide_False by done. apply Hin. by left.
Qed.

#[local] Instance evict_le_trans (now : Z) : Transitive (evict_le now).
Proof. intros x y z. unfold evict_le, rank_le. lia. Qed.

#[local] Instance evict_le_total (now : Z) : Total (evict_le now).
Proof. intros x y. unfold evict_le, rank_le. lia. Qed.

(** The victims are a prefix of the table in eviction order: with the
    rows that stay they make up the table, and each of them comes no later
    in the order than each row that stays. *)
Lemma victims_sorted (now : Z) (n : nat) (t : gmap key row) :
  exists rest,
    victims now n t ++ rest ≡ₚ map_to_list t /\
    forall x y, x ∈ victims now n t -> y ∈ rest -> evict_le now x y.
Proof.
  exists (drop n (merge_sort (evict_le now) (map_to_list t))). unfold victims. split.
  - rewrite take_drop. apply merge_sort_Permutation.
  - intros x y Hx Hy.
    eapply (StronglySorted_app_1_elem_of (evict_le now)); [|exact Hx|exact Hy].
    rewrite take_drop. apply StronglySorted_merge_sort; apply _.
Qed.

Lemma victims_length (now : Z) (n : nat) (t : gmap key row) :
  n <= size t -> length (victims now n t) = n.
Proof.
  intros Hn. unfold victims. rewrite length_take.
  rewrite (Permutation_length (merge_sort_Permutation _ _)), length_map_to_list. lia.
Qed.

Lemma victims_NoDup (now : Z) (n : nat) (t : gmap key row) : NoDup (victims now n t).*1.
Proof.
  destruct (victims_sorted now n t) as (rest & Hperm & _).
  pose proof (NoDup_fst_map_to_list t) as Hnd.
  rewrite <- Hperm, fmap_app in Hnd. by apply NoDup_app in Hnd as [? _].
Qed.

Lemma victims_in (now : Z) (n : nat) (t : gmap key row) k r :
  (k, r) ∈ victims now n t -> t !! k = Some r.
Proof.
  destruct (victims_sorted now n t) as (rest & Hperm & _).
  intros Hin. apply elem_of_map_to_list. rewrite <- Hperm.
  apply elem_of_app. by left.
Qed.

Lemma evict_size (now : Z) (c : PageCache) :
  size (db (_evictIfNeeded now c)) = Nat.min (size (db c)) (maxEntries c).
Proof.
  unfold _evictIfNeeded. destruct (Nat.leb_spec (size (db c)) (maxEntries c)) as [Hle|Hgt].
  - lia.
  - cbn [db with_db]. rewrite size_delete_all.
    + rewrite length_fmap, victims_length by lia. lia.
    + apply victims_NoDup.
    + intros k [[k' r] [-> Hin]]%list_elem_of_fmap. simpl.
      rewrite (victims_in _ _ _ _ _ Hin). by eexists.
Qed.

Lemma evict_order (now : Z) (c : PageCache) (k k' : key) (r r' : row) :
  db c !! k = Some r ->
  db (_evictIfNeeded now c) !! k = None ->
  db (_evictIfNeeded now c) !! k' = Some r' ->
  evict_le now (k, r) (k', r').
Proof.
  unfold _evictIfNeeded. destruct (size (db c) <=? maxEntries c); [congruence|].
  cbn [db with_db]. rewrite !lookup_delete_all.
  set (n := size (db c) - maxEntries c).
  destruct (decide (k ∈ _)) as [Hk|Hk]; [|congruence].
  destruct (decide (k' ∈ _)) as [Hk'|Hk']; [congruence|].
  intros Hr _ Hr'.
  destruct (victims_sorted now n (db c)) as (rest & Hperm & Hord).
  apply Hord.
  - apply list_elem_of_fmap in Hk as [[k0 r0] [-> Hin]]. simpl in *.
    pose proof (victims_in _ _ _ _ _ Hin). by simplify_eq.
  - apply elem_of_map_to_list in Hr'. rewrite <- Hperm in Hr'.
    apply elem_of_app in Hr' as [Hin|Hin]; [|done].
    exfalso. apply Hk'. apply list_elem_of_fmap. by exists (k', r').
Qed.

Lemma evict_subseteq (now : Z) (c : PageCache) : db (_evictIfNeeded now c) ⊆ db c.
Proof.
  unfold _evictIfNeeded. destruct (size (db c) <=? maxEntries c); [done|].
  cbn [db with_db]. apply map_subseteq_spec. intros k r.
  rewrite lookup_delete_all. by destruct (decide _).
Qed.

Lemma evict_maxEntries (now : Z) (c : PageCache) :
  maxEntries (_evictIfNeeded now c) = maxEntries c.
Proof. unfold _evictIfNeeded. by destruct (_ <=? _). Qed.

Context {R : Type}.
Variable backend_of : R -> option string.
Variable serialize : R -> string.
Variable JSON_parse : string -> option R.

Lemma set_maxEntries now now' url query (result : R) ttl c :
  maxEntries (set backend_of serialize now now' url query result ttl c) = maxEntries c.
Proof. unfold set. by rewrite evict_maxEntries. Qed.

Lemma set_size now now' url query (result : R) ttl c :
  size (db (set backend_of serialize now now' url query result ttl c)) <= maxEntries c.
Proof. unfold set. rewrite evict_size. cbn [maxEntries upsert with_db]. lia. Qed.

Lemma run_sets_size (calls : list (set_call (R:=R))) c :
  calls <> [] \/ size (db c) <= maxEntries c ->
  size (db (run_sets backend_of serialize calls c)) <= maxEntries c.
Proof.
  revert c. induction calls as [|s calls IH]; intros c Hc.
  - simpl. destruct Hc; [done | lia].
  - change (run_sets backend_of serialize (s :: calls) c)
      with (run_sets backend_of serialize calls (run_set backend_of serialize c s)).
    etrans; [apply IH|].
    + right. unfold run_set. rewrite set_maxEntries. apply set_size.
    + unfold run_set. by rewrite set_maxEntries.
Qed.

(** C2. [get] returns null and leaves the cache alone when no row has the
    key. When the row has expired it deletes the row and returns null, and
    every later [get] of the key returns null too. Otherwise it returns
    the parsed [result_json] and leaves the row with [hit_count] one
    higher and [last_hit] set to the time of the call. *)
Theorem get_semantics (now : Z) (url query : string) (c : PageCache) :
  let v := (get JSON_parse now url query c).1 in
  let c' := (get JSON_parse now url query c).2 in
  (db c !! (url, query) = None -> v = None /\ c' = c) /\
  (forall r, db c !! (url, query) = Some r -> (expires_at r < now)%Z ->
     v = None /\ db c' = delete (url, query) (db c) /\
     forall now', get JSON_parse now' url query c' = (None, c')) /\
  (forall r, db c !! (url, query) = Some r -> ~ (expires_at r < now)%Z ->
     v = JSON_parse (result_json r) /\
     db c' = <[(url, query) := hit now r]> (db c) /\
     hit_count (hit now r) = (hit_count r + 1)%Z /\
     last_hit (hit now r) = now).
Proof.
  cbv zeta. unfold get. split; [|split].
  - intros Hnone. by rewrite Hnone.
  - intros r Hr Hexp. rewrite Hr.
    destruct (Z.ltb_spec (expires_at r) now); [|lia].
    cbn [fst snd db with_db]. split; [done|]. split; [done|].
    intros now'. by rewrite lookup_delete_eq.
  - intros r Hr Hlive. rewrite Hr.
    by destruct (Z.ltb_spec (expires_at r) now); [lia|].
Qed.

(** C3. [set] is the upsert followed by the eviction. The eviction does
    nothing when the row count is within [maxEntries]; otherwise it deletes
    exactly the excess, and a row it deletes comes no later than a row it
    keeps in the order of the statement: it has expired if the kept row
    has, and between two rows that both have or both have not expired it
    has the smaller or an equal [last_hit]. So after a [set], and after any
    sequence of [set] calls, [stats().entries] is at most [maxEntries],
    which is 500 when the option is absent. *)
Theorem set_eviction (now now' t : Z) (url query : string) (result : R)
    (ttl : option Z) (c : PageCache) (calls : list (set_call (R:=R))) :
  let c1 := upsert backend_of serialize now url query result ttl c in
  let c2 := set backend_of serialize now now' url query result ttl c in
  c2 = _evictIfNeeded now' c1 /\
  (size (db c1) <= maxEntries c -> c2 = c1) /\
  (maxEntries c < size (db c1) ->
     size (db c2) + (size (db c1) - maxEntries c) = size (db c1) /\
     size (db c2) = maxEntries c) /\
  db c2 ⊆ db c1 /\
  (forall k r k' r',
     db c1 !! k = Some r -> db c2 !! k = None -> db c2 !! k' = Some r' ->
     (expired now' r' = true -> expired now' r = true) /\
     (expired now' r = expired now' r' -> (last_hit r <= last_hit r')%Z)) /\
  entries (stats t c2) <= maxEntries c /\
  (calls <> [] ->
   entries (stats t (run_sets backend_of serialize calls c)) <= maxEntries c) /\
  maxEntries (open ttl None (db c)) = 500.
Proof.
  cbv zeta. unfold set.
  set (c1 := upsert backend_of serialize now url query result ttl c).
  assert (Hmax : maxEntries c1 = maxEntries c) by done.
  pose proof (evict_size now' c1) as Hsize. rewrite Hmax in Hsize.
  split; [done|]. split; [|split; [|split; [|split; [|split; [|split]]]]].
  - intros Hle. unfold _evictIfNeeded. rewrite Hmax.
    by destruct (Nat.leb_spec (size (db c1)) (maxEntries c)); [|lia].
  - intros Hgt. lia.
  - apply evict_subseteq.
  - intros k r k' r' Hr Hgone Hkept.
    pose proof (evict_order now' c1 k k' r r' Hr Hgone Hkept) as Hle.
    unfold evict_le, rank_le, evict_rank in Hle. cbn [fst snd] in Hle.
    destruct (expired now' r), (expired now' r'); split; intros; try done; lia.
  - cbn [entries stats]. lia.
  - intros Hne. cbn [entries stats]. apply run_sets_size. by left.
  - reflexivity.
Qed.

End CacheFacts.

Lemma get_semantics_witness :
  let get := Cache.get (fun s : string => Some s) in
  ((get 5%Z "https://b.example" "" Samples.cache_a).1 = None /\
   (get 5%Z "https://b.example" "" Samples.cache_a).2 = Samples.cache_a) /\
  ((get 20%Z "https://a.example" "" Samples.cache_a).1 = None /\
   Cache.db (get 20%Z "https://a.example" "" Samples.cache_a).2
   = delete ("https://a.example", "") (Cache.db Samples.cache_a) /\
   forall now',
     get now' "https://a.example" "" (get 20%Z "https://a.example" "" Samples.cache_a).2
     = (None, (get 20%Z "https://a.example" "" Samples.cache_a).2)) /\
  ((get 5%Z "https://a.example" "" Samples.cache_a).1 = Some "{}" /\
   Cache.db (get 5%Z "https://a.example" "" Samples.cache_a).2
   = <[("https://a.example", "") := Cache.hit 5 Samples.row_a]> (Cache.db Samples.cache_a) /\
   Cache.hit_count (Cache.hit 5 Samples.row_a) = 1%Z /\
   Cache.last_hit (Cache.hit 5 Samples.row_a) = 5%Z).
Proof.
  cbv zeta. split; [|split].
  - apply (get_semantics (fun s : string => Some s) 5 "https://b.example" "" Samples.cache_a).
    vm_compute. reflexivity.
  - apply (get_semantics (fun s : string => Some s) 20 "https://a.example" "" Samples.cache_a)
      with (r := Samples.row_a).
    + vm_compute. reflexivity.
    + simpl. lia.
  - apply (get_semantics (fun s : string => Some s) 5 "https://a.example" "" Samples.cache_a)
      with (r := Samples.row_a).
    + vm_compute. reflexivity.
    + simpl. lia.
Defined.

Lemma set_eviction_witness :
  let backend_of := fun _ : string => Some "lite" in
  let serialize := fun s : string => s in
  let c1 := Cache.upsert backend_of serialize 3 "https://b.example" "" "{}" None Samples.cache_a in
  let c2 := Cache.set backend_of serialize 3 4 "https://b.example" "" "{}" None Samples.cache_a in
  (size (Cache.db c2) + (size (Cache.db c1) - 1) = size (Cache.db c1) /\
   size (Cache.db c2) = 1) /\
  Cache.entries (Cache.stats 9
    (Cache.run_sets backend_of serialize [Samples.call_b] Samples.cache_a)) <= 1.
Proof.
  cbv zeta.
  pose proof (set_eviction (fun _ : string => Some "lite") (fun s : string => s)
                3 4 9 "https://b.example" "" "{}" None Samples.cache_a [Samples.call_b])
    as (_ & _ & Hover & _ & _ & _ & Hseq & _).
  split.
  - apply Hover. vm_compute. lia.
  - apply Hseq. discriminate.
Defined.

(* --------------------------------------------------------------------- *)
(** ** Query ranking *)
(* --------------------------------------------------------------------- *)

Section ChunkerFacts.

Import Page Chunker Ranking Notions.

Lemma string_app_cons (c : ascii) (a b : string) : String c a +:+ b = String c (a +:+ b).
Proof. reflexivity. Qed.

Lemma string_app_nil_r (a : string) : a +:+ "" = a.
Proof. induction a as [|x a IH]; [done|]. by rewrite string_app_cons, IH. Qed.

Lemma string_app_assoc (a b c : string) : (a +:+ b) +:+ c = a +:+ (b +:+ c).
Proof. induction a as [|x a IH]; [done|]. by rewrite !string_app_cons, IH. Qed.

Lemma plain_char_inv (c : ascii) :
  plain_char c = true ->
  RegExp.unmodelled_char c = false /\ RegExp.is_quantifier c = false /\
  char_eqb c "^" = false /\ char_eqb c "$" = false /\
  char_eqb c "." = false /\ char_eqb c "|" = false.
Proof.
  unfold plain_char, RegExp.unmodelled_char, RegExp.is_quantifier, syntax_chars.
  cbn [existsb list_ascii_of_string]. intros H%negb_true_iff.
  repeat (apply orb_false_elim in H as [? H]).
  repeat match goal with Heq : char_eqb _ _ = false |- _ => rewrite Heq; clear Heq end.
  done.
Qed.

Lemma alternative_plain (w : string) (fuel : nat) :
  String.length w < fuel -> plain w = true ->
  RegExp.alternative fuel w = Some (Lit w).
Proof.
  revert w. induction fuel as [|fuel IH]; intros w Hlen Hp; [lia|].
  destruct w as [|c w]; [done|].
  simpl in Hp. apply andb_true_iff in Hp as [Hc Hw].
  destruct (plain_char_inv c Hc) as (_ & Hq & Hb & He & Hd & _).
  cbn [RegExp.alternative]. rewrite Hq, Hb, He, Hd.
  destruct w as [|q w]; [done|].
  pose proof Hw as Hw'. simpl in Hw'. apply andb_true_iff in Hw' as [Hcq _].
  destruct (plain_char_inv q Hcq) as (_ & -> & _).
  rewrite IH; [done | simpl in *; lia | done].
Qed.

Lemma split_bars_plain (w acc : string) :
  plain w = true -> RegExp.split_bars acc w = [acc +:+ w].
Proof.
  revert acc. induction w as [|c w IH]; intros acc Hp; simpl.
  - by rewrite string_app_nil_r.
  - simpl in Hp. apply andb_true_iff in Hp as [Hc Hw].
    destruct (plain_char_inv c Hc) as (_ & _ & _ & _ & _ & ->).
    rewrite IH by done. by rewrite string_app_assoc.
Qed.

Lemma plain_no_unmodelled (w : string) :
  plain w = true -> existsb RegExp.unmodelled_char (list_ascii_of_string w) = false.
Proof.
  induction w as [|c w IH]; [done|]. simpl. intros [Hc Hw]%andb_true_iff.
  destruct (plain_char_inv c Hc) as (-> & _). by rewrite IH.
Qed.

(** A plain word compiles to the pattern that matches it literally. *)
Lemma compile_plain (w : string) :
  plain w = true -> RegExp.compile w = Returned (Lit w).
Proof.
  intros Hp. unfold RegExp.compile.
  rewrite plain_no_unmodelled, split_bars_plain by done.
  cbn [RegExp.disjunction String.append]. by rewrite alternative_plain by (done || lia).
Qed.

Lemma add_matches_plain (txt : string) (words : list string) (rel : Z) :
  forallb plain words = true ->
  add_matches txt words rel
  = Returned (rel + 2 * Z.of_nat (total_occurrences words txt))%Z.
Proof.
  revert rel. induction words as [|w words IH]; intros rel Hp; simpl.
  - f_equal. lia.
  - simpl in Hp. apply andb_true_iff in Hp as [Hw Hws].
    rewrite compile_plain by done. simpl. rewrite IH by done.
    f_equal. unfold occurrences. lia.
Qed.

Lemma map_outcome_returned {A B : Type} (f : A -> outcome B) (g : A -> B) (l : list A) :
  (forall a, f a = Returned (g a)) -> map_outcome f l = Returned (List.map g l).
Proof.
  intros Hf. induction l as [|a l IH]; simpl; [done|]. by rewrite Hf, IH.
Qed.

(** On a query of plain words [findRelevant] returns, and ranks by the
    relevance of the specification. *)
Lemma findRelevant_plain (cs : list Chunk) (query : string) (limit : nat) :
  forallb plain (queryWords query) = true ->
  findRelevant cs query limit
  = Returned (List.firstn limit
      (sort_desc relevance_key
         (List.map (fun c => with_relevance c (relevance_spec (queryWords query) c)) cs))).
Proof.
  intros Hp. unfold findRelevant.
  rewrite (map_outcome_returned _
             (fun c => with_relevance c (relevance_spec (queryWords query) c))); [done|].
  intros c. by rewrite add_matches_plain.
Qed.

(** [sort_desc] orders by key, largest first, and keeps the elements. *)
Lemma insert_desc_perm {A : Type} (key : A -> Z) (x : A) (l : list A) :
  insert_desc key x l ≡ₚ x :: l.
Proof.
  induction l as [|y l IH]; simpl; [done|].
  destruct (key x <? key y)%Z; [|done]. rewrite IH. apply Permutation_swap.
Qed.

Lemma sort_desc_perm {A : Type} (key : A -> Z) (l : list A) : sort_desc key l ≡ₚ l.
Proof.
  induction l as [|x l IH]; simpl; [done|].
  unfold sort_desc in *. simpl. by rewrite insert_desc_perm, IH.
Qed.

Lemma insert_desc_sorted {A : Type} (key : A -> Z) (x : A) (l : list A) :
  StronglySorted (desc key) l -> StronglySorted (desc key) (insert_desc key x l).
Proof.
  induction 1 as [|y l Hs IH Hall]; simpl; [repeat constructor|].
  destruct (Z.ltb_spec (key x) (key y)).
  - constructor; [done|]. rewrite insert_desc_perm. constructor; [unfold desc; lia | done].
  - constructor; [by constructor|]. constructor; [unfold desc; lia|].
    eapply Forall_impl; [exact Hall|]. unfold desc. intros; simpl in *; lia.
Qed.

Lemma sort_desc_sorted {A : Type} (key : A -> Z) (l : list A) :
  StronglySorted (desc key) (sort_desc key l).
Proof.
  induction l as [|x l IH]; [constructor|]. by apply insert_desc_sorted.
Qed.

Lemma sorted_take {A : Type} (R : relation A) (n : nat) (l : list A) :
  StronglySorted R l -> StronglySorted R (take n l).
Proof.
  intros Hs. rewrite <- (take_drop n l) in Hs. by apply StronglySorted_app_1_l in Hs.
Qed.

Lemma sorted_lookup {A : Type} (key : A -> Z) (l : list A) (i j : nat) (a b : A) :
  StronglySorted (desc key) l ->
  l !! i = Some a -> l !! j = Some b -> (key b < key a)%Z -> i < j.
Proof.
  intros Hs. revert i j. induction Hs as [|x l Hs IH Hall]; intros i j Hi Hj Hlt; [done|].
  destruct i as [|i], j as [|j]; simpl in *.
  - simplify_eq. lia.
  - lia.
  - simplify_eq. rewrite Forall_lookup in Hall. specialize (Hall _ _ Hi). unfold desc in Hall. lia.
  - pose proof (IH i j Hi Hj Hlt). lia.
Qed.


(** On a query of plain words, of two returned chunks with the same score
    the one with more occurrences of the query words comes first. *)
Lemma findRelevant_plain_ranking (cs : list Chunk) (query : string) (limit : nat) :
  forallb plain (queryWords query) = true ->
  exists out,
    findRelevant cs query limit = Returned out /\
    forall i j a b,
      out !! i = Some a -> out !! j = Some b ->
      c_score a = c_score b ->
      total_occurrences (queryWords query) (toLowerCase (text b))
      < total_occurrences (queryWords query) (toLowerCase (text a)) ->
      i < j.
Proof.
  intros Hp. eexists. split; [by apply findRelevant_plain|].
  set (words := queryWords query).
  set (scored := List.map (fun c => with_relevance c (relevance_spec words c)) cs).
  assert (Hkey : forall c, c ∈ take limit (sort_desc relevance_key scored) ->
                           relevance_key c = relevance_spec words c).
  { intros c (k & Hc%list_elem_of_lookup_2 & _)%elem_of_take. rewrite sort_desc_perm in Hc.
    apply list_elem_of_fmap in Hc as (c0 & -> & _). done. }
  intros i j a b Hi Hj Hscore Hocc.
  apply (sorted_lookup relevance_key (take limit (sort_desc relevance_key scored)) i j a b);
    [| done | done |].
  - apply sorted_take, sort_desc_sorted.
  - rewrite !Hkey by (by eapply list_elem_of_lookup_2).
    unfold relevance_spec. lia.
Qed.

(** C9. [findRelevant] compiles each kept word of the query as a pattern.
    The word of the query c++ is kept, it is not a pattern, and on any
    non-empty chunk list the call throws the SyntaxError of [new RegExp]
    instead of returning a ranking. *)
Theorem findRelevant_throws (c : Chunk) (cs : list Chunk) (limit : nat) :
  queryWords "c++" = ["c++"] /\
  RegExp.compile "c++" = Threw "SyntaxError" /\
  findRelevant (c :: cs) "c++" limit = Threw "SyntaxError".
Proof.
  split; [reflexivity|]. split; [reflexivity|].
  unfold findRelevant. change (queryWords "c++") with ["c++"].
  reflexivity.
Qed.

(** C6. [findRelevant] counts the matches of each word read as a pattern,
    not the occurrences of the word: the text abc holds no occurrence of
    the word a.c, and the chunk comes back with relevance 2 where the
    specification gives 0. *)
Theorem findRelevant_counts_pattern_matches :
  queryWords "a.c" = ["a.c"] /\
  total_occurrences ["a.c"] (toLowerCase (text Samples.chunk_abc)) = 0 /\
  relevance_spec ["a.c"] Samples.chunk_abc = 0%Z /\
  findRelevant [Samples.chunk_abc] "a.c" 5
  = Returned [with_relevance Samples.chunk_abc 2].
Proof. vm_compute. auto. Qed.

End ChunkerFacts.

(* --------------------------------------------------------------------- *)
(** ** The paragraph loop of [chunkPage] *)
(* --------------------------------------------------------------------- *)

Section ChunkPageFacts.

Import Page Chunker Notions.

Lemma extends_refl st : extends st st.
Proof. split; [done|]. exists []. by rewrite app_nil_r. Qed.

Lemma extends_trans st1 st2 st3 : extends st1 st2 -> extends st2 st3 -> extends st1 st3.
Proof.
  intros [H1 (n1 & Hc1 & Hf1)] [H2 (n2 & Hc2 & Hf2)]. split; [congruence|].
  exists (n1 ++ n2). split; [by rewrite Hc2, Hc1, app_assoc|].
  apply Forall_app. split; [done|]. by rewrite <- H1.
Qed.

Lemma extends_emit st ty txt score m : extends st (emit st ty txt score m).
Proof. split; [done|]. eexists. split; [done|]. by repeat constructor. Qed.

Lemma startsWith_refl (s : string) : startsWith s s = true.
Proof.
  induction s as [|c s IH]; [done|]. simpl. unfold char_eqb. by rewrite Ascii.eqb_refl.
Qed.

Lemma findIndex_Some {A : Type} (p : A -> bool) (l : list A) (i : nat) :
  findIndex p l = Some i <->
  (exists x, l !! i = Some x /\ p x = true) /\
  (forall j y, j < i -> l !! j = Some y -> p y = false).
Proof.
  revert i. induction l as [|x l IH]; intros i; simpl.
  - split; [done|]. by intros [(y & Hy & _) _].
  - destruct (p x) eqn:Hx.
    + split.
      * intros [= <-]. split; [by exists x|]. intros; lia.
      * intros [(y & Hy & Hpy) Hmin]. destruct i as [|i]; [done|].
        specialize (Hmin 0 x). simpl in Hmin. rewrite Hmin in Hx; [done | lia | done].
    + rewrite fmap_Some. split.
      * intros (k & Hk & ->). apply IH in Hk as [Hex Hmin]. split; [done|].
        intros [|j] y Hj; simpl; [congruence|]. apply Hmin. lia.
      * intros [(y & Hy & Hpy) Hmin]. destruct i as [|i]; simpl in *; [congruence|].
        exists i. split; [|done]. apply IH. split; [by exists y|].
        intros j z Hj Hz. apply (Hmin (S j) z); [lia | done].
Qed.

Lemma sentence_step_extends maxSize minScore score st g sentence :
  extends st (g_loop g) ->
  extends st (g_loop (sentence_step maxSize minScore score g sentence)).
Proof.
  intros Hg. unfold sentence_step.
  destruct (_ && _); cbn [g_loop]; [|done].
  destruct (_ <=? _)%Z; [|done].
  eapply extends_trans; [exact Hg | apply extends_emit].
Qed.

Lemma sentences_extend maxSize minScore score st sentences g :
  extends st (g_loop g) ->
  extends st (g_loop (fold_left (sentence_step maxSize minScore score) sentences g)).
Proof.
  revert g. induction sentences as [|s sentences IH]; intros g Hg; [done|].
  simpl. apply IH. by apply sentence_step_extends.
Qed.

Lemma para_step_extends page maxSize minScore nav st para :
  headingMatch page para = None ->
  extends st (para_step page maxSize minScore nav st para).
Proof.
  intros Hm. unfold para_step. rewrite Hm.
  destruct (negb nav && _); [apply extends_refl|].
  destruct (maxSize <? _).
  - destruct (_ && _).
    + eapply extends_trans; [|apply extends_emit].
      apply sentences_extend, extends_refl.
    + apply sentences_extend, extends_refl.
  - destruct (_ <=? _)%Z; [apply extends_emit | apply extends_refl].
Qed.

Lemma paragraphs_extend page maxSize minScore nav paras st :
  Forall (fun p => headingMatch page p = None) paras ->
  extends st (fold_left (para_step page maxSize minScore nav) paras st).
Proof.
  intros Hall. revert st. induction Hall as [|p paras Hp _ IH]; intros st.
  - apply extends_refl.
  - simpl. eapply extends_trans; [by apply para_step_extends | apply IH].
Qed.

(** The heading test as the loop makes it: a paragraph is skipped when,
    lowercased and trimmed, it starts with a heading text, lowercased and
    trimmed: the first such heading becomes the current section, no chunk
    is emitted and no id is used. A paragraph that matches no heading leaves the section as it
    is, and every chunk it emits carries that section; so the chunks of
    the paragraphs that follow a skipped one carry its heading, up to the
    next paragraph that is skipped. *)
Lemma para_step_heading page maxSize minScore nav st para :
  let st' := para_step page maxSize minScore nav st para in
  let starts (h : Heading) :=
    startsWith (trim (toLowerCase para)) (trim (toLowerCase (h_text h))) in
  (forall i, headingMatch page para = Some i <->
     (exists h, headings page !! i = Some h /\ starts h = true) /\
     (forall j h, j < i -> headings page !! j = Some h -> starts h = false)) /\
  (forall i h, headingMatch page para = Some i -> headings page !! i = Some h ->
     chunks st' = chunks st /\ chunkId st' = chunkId st /\
     currentSection st' = Some (h_text h)) /\
  (headingMatch page para = None -> extends st st') /\
  (forall later,
     Forall (fun p => headingMatch page p = None) later ->
     extends st' (fold_left (para_step page maxSize minScore nav) later st')).
Proof.
  cbv zeta. split; [|split; [|split]].
  - intros i. unfold headingMatch, headingTexts. rewrite findIndex_Some.
    assert (Heq : forall a b, String.eqb a b || startsWith a b = startsWith a b).
    { intros a b. destruct (String.eqb_spec a b) as [->|]; [|done].
      by rewrite startsWith_refl. }
    split.
    + intros [(x & Hx & Hpx) Hmin]. rewrite list_lookup_fmap in Hx.
      destruct (headings page !! i) as [h|] eqn:Hh; [|done]. simpl in Hx. simplify_eq.
      split; [exists h; by rewrite <- Heq|].
      intros j h' Hj Hh'. rewrite <- Heq. apply (Hmin j _ Hj).
      by rewrite list_lookup_fmap, Hh'.
    + intros [(h & Hh & Hs) Hmin]. split.
      * eexists. rewrite list_lookup_fmap, Hh. split; [done|]. by rewrite Heq.
      * intros j y Hj Hy. rewrite list_lookup_fmap in Hy.
        destruct (headings page !! j) as [h'|] eqn:Hh'; [|done]. simpl in Hy. simplify_eq.
        rewrite Heq. by apply (Hmin j).
  - intros i h Hm Hh. unfold para_step. rewrite Hm. cbn. by rewrite Hh.
  - apply para_step_extends.
  - intros later. apply paragraphs_extend.
Qed.

End ChunkPageFacts.

(* --------------------------------------------------------------------- *)
(** ** The lite renderer *)
(* --------------------------------------------------------------------- *)

Section LiteFacts.

Import Page Lite.

Variable parseHTML : string -> string -> PageRecord.

(** A non-empty [_rawHtml] takes the first branch. *)
Lemma renderLite_truthy (url html : string) (net : outcome Response) :
  html <> EmptyString ->
  renderLite parseHTML url (Some html) net
  = Returned (with_http (parseHTML html url) 200 (Some "text/html")).
Proof. intros Hne. by destruct html. Qed.


End LiteFacts.



(* --------------------------------------------------------------------- *)
(** ** The orchestrator *)
(* --------------------------------------------------------------------- *)

Section RenderFacts.

Import Page Chunker Lite Orchestrator Notions.

Variable parseHTML : string -> string -> PageRecord.
Variable serialize : RenderResult -> string.
Variable JSON_parse : string -> option RenderResult.

(** Without a query [buildResult] returns a result with the tag it is
    given. *)
Lemma buildResult_plain url tag d page q limit elapsed :
  truthy q = false ->
  exists r, buildResult url tag d page q limit elapsed = Returned r /\
            backend r = tag /\ error r = None /\ cached r = false /\ data r = Some page.
Proof.
  intros Hq. unfold buildResult.
  destruct q as [[|c q]|]; try done; eexists; (split; [done|]); done.
Qed.

Lemma uses_browser_tag (o : Options) (rawHtml : string) :
  uses_browser o rawHtml ->
  match force o with
  | Some (String _ _ as how) => String.eqb how "lite"
  | _ => negb (Detect.isSPA (Detect.detectSPA rawHtml))
  end = false.
Proof.
  intros [[Hf Hne] | [Hf Hspa]].
  - destruct (force o) as [[|c s]|]; try done.
    destruct (String.eqb_spec (String c s) "lite"); [congruence | done].
  - destruct (force o) as [[|c s]|]; try done; by rewrite Hspa.
Qed.

(** When the backend chosen first returns a page, the result is stored
    under [(url, query ?? "")], for 5 minutes when that backend is the
    browser and 10 minutes otherwise, unless [cacheTtlMs] says otherwise. *)
Lemma render_stores_result (w : World) (url : string) (o : Options)
    (st : CacheState) (f : Fetched) (page : PageRecord) :
  noCache o = false ->
  truthy (query o) = false ->
  (cache_lookup JSON_parse w url o st).1 = None ->
  fetched w = Returned f ->
  (if decide (uses_browser o (html f))
   then browser w
   else renderLite parseHTML url (Some (html f)) (lite_fetch w)) = Returned page ->
  let tag := if decide (uses_browser o (html f)) then "playwright" else "lite" in
  exists r,
    render parseHTML serialize JSON_parse w url o st
    = Returned (r, Opened (cache_set serialize (t_set w) (t_evict w) url
                             (default EmptyString (query o)) r
                             (Some (store_ttl o tag))
                             (cache_lookup JSON_parse w url o st).2)) /\
    backend r = tag /\ data r = Some page.
Proof.
  intros Hnc Hq Hmiss Hf Hpage tag.
  unfold render. fold (cache_lookup JSON_parse w url o st).
  destruct (cache_lookup JSON_parse w url o st) as [hit c] eqn:Hl. simpl in Hmiss. subst hit.
  rewrite Hf, Hnc. subst tag.
  destruct (decide (uses_browser o (html f))) as [Hb|Hb].
  - rewrite (uses_browser_tag o (html f) Hb), Hpage.
    destruct (buildResult_plain url "playwright" (Detect.detectSPA (html f)) page
                (query o) (default 8 (chunkLimit o)) (t_ms w - t0 w)%Z Hq)
      as (r & -> & Hb' & _ & _ & Hd).
    exists r. cbn [bind]. rewrite Hb'. done.
  - assert (Hlite : match force o with
                    | Some (String _ _ as how) => String.eqb how "lite"
                    | _ => negb (Detect.isSPA (Detect.detectSPA (html f)))
                    end = true).
    { unfold uses_browser in Hb.
      destruct (force o) as [[|a s]|] eqn:Hforce; cbn [truthy] in Hb.
      - destruct (Detect.isSPA _); [|done]. exfalso. apply Hb. by right.
      - destruct (String.eqb_spec (String a s) "lite"); [done|].
        exfalso. apply Hb. left. split; [done | congruence].
      - destruct (Detect.isSPA _); [|done]. exfalso. apply Hb. by right. }
    rewrite Hlite, Hpage.
    destruct (buildResult_plain url "lite" (Detect.detectSPA (html f)) page
                (query o) (default 8 (chunkLimit o)) (t_ms w - t0 w)%Z Hq)
      as (r & -> & Hb' & _ & _ & Hd).
    exists r. cbn [bind]. rewrite Hb'. done.
Qed.

(** C1. When the browser is chosen and raises and the lite path succeeds
    on the raw HTML, [render] returns the result tagged lite-fallback from
    inside the handler, before the cache store: the cache it leaves is the
    cache as it was after the lookup, and the result is not stored. *)
Theorem render_fallback_skips_cache (w : World) (url : string) (o : Options)
    (st : CacheState) (f : Fetched) (msg : string) :
  noCache o = false ->
  truthy (query o) = false ->
  (cache_lookup JSON_parse w url o st).1 = None ->
  fetched w = Returned f ->
  html f <> EmptyString ->
  uses_browser o (html f) ->
  browser w = Threw msg ->
  exists r,
    render parseHTML serialize JSON_parse w url o st
    = Returned (r, Opened (cache_lookup JSON_parse w url o st).2) /\
    backend r = "lite-fallback" /\ error r = None.
Proof.
  intros Hnc Hq Hmiss Hf Hhtml Hb Hthrow.
  unfold render. fold (cache_lookup JSON_parse w url o st).
  destruct (cache_lookup JSON_parse w url o st) as [hit c] eqn:Hl. simpl in Hmiss. subst hit.
  rewrite Hf. rewrite (uses_browser_tag o (html f) Hb). cbn [String.eqb Ascii.eqb Bool.eqb].
  rewrite Hthrow.
  rewrite (renderLite_truthy parseHTML url (html f) (lite_fetch w) Hhtml).
  destruct (buildResult_plain url "lite-fallback" (Detect.detectSPA (html f))
              (with_http (parseHTML (html f) url) 200 (Some "text/html"))
              (query o) (default 8 (chunkLimit o)) (t_ms w - t0 w)%Z Hq)
    as (r & -> & Hb' & He & _).
  exists r. done.
Qed.

End RenderFacts.

Lemma render_fallback_skips_cache_witness :
  exists r,
    Orchestrator.render Samples.bare_parser Samples.no_serialize Samples.no_parse
      Samples.world_no_browser "https://a.example/" Samples.no_options
      (Orchestrator.Closed ∅)
    = Returned (r, Orchestrator.Opened
                     (Notions.cache_lookup Samples.no_parse Samples.world_no_browser
                        "https://a.example/" Samples.no_options
                        (Orchestrator.Closed ∅)).2) /\
    Orchestrator.backend r = "lite-fallback" /\ Orchestrator.error r = None.
Proof.
  apply (render_fallback_skips_cache Samples.bare_parser Samples.no_serialize
           Samples.no_parse Samples.world_no_browser "https://a.example/"
           Samples.no_options (Orchestrator.Closed ∅) Samples.spa_fetched
           "Playwright not installed").
  - reflexivity.
  - reflexivity.
  - vm_compute. reflexivity.
  - reflexivity.
  - discriminate.
  - right. split; vm_compute; reflexivity.
  - reflexivity.
Defined.

(** The two calls side by side, from an empty cache: when the browser
    renders the page the result is stored for 5 minutes; when it raises
    the lite-fallback result is returned and the cache is left empty. *)
Example render_browser_then_fallback :
  (exists r c,
     Orchestrator.render Samples.bare_parser Samples.no_serialize Samples.no_parse
       Samples.world_browser "https://a.example/" Samples.no_options
       (Orchestrator.Closed ∅)
     = Returned (r, Orchestrator.Opened c) /\
     Orchestrator.backend r = "playwright" /\
     Cache.expires_at <$> (Cache.db c !! ("https://a.example/", ""))
     = Some (151 + 5 * 60 * 1000)%Z) /\
  (exists r c,
     Orchestrator.render Samples.bare_parser Samples.no_serialize Samples.no_parse
       Samples.world_no_browser "https://a.example/" Samples.no_options
       (Orchestrator.Closed ∅)
     = Returned (r, Orchestrator.Opened c) /\
     Orchestrator.backend r = "lite-fallback" /\
     Cache.db c !! ("https://a.example/", "") = None /\
     Cache.entries (Cache.stats 200 c) = 0).
Proof.
  split; eexists; eexists; (split; [vm_compute; reflexivity|]); vm_compute; auto.
Qed.

(* --------------------------------------------------------------------- *)
(** ** More on the page cache *)
(* --------------------------------------------------------------------- *)

Section CacheMore.

Import Cache CacheRuns.

Context {R : Type}.
Variable backend_of : R -> option string.
Variable serialize : R -> string.
Variable JSON_parse : string -> option R.

Lemma upsert_db (now : Z) (url query : string) (result : R) (ttl : option Z)
    (c : PageCache) :
  db (upsert backend_of serialize now url query result ttl c)
  = <[(url, query) := fresh_row backend_of serialize now result (default (ttlMs c) ttl)]>
      (db c).
Proof. reflexivity. Qed.

(** The row just written is not among the victims when the cache holds
    at least one entry, the row has not expired when the eviction runs, and
    every other row has expired or was last hit before the write. *)
Lemma fresh_row_survives (now now' : Z) (url query : string) (result : R)
    (ttl : option Z) (c : PageCache) :
  1 <= maxEntries c ->
  (now' <= now + default (ttlMs c) ttl)%Z ->
  (forall k r, db c !! k = Some r -> k <> (url, query) ->
               expired now' r = true \/ (last_hit r < now)%Z) ->
  db (set backend_of serialize now now' url query result ttl c) !! (url, query)
  = Some (fresh_row backend_of serialize now result (default (ttlMs c) ttl)).
Proof.
  intros Hmax Hlive Hold. unfold set.
  set (c1 := upsert backend_of serialize now url query result ttl c).
  set (fresh := fresh_row backend_of serialize now result (default (ttlMs c) ttl)).
  assert (Hfresh : db c1 !! (url, query) = Some fresh).
  { unfold c1. rewrite upsert_db. apply lookup_insert_eq. }
  unfold _evictIfNeeded.
  destruct (Nat.leb_spec (size (db c1)) (maxEntries c1)) as [Hle|Hgt]; [exact Hfresh|].
  cbn [db with_db]. set (n := size (db c1) - maxEntries c1). rewrite lookup_delete_all.
  destruct (decide _) as [Hin|Hnin]; [|exact Hfresh].
  exfalso.
  apply list_elem_of_fmap in Hin as ([k0 r0] & Hk0 & Hin). simpl in Hk0. subst k0.
  pose proof (victims_in _ _ _ _ _ Hin) as Hr0.
  assert (r0 = fresh) as -> by (apply (inj Some); etrans; [symmetry; exact Hr0 | exact Hfresh]).
  clear Hr0.
  destruct (victims_sorted now' n (db c1)) as (rest & Hperm & Hord).
  assert (Hlen : length rest = maxEntries c1).
  { apply Permutation_length in Hperm.
    rewrite length_app, length_map_to_list, victims_length in Hperm by lia. lia. }
  destruct rest as [|[k r] rest]; [simpl in Hlen; change (maxEntries c1) with (maxEntries c) in Hlen; lia|].
  assert (Hkr : db c1 !! k = Some r).
  { apply elem_of_map_to_list. rewrite <- Hperm. apply elem_of_app. right. by left. }
  assert (Hne : k <> (url, query)).
  { intros ->.
    assert (r = fresh) as -> by (apply (inj Some); etrans; [symmetry; exact Hkr | exact Hfresh]).
    pose proof (NoDup_map_to_list (db c1)) as Hnd. rewrite <- Hperm in Hnd.
    apply NoDup_app in Hnd as (_ & Hdisj & _). apply (Hdisj _ Hin). by left. }
  assert (Hc : db c !! k = Some r).
  { unfold c1 in Hkr. rewrite upsert_db, lookup_insert_ne in Hkr by done. done. }
  specialize (Hord (url, query, fresh) (k, r) Hin ltac:(by left)).
  unfold evict_le, rank_le, evict_rank in Hord. cbn [fst snd] in Hord.
  assert (Hf : expired now' fresh = false).
  { unfold expired, fresh, fresh_row. cbn [expires_at]. apply Z.ltb_ge. lia. }
  rewrite Hf in Hord. change (last_hit fresh) with now in Hord.
  destruct (Hold k r Hc Hne) as [He|Hlt].
  - rewrite He in Hord. lia.
  - destruct (expired now' r); lia.
Qed.

Lemma expired_split (now : Z) (t : gmap key row) :
  size t = size (filter (fun kr : key * row => (expires_at kr.2 < now)%Z) t)
           + size (filter (fun kr : key * row => ~ (expires_at kr.2 < now)%Z) t).
Proof.
  rewrite <- (map_filter_union_complement
                (fun kr : key * row => (expires_at kr.2 < now)%Z) t) at 1.
  by rewrite map_size_disj_union by apply map_disjoint_filter_complement.
Qed.

(** X1. Round trip: under the conditions of [fresh_row_survives], a [get] of
    the key made before the entry expires returns the parsed text that
    [set] stored, and the entry starts with no hit. *)
Theorem set_then_get (now now' later : Z) (url query : string) (result : R)
    (ttl : option Z) (c : PageCache) :
  1 <= maxEntries c ->
  (now' <= now + default (ttlMs c) ttl)%Z ->
  (later <= now + default (ttlMs c) ttl)%Z ->
  (forall k r, db c !! k = Some r -> k <> (url, query) ->
               expired now' r = true \/ (last_hit r < now)%Z) ->
  let c' := set backend_of serialize now now' url query result ttl c in
  (get JSON_parse later url query c').1 = JSON_parse (serialize result) /\
  hit_count <$> (db c' !! (url, query)) = Some 0%Z /\
  hit_count <$> (db (get JSON_parse later url query c').2 !! (url, query)) = Some 1%Z.
Proof.
  intros Hmax Hlive Hlater Hold. cbv zeta.
  pose proof (fresh_row_survives now now' url query result ttl c Hmax Hlive Hold) as Hrow.
  unfold get. rewrite Hrow. cbn [expires_at fresh_row].
  destruct (Z.ltb_spec (now + default (ttlMs c) ttl) later); [lia|].
  cbn [fst snd db with_db]. rewrite lookup_insert_eq. done.
Qed.

(** X2. [set] never alters another entry: a row found under another key after
    the call is the row that was there before it. *)
Theorem set_keeps_other_rows (now now' : Z) (url query : string) (result : R)
    (ttl : option Z) (c : PageCache) (k : key) (r : row) :
  k <> (url, query) ->
  db (set backend_of serialize now now' url query result ttl c) !! k = Some r ->
  db c !! k = Some r.
Proof.
  intros Hne Hk. unfold set in Hk.
  pose proof (evict_subseteq now' (upsert backend_of serialize now url query result ttl c))
    as Hsub.
  rewrite map_subseteq_spec in Hsub. apply Hsub in Hk.
  rewrite upsert_db, lookup_insert_ne in Hk by done. done.
Qed.

(** X3. Hits accumulate: [get] calls on a live entry, all made before it
    expires, each return the parsed text of the row, and leave the row with
    one more hit per call. *)
Theorem gets_count_hits (times : list Z) (url query : string) (c : PageCache) (r : row) :
  db c !! (url, query) = Some r ->
  Forall (fun t => (t <= expires_at r)%Z) times ->
  let '(vs, c') := gets JSON_parse times url query c in
  vs = List.map (fun _ => JSON_parse (result_json r)) times /\
  (hit_count <$> (db c' !! (url, query)))
  = Some (hit_count r + Z.of_nat (length times))%Z /\
  (result_json <$> (db c' !! (url, query))) = Some (result_json r) /\
  size (db c') = size (db c).
Proof.
  intros Hr Hall. revert c r Hr Hall.
  induction times as [|t times IH]; intros c r Hr Hall.
  - simpl. rewrite Hr. simpl. repeat split; try done. f_equal. lia.
  - apply Forall_cons in Hall as [Ht Hall].
    cbn [gets]. unfold get at 1. rewrite Hr.
    destruct (Z.ltb_spec (expires_at r) t); [lia|].
    set (c1 := with_db c (<[(url, query) := hit t r]> (db c))).
    specialize (IH c1 (hit t r)).
    destruct (gets JSON_parse times url query c1) as [vs c2].
    destruct IH as (Hvs & Hh & Hj & Hs).
    + unfold c1. cbn [db with_db]. apply lookup_insert_eq.
    + done.
    + rewrite Hvs, Hh, Hj. cbn [hit hit_count result_json List.map length].
      repeat split; try done.
      * f_equal. lia.
      * rewrite Hs. unfold c1. cbn [db with_db].
        rewrite map_size_insert_Some; [done | by eexists].
Qed.

(** X4. [invalidate(url)] returns the number of entries of the address, of
    whatever query; after it a [get] of the address returns null for every
    query, and the entries of the other addresses are untouched. *)
Theorem invalidate_removes_url (url : string) (c : PageCache) :
  let '(n, c') := invalidate url c in
  n = size (filter (fun kr : key * row => kr.1.1 = url) (db c)) /\
  (forall now query, get JSON_parse now url query c' = (None, c')) /\
  (forall k, k.1 <> url -> db c' !! k = db c !! k).
Proof.
  unfold invalidate. split; [|split].
  - rewrite <- (map_filter_union_complement (fun kr : key * row => kr.1.1 = url) (db c)) at 1.
    rewrite map_size_disj_union by apply map_disjoint_filter_complement. lia.
  - intros now query. unfold get. cbn [db with_db].
    rewrite (proj2 (map_lookup_filter_None _ _ _)); [done|].
    right. intros x _ Hx. by apply Hx.
  - intros k Hk. cbn [db with_db].
    destruct (db c !! k) as [r|] eqn:Hr.
    + by apply map_lookup_filter_Some.
    + apply map_lookup_filter_None. by left.
Qed.

(** X5. [purgeExpired()] returns the number of expired entries, removes
    exactly those, and leaves a cache on which [stats()], read at the same
    time, counts no expired entry and as many entries as were active. *)
Theorem purgeExpired_removes_expired (now : Z) (c : PageCache) :
  let '(n, c') := purgeExpired now c in
  n = expired_entries (stats now c) /\
  (forall k r, db c' !! k = Some r <-> db c !! k = Some r /\ ~ (expires_at r < now)%Z) /\
  expired_entries (stats now c') = 0 /\
  entries (stats now c') = active (stats now c).
Proof.
  unfold purgeExpired, stats. cbn [db with_db entries expired_entries active].
  pose proof (expired_split now (db c)) as Hsplit.
  split; [lia|]. split; [|split].
  - intros k r. apply map_lookup_filter_Some.
  - apply map_size_empty_iff, map_empty_filter_2, map_Forall_lookup.
    intros k r [Hr Hlive]%map_lookup_filter_Some. exact Hlive.
  - lia.
Qed.

End CacheMore.

Lemma set_then_get_witness :
  let backend_of := fun _ : string => Some "lite" in
  let serialize := fun s : string => s in
  let c' := Cache.set backend_of serialize 3 4 "https://b.example" "" "{}" None
              Samples.cache_a in
  (Cache.get Some 5 "https://b.example" "" c').1 = Some "{}" /\
  Cache.hit_count <$> (Cache.db c' !! ("https://b.example", "")) = Some 0%Z /\
  Cache.hit_count <$> (Cache.db (Cache.get Some 5 "https://b.example" "" c').2
                         !! ("https://b.example", "")) = Some 1%Z.
Proof.
  cbv zeta.
  apply (set_then_get (fun _ : string => Some "lite") (fun s : string => s) Some
           3 4 5 "https://b.example" "" "{}" None Samples.cache_a).
  - simpl. lia.
  - simpl. lia.
  - simpl. lia.
  - intros k r Hr _. unfold Samples.cache_a, Cache.db in Hr.
    apply lookup_singleton_Some in Hr as [_ <-].
    right. simpl. lia.
Defined.

Lemma set_keeps_other_rows_witness :
  Cache.db Samples.cache_a !! ("https://a.example", "") = Some Samples.row_a.
Proof.
  apply (set_keeps_other_rows (fun _ : string => Some "lite") (fun s : string => s)
           3 4 "https://b.example" "" "{}" None
           {| Cache.ttlMs := 600000; Cache.maxEntries := 2;
              Cache.db := Cache.db Samples.cache_a |}).
  - discriminate.
  - vm_compute. reflexivity.
Defined.

Lemma gets_count_hits_witness :
  let '(vs, c') := CacheRuns.gets Some [2; 5; 10]%Z "https://a.example" "" Samples.cache_a in
  vs = [Some "{}"; Some "{}"; Some "{}"] /\
  Cache.hit_count <$> (Cache.db c' !! ("https://a.example", "")) = Some 3%Z /\
  Cache.result_json <$> (Cache.db c' !! ("https://a.example", "")) = Some "{}" /\
  size (Cache.db c') = 1.
Proof.
  apply (gets_count_hits Some [2; 5; 10]%Z "https://a.example" "" Samples.cache_a
           Samples.row_a).
  - vm_compute. reflexivity.
  - repeat constructor; simpl; lia.
Defined.

(* --------------------------------------------------------------------- *)
(** ** More on detection *)
(* --------------------------------------------------------------------- *)

Section DetectionMore.

Import Detect Signals.

(** Signals whose weights all lie between 2 and 4 add, when [k] of them
    fire, between [2k] and [4k] to the score. *)
Lemma weighted_sum_fired (html : string) (sigs : list signal) :
  Forall (fun s => 2 <= sig_weight s <= 4)%Z sigs ->
  let k := Z.of_nat (length (List.filter (fun s => fires s html) sigs)) in
  (2 * k <= weighted_sum (List.map sig_weight sigs) (List.map (fun s => fires s html) sigs)
   <= 4 * k)%Z.
Proof.
  induction 1 as [|s sigs Hs _ IH]; cbn [List.filter List.map weighted_sum length].
  - simpl. lia.
  - cbv zeta in IH. destruct (fires s html); cbn [length]; lia.
Qed.

Lemma positive_signals_weights :
  Forall (fun s => 2 <= sig_weight s <= 4)%Z positive_signals.
Proof. repeat constructor; discriminate. Qed.

(** X8. The score and the reasons of a report bound each other: every reason
    stands for a weight between 2 and 4, and the only other contribution is
    the 2 that the ld+json test takes off. So a page reported as an
    application has at least one reason, a report of high confidence has at
    least two, and a report with no reason has a score of 0 or -2. *)
Theorem detectSPA_score_bounds (html : string) :
  let r := detectSPA html in
  let k := Z.of_nat (length (reasons r)) in
  (2 * k - 2 <= score r <= 4 * k)%Z /\
  (isSPA r = true -> reasons r <> []) /\
  (confidence r = High -> 2 <= length (reasons r)) /\
  (reasons r = [] -> isSPA r = false /\ (score r = 0 \/ score r = -2)%Z).
Proof.
  cbv zeta.
  assert (Hb : (2 * Z.of_nat (length (reasons (detectSPA html))) - 2
                <= score (detectSPA html)
                <= 4 * Z.of_nat (length (reasons (detectSPA html))))%Z
               /\ (reasons (detectSPA html) = [] ->
                   (score (detectSPA html) = 0 \/ score (detectSPA html) = -2)%Z)).
  { destruct (detectSPA_acc html) as [-> ->].
    rewrite length_map. unfold weights, outcomes.
    rewrite weighted_sum_app by (by rewrite !length_map).
    pose proof (weighted_sum_fired html positive_signals positive_signals_weights) as Hw.
    cbv zeta in Hw. cbn [weighted_sum].
    split; [destruct (ld_json_fires html); lia|].
    intros Hnil. apply (f_equal (@length _)) in Hnil.
    rewrite length_map in Hnil. rewrite Hnil in Hw. cbn [length] in Hnil, Hw.
    destruct (ld_json_fires html); lia. }
  destruct Hb as [Hb Hnil].
  assert (Hspa : isSPA (detectSPA html) = (4 <=? score (detectSPA html))%Z) by reflexivity.
  assert (Hconf : confidence (detectSPA html) = High -> (8 <= score (detectSPA html))%Z).
  { unfold detectSPA. cbn [confidence score].
    match goal with |- context [acc_score ?a] => generalize (acc_score a) end.
    intros z. destruct (Z.leb_spec 8 z), (Z.leb_spec 4 z); done. }
  split; [exact Hb|]. split; [|split].
  - intros Hs Hr. rewrite Hspa in Hs. apply Z.leb_le in Hs.
    rewrite Hr in Hb. cbn [length] in Hb. lia.
  - intros Hc. apply Hconf in Hc. lia.
  - intros Hr. split; [|by apply Hnil].
    rewrite Hspa. apply Z.leb_gt. destruct (Hnil Hr); lia.
Qed.

End DetectionMore.

(* --------------------------------------------------------------------- *)
(** ** The chunks of a page *)
(* --------------------------------------------------------------------- *)

Lemma trimStart_length (s : string) : String.length (trimStart s) <= String.length s.
Proof. induction s as [|c s IH]; simpl; [lia|]. destruct (is_space c); simpl; lia. Qed.

Lemma trimEnd_length (s : string) : String.length (trimEnd s) <= String.length s.
Proof.
  induction s as [|c s IH]; simpl; [lia|].
  destruct (trimEnd s); [destruct (is_space c)|]; simpl in *; lia.
Qed.

Lemma trim_length (s : string) : String.length (trim s) <= String.length s.
Proof.
  unfold trim. etrans; [apply trimEnd_length | apply trimStart_length].
Qed.

(** One conditional adjustment of a score whose bounds are known. *)
Ltac bound_step :=
  match goal with
  | |- context [if ?b then (?s + ?d)%Z else ?s] =>
      is_var s;
      let s' := fresh "s" in
      set (s' := if b then (s + d)%Z else s);
      assert (s <= s' <= s + d)%Z by (subst s'; destruct b; lia);
      clearbody s'
  | |- context [if ?b then (?s - ?d)%Z else ?s] =>
      is_var s;
      let s' := fresh "s" in
      set (s' := if b then (s - d)%Z else s);
      assert (s - d <= s' <= s)%Z by (subst s'; destruct b; lia);
      clearbody s'
  end.

Section ChunkShapeFacts.

Import Page Chunker Notions ChunkShapes.

Lemma scoreBlock_range (txt : string) (ctx : context) : (-9 <= scoreBlock txt ctx <= 8)%Z.
Proof.
  unfold scoreBlock. cbv zeta.
  match goal with
  | |- context [if ?b then (0 + 2)%Z else ?e] => set (s := if b then (0 + 2)%Z else e)
  end.
  assert (-2 <= s <= 2)%Z by (subst s; repeat case_match; lia).
  clearbody s.
  destruct (linkDensity ctx) as [d|]; repeat bound_step; lia.
Qed.

Lemma detectType_no_hint (txt : string) : from_text (detectType txt no_hint) = true.
Proof.
  unfold detectType, tag_is. cbn [no_hint isCode hint_tag standalone orb].
  rewrite andb_false_r. repeat case_match; reflexivity.
Qed.

Variable page : PageRecord.
Variable opts : ChunkOpts.

Lemma chunks_inv_push (st : loop_state) (c : Chunk) (sec : option string) :
  chunks_inv page opts st -> chunk_shape page opts c -> id c = chunkId st ->
  section_of_page page sec ->
  chunks_inv page opts {| chunks := chunks st ++ [c]; chunkId := S (chunkId st);
                currentSection := sec |}.
Proof.
  intros (Hall & Hids & Hsec & Hhd) Hc Hid Hsec'. unfold chunks_inv.
  cbn [chunks chunkId currentSection]. split; [|split; [|split]].
  - apply Forall_app. split; [done | by constructor].
  - rewrite List.map_app, Hids, seq_S. cbn. by rewrite Hid.
  - done.
  - destruct (chunks st); [discriminate | done].
Qed.

Lemma chunks_inv_emit (st : loop_state) (ty : chunk_type) (txt : string) (score : Z)
    (m : chunk_meta) :
  chunks_inv page opts st ->
  chunk_shape page opts
    {| id := chunkId st; type := ty; section := currentSection st; text := txt;
       c_score := score; c_meta := m; relevance := None |} ->
  chunks_inv page opts (emit st ty txt score m).
Proof.
  intros Hinv Hc. apply (chunks_inv_push st _ _ Hinv Hc); [done|]. by destruct Hinv as (_ & _ & ? & _).
Qed.

Lemma text_chunk_shape (n : nat) (ty : chunk_type) (sec : option string) (txt : string)
    (score : Z) (m : chunk_meta) :
  let c := {| id := n; type := ty; section := sec; text := txt; c_score := score;
              c_meta := m; relevance := None |} in
  from_text ty = true -> (minScore_of opts <= score <= 8)%Z ->
  section_of_page page sec -> text_of_page page (maxSize_of opts) c ->
  chunk_shape page opts c.
Proof.
  intros c Hty Hs Hsec Htxt. split; [done|].
  destruct ty; try discriminate; cbn; done.
Qed.

Lemma join_snoc (sep s : string) (l : list string) :
  l <> [] -> join sep (l ++ [s]) = join sep l +:+ sep +:+ s.
Proof.
  induction l as [|x [|y l] IH]; [done | done |]. intros _.
  change (join sep ((x :: y :: l) ++ [s])) with (x +:+ sep +:+ join sep ((y :: l) ++ [s])).
  rewrite IH by done.
  change (join sep (x :: y :: l)) with (x +:+ sep +:+ join sep (y :: l)).
  by rewrite !string_app_assoc.
Qed.

Lemma join_nonempty (sep x : string) (l : list string) :
  x <> EmptyString -> join sep (x :: l) <> EmptyString.
Proof.
  destruct x as [|c x]; [done|]. intros _.
  destruct l as [|y l]; cbn [join]; [done|]. by rewrite string_app_cons.
Qed.

Lemma splitSentences_nonempty (para s : string) :
  s ∈ splitSentences para -> s <> EmptyString.
Proof.
  unfold splitSentences. intros [_ Hlen]%list_elem_of_In%filter_In ->. done.
Qed.

Lemma partial_text (para : string) (before group after : list string) (n : nat)
    (sec : option string) (score : Z) (part : nat) :
  para ∈ paragraphs_of (textContent page) ->
  maxSize_of opts < String.length para ->
  splitSentences para = before ++ group ++ after ->
  group <> [] ->
  String.length (join " " group) <= maxSize_of opts \/ length group = 1 ->
  text_of_page page (maxSize_of opts)
    {| id := n; type := detectType (join " " group) no_hint; section := sec;
       text := trim (join " " group);
       c_score := score; c_meta := Partial part; relevance := None |}.
Proof.
  intros Hpara Hbig Hsplit Hne Hsize. right.
  by exists part, para, before, group, after.
Qed.

Lemma sentence_step_inv (para : string) (score : Z) (seen todo : list string)
    (g : group_state) (sentence : string) :
  para ∈ paragraphs_of (textContent page) ->
  maxSize_of opts < String.length para ->
  (score <= 8)%Z ->
  splitSentences para = seen ++ sentence :: todo ->
  chunks_inv page opts (g_loop g) /\ group_ok opts seen (current g) ->
  let g' := sentence_step (maxSize_of opts) (minScore_of opts) score g sentence in
  chunks_inv page opts (g_loop g') /\ group_ok opts (seen ++ [sentence]) (current g').
Proof.
  intros Hpara Hbig Hscore Hsplit [Hinv (before & group & Hseen & Hcur & Hsize)].
  assert (Hnil : current g = EmptyString -> group = []).
  { destruct group as [|x l]; [done|]. intros He. exfalso. rewrite Hcur in He.
    apply (join_nonempty " " x l); [|done].
    apply (splitSentences_nonempty para). rewrite Hsplit, Hseen.
    apply elem_of_app. left. apply elem_of_app. right. by left. }
  assert (Hnew : group_ok opts (seen ++ [sentence]) sentence).
  { exists seen, [sentence]. split; [done|]. split; [done|]. by right; right. }
  cbv zeta. unfold sentence_step.
  destruct (String.eqb_spec (current g) EmptyString) as [He | Hne].
  - rewrite andb_false_r. cbn [g_loop current]. by split.
  - rewrite andb_true_r.
    assert (Hgroup : group <> []) by (intros ->; by apply Hne).
    destruct (Nat.ltb_spec (maxSize_of opts)
                (String.length (current g +:+ " " +:+ sentence))) as [Hlong | Hshort];
      cbn [g_loop current].
    + split; [|done].
      destruct (Z.leb_spec (minScore_of opts) score); [|done].
      apply chunks_inv_emit; [done|].
      apply text_chunk_shape;
        [apply detectType_no_hint | lia | by destruct Hinv as (_ & _ & ? & _) |].
      rewrite Hcur.
      apply (partial_text para before group (sentence :: todo)); try done.
      * by rewrite Hsplit, Hseen, <- app_assoc.
      * destruct Hsize as [Hs | [Hs | Hs]];
          [by destruct Hgroup | left; by rewrite <- Hcur | by right].
    + split; [done|]. exists before, (group ++ [sentence]).
      split; [by rewrite Hseen, <- app_assoc|].
      split; [by rewrite join_snoc, Hcur|]. right; left. done.
Qed.

Lemma sentences_inv (para : string) (score : Z) (todo seen : list string) (g : group_state) :
  para ∈ paragraphs_of (textContent page) ->
  maxSize_of opts < String.length para ->
  (score <= 8)%Z ->
  splitSentences para = seen ++ todo ->
  chunks_inv page opts (g_loop g) /\ group_ok opts seen (current g) ->
  let g' := fold_left (sentence_step (maxSize_of opts) (minScore_of opts) score) todo g in
  chunks_inv page opts (g_loop g') /\ group_ok opts (seen ++ todo) (current g').
Proof.
  intros Hpara Hbig Hscore. revert seen g.
  induction todo as [|s todo IH]; intros seen g Hsplit Hg.
  - by rewrite app_nil_r.
  - cbn [fold_left]. replace (seen ++ s :: todo) with ((seen ++ [s]) ++ todo)
      by (by rewrite <- app_assoc).
    apply IH; [by rewrite <- app_assoc|].
    by apply (sentence_step_inv para score seen todo).
Qed.

Lemma para_step_inv (st : loop_state) (para : string) :
  para ∈ paragraphs_of (textContent page) ->
  chunks_inv page opts st ->
  chunks_inv page opts (para_step page (maxSize_of opts) (minScore_of opts) (includeNav opts) st para).
Proof.
  intros Hpara Hinv. unfold para_step.
  destruct (headingMatch page para) as [i|].
  - destruct Hinv as (Hall & Hids & Hsec & Hhd). split; [|split; [|split]]; try done.
    cbn [currentSection]. destruct (headings page !! i) as [h|] eqn:Hh; [|by left].
    right. exists h. split; [|done]. by apply list_elem_of_lookup_2 in Hh.
  - cbv zeta.
    match goal with |- context [scoreBlock para ?ctx] =>
      pose proof (scoreBlock_range para ctx) as Hrange; generalize dependent (scoreBlock para ctx)
    end.
    intros score Hrange.
    match goal with |- context [density_gt ?d 5] => generalize (density_gt d 5) end.
    intros dense.
    assert (Hsec : section_of_page page (currentSection st)) by (by destruct Hinv as (_ & _ & ? & _)).
    destruct (negb (includeNav opts) && dense); [done|].
    destruct (Nat.ltb_spec (maxSize_of opts) (String.length para)) as [Hlong | Hshort].
    + destruct (sentences_inv para score (splitSentences para) []
                  {| g_loop := st; current := EmptyString; sentIdx := 0 |})
        as [Hinv' (before & group & Hseen & Hcur & Hsize)];
        [done | done | lia | done | split; [done | exists [], []; by split; [|split; [|left]]] |].
      cbv zeta in Hinv', Hcur, Hsize.
      set (g := fold_left _ _ _) in *.
      destruct (String.eqb_spec (trim (current g)) EmptyString) as [He | Hne]; [done|].
      destruct (Z.leb_spec (minScore_of opts) score); [|done].
      cbn [negb andb]. apply chunks_inv_emit; [done|].
      apply text_chunk_shape;
        [apply detectType_no_hint | lia | by destruct Hinv' as (_ & _ & ? & _) |].
      assert (Hgroup : group <> []).
      { intros ->. apply Hne. by rewrite Hcur. }
      rewrite Hcur.
      apply (partial_text para before group []); try done.
      * cbn [app] in Hseen. by rewrite app_nil_r.
      * destruct Hsize as [Hs | [Hs | Hs]];
          [by destruct Hgroup | left; by rewrite <- Hcur | by right].
    + destruct (Z.leb_spec (minScore_of opts) score); [|done].
      apply chunks_inv_emit; [done|].
      apply text_chunk_shape; [apply detectType_no_hint | lia | done |].
      left. cbn [c_meta text]. done.
Qed.

Lemma paragraphs_inv (paras : list string) (st : loop_state) :
  (forall p, p ∈ paras -> p ∈ paragraphs_of (textContent page)) ->
  chunks_inv page opts st ->
  chunks_inv page opts (fold_left (para_step page (maxSize_of opts) (minScore_of opts) (includeNav opts))
                paras st).
Proof.
  revert st. induction paras as [|p paras IH]; intros st Hin Hinv; [done|].
  cbn [fold_left]. apply IH.
  - intros p' Hp'. apply Hin. by right.
  - apply para_step_inv; [apply Hin; by left | done].
Qed.

Lemma forms_inv (fs : list Form) (st : loop_state) :
  (forall f, f ∈ fs -> f ∈ forms page) ->
  chunks_inv page opts st ->
  chunks_inv page opts
    (fold_left
       (fun st f =>
          {| chunks := chunks st ++ [ {| id := chunkId st; type := TForm; section := None;
                                         text := formText f; c_score := 7;
                                         c_meta := OfForm f; relevance := None |} ];
             chunkId := S (chunkId st); currentSection := currentSection st |})
       fs st).
Proof.
  revert st. induction fs as [|f fs IH]; intros st Hin Hinv; [done|].
  cbn [fold_left]. apply IH.
  - intros f' Hf'. apply Hin. by right.
  - apply chunks_inv_push; [done | | done | by destruct Hinv as (_ & _ & ? & _)].
    split; [done|]. cbn. split; [done|]. split; [done|].
    exists f. split; [apply Hin; by left | done].
Qed.

(** The chunks [chunkPage] collects, before it sorts them. *)
Lemma chunkPage_unsorted :
  exists st, chunkPage page opts = sort_desc c_score (chunks st) /\ chunks_inv page opts st.
Proof.
  unfold chunkPage. eexists. split; [reflexivity|].
  fold (maxSize_of opts). fold (minScore_of opts).
  cbn [chunks chunkId currentSection app].
  set (st1 := match headings page with [] => _ | _ => _ end).
  assert (Hst1 : chunks_inv page opts st1).
  { assert (H0 : chunks_inv page opts {| chunks := [summary_chunk page]; chunkId := 1;
                               currentSection := None |}).
    { split; [|split; [|split]]; try done; [|by left].
      constructor; [|constructor]. split; done. }
    unfold st1. destruct (headings page) as [|h hs] eqn:Hh; [exact H0|].
    apply (chunks_inv_push _ _ None H0); [|done | by left].
    split; [done|]. cbn. by rewrite Hh. }
  set (st2 := fold_left (para_step _ _ _ _) _ st1).
  assert (Hst2 : chunks_inv page opts st2) by (by apply paragraphs_inv).
  set (st3 := fold_left _ (forms page) st2).
  assert (Hst3 : chunks_inv page opts st3) by (by apply forms_inv).
  destruct (importantLinks page) as [|l ls] eqn:Hl; [done|].
  apply chunks_inv_push; [done | | done | by destruct Hst3 as (_ & _ & ? & _)].
  split; [done|]. cbn. by rewrite Hl.
Qed.

(** X9. Every chunk of [chunkPage] has one of five shapes. The summary, the
    table of contents, a form and the notable links carry the fixed scores
    10, 5, 7 and 3 and no section. Every other chunk is cut from the page
    text: its type is paragraph, list-item, callout, link or code (never
    heading, table-cell or label), its score lies between [minScore] and 8,
    its section is absent or the text of a heading of the page, and its
    text is a whole paragraph of at most [maxChunkSize] characters or a
    part of a longer one: consecutive sentences of the paragraph, joined
    by single spaces and trimmed, which exceed that size only when the
    part is a single sentence. *)
Theorem chunkPage_shapes :
  Forall (chunk_shape page opts) (chunkPage page opts).
Proof.
  destruct chunkPage_unsorted as (st & -> & Hall & _).
  by rewrite sort_desc_perm.
Qed.

Lemma sort_desc_head {A : Type} (key : A -> Z) (x : A) (l : list A) :
  Forall (fun y => key y <= key x)%Z l ->
  sort_desc key (x :: l) = x :: sort_desc key l.
Proof.
  intros Hl. cbn [sort_desc foldr]. fold (sort_desc key l).
  rewrite <- (sort_desc_perm key l) in Hl.
  destruct (sort_desc key l) as [|y l']; [done|].
  apply Forall_cons in Hl as [Hy _]. cbn [insert_desc].
  destruct (Z.ltb_spec (key x) (key y)); [lia | done].
Qed.

Lemma chunk_shape_score (c : Chunk) : chunk_shape page opts c -> (c_score c <= 10)%Z.
Proof.
  intros [_ Hc].
  destruct (type c); first [done | by rewrite Hc | destruct Hc as [? _]; lia].
Qed.

Lemma chunkPage_summary_first :
  head (chunkPage page opts) = Some (summary_chunk page).
Proof.
  destruct chunkPage_unsorted as (st & -> & Hall & _ & _ & Hhd).
  destruct (chunks st) as [|c cs]; [discriminate|].
  injection Hhd as ->. apply Forall_cons in Hall as [_ Hall].
  rewrite sort_desc_head; [done|].
  eapply Forall_impl; [exact Hall|]. intros c Hc. by apply chunk_shape_score.
Qed.

(** X10. The result of [chunkPage] begins with the summary of the page, lists
    the chunks by falling score, and numbers them: the [id]s are the
    numbers from 0 to the number of chunks less one, each used once. *)
Theorem chunkPage_order :
  head (chunkPage page opts) = Some (summary_chunk page) /\
  StronglySorted (desc c_score) (chunkPage page opts) /\
  List.map id (chunkPage page opts) ≡ₚ seq 0 (length (chunkPage page opts)).
Proof.
  split; [apply chunkPage_summary_first|].
  destruct chunkPage_unsorted as (st & -> & _ & Hids & _).
  split.
  - apply sort_desc_sorted.
  - rewrite (sort_desc_perm c_score (chunks st)), Hids.
    apply (f_equal (@length _)) in Hids. rewrite length_map, length_seq in Hids.
    by rewrite Hids.
Qed.

End ChunkShapeFacts.

(* --------------------------------------------------------------------- *)
(** ** More on query ranking *)
(* --------------------------------------------------------------------- *)

Section FindRelevantMore.

Import Page Chunker Notions ChunkShapes.

Lemma sort_desc_sorted_id {A : Type} (key : A -> Z) (l : list A) :
  StronglySorted (desc key) l -> sort_desc key l = l.
Proof.
  induction 1 as [|x l _ IH Hx]; [done|].
  rewrite sort_desc_head by exact Hx. by rewrite IH.
Qed.

Lemma add_matches_ge (txt : string) (words : list string) (rel r : Z) :
  add_matches txt words rel = Returned r -> (rel <= r)%Z.
Proof.
  revert rel. induction words as [|w words IH]; intros rel; cbn [add_matches].
  - intros [= <-]. lia.
  - destruct (RegExp.compile w) as [re| |]; cbn [bind]; [|done..].
    intros Hr%IH. lia.
Qed.

Lemma map_outcome_inv {A B : Type} (f : A -> outcome B) (l : list A) (l' : list B) :
  map_outcome f l = Returned l' -> Forall2 (fun a b => f a = Returned b) l l'.
Proof.
  revert l'. induction l as [|a l IH]; intros l'; cbn [map_outcome].
  - intros [= <-]. constructor.
  - destruct (f a) as [b| |] eqn:Hb; cbn [bind]; [|done..].
    destruct (map_outcome f l) as [bs| |]; cbn [bind]; [|done..].
    intros [= <-]. constructor; [done | by apply IH].
Qed.

(** X11. When [findRelevant] returns, it returns [limit] chunks, or all of them
    when there are fewer, by falling relevance; each is one of the chunks
    given, unchanged but for the relevance added, and the relevance is
    never below the score of the chunk. *)
Theorem findRelevant_result (cs : list Chunk) (query : string) (limit : nat)
    (out : list Chunk) :
  findRelevant cs query limit = Returned out ->
  length out = Nat.min limit (length cs) /\
  StronglySorted (desc relevance_key) out /\
  Forall (fun r => exists c rel, c ∈ cs /\ r = with_relevance c rel /\ (c_score c <= rel)%Z)
         out.
Proof.
  unfold findRelevant.
  destruct (map_outcome _ cs) as [scored| |] eqn:Hscored; cbn [bind]; [|done..].
  intros [= <-]. apply map_outcome_inv in Hscored.
  split; [|split].
  - rewrite length_firstn, (Permutation_length (sort_desc_perm _ _)).
    by rewrite <- (Forall2_length _ _ _ Hscored).
  - apply sorted_take, sort_desc_sorted.
  - apply Forall_forall. intros r Hr%elem_of_take.
    destruct Hr as (i & Hr%list_elem_of_lookup_2 & _).
    rewrite sort_desc_perm in Hr.
    apply list_elem_of_lookup_1 in Hr as [j Hj].
    destruct (Forall2_lookup_r _ _ _ _ _ Hscored Hj) as (c & Hc & Hrel).
    destruct (add_matches _ _ _) as [rel| |] eqn:Hadd; cbn [bind] in Hrel; [|done..].
    injection Hrel as <-. exists c, rel.
    split; [by apply list_elem_of_lookup_2 in Hc|]. split; [done|].
    by apply add_matches_ge in Hadd.
Qed.

Lemma findRelevant_sorted (cs : list Chunk) (query : string) (limit : nat) :
  queryWords query = [] -> StronglySorted (desc c_score) cs ->
  findRelevant cs query limit
  = Returned (List.map (fun c => with_relevance c (c_score c)) (List.firstn limit cs)).
Proof.
  intros Hq Hs. unfold findRelevant. rewrite Hq. cbn [add_matches bind].
  rewrite (map_outcome_returned _ (fun c => with_relevance c (c_score c))) by done.
  cbn [bind]. f_equal.
  rewrite sort_desc_sorted_id; [by rewrite firstn_map|].
  clear Hq. induction Hs as [|c cs Hs IH Hc]; [constructor|].
  cbn [List.map]. constructor; [exact IH|].
  apply Forall_forall. intros r (c' & <- & Hc')%list_elem_of_In%in_map_iff.
  rewrite Forall_forall in Hc. by apply list_elem_of_In, Hc in Hc'.
Qed.

(** X12. A query with no word of more than two characters ranks nothing: on
    chunks that are listed by falling score, and so on the result of
    [chunkPage], [findRelevant] returns the first [limit] chunks in their
    order, each with its score as its relevance. *)
Theorem findRelevant_no_words (query : string) (limit : nat) :
  queryWords query = [] ->
  (forall cs, StronglySorted (desc c_score) cs ->
     findRelevant cs query limit
     = Returned (List.map (fun c => with_relevance c (c_score c)) (List.firstn limit cs))) /\
  (forall page opts,
     findRelevant (chunkPage page opts) query limit
     = Returned (List.map (fun c => with_relevance c (c_score c))
                   (List.firstn limit (chunkPage page opts)))).
Proof.
  intros Hq. split.
  - intros cs Hs. by apply findRelevant_sorted.
  - intros page opts. apply findRelevant_sorted; [done|].
    unfold chunkPage. apply sort_desc_sorted.
Qed.

End FindRelevantMore.

Lemma findRelevant_result_witness :
  let out := [Chunker.with_relevance Samples.chunk_abc 2] in
  length out = Nat.min 5 (length [Samples.chunk_abc]) /\
  StronglySorted (Notions.desc Chunker.relevance_key) out /\
  Forall (fun r => exists c rel, c ∈ [Samples.chunk_abc] /\
                                 r = Chunker.with_relevance c rel /\
                                 (Chunker.c_score c <= rel)%Z) out.
Proof.
  apply (findRelevant_result [Samples.chunk_abc] "abc" 5). vm_compute. reflexivity.
Defined.

Lemma findRelevant_no_words_witness :
  Chunker.findRelevant (Chunker.chunkPage Samples.page_steps Chunker.default_opts) "is it" 1
  = Returned [Chunker.with_relevance (ChunkShapes.summary_chunk Samples.page_steps) 10].
Proof.
  apply (proj2 (findRelevant_no_words "is it" 1 ltac:(vm_compute; reflexivity))
           Samples.page_steps Chunker.default_opts).
Defined.

(* --------------------------------------------------------------------- *)
(** ** Stripping a value before it is stored *)
(* --------------------------------------------------------------------- *)

Section StripFacts.

Import Strip.

(** Induction on a value, with the property known of the items of an
    array and of the values of the entries of an object. *)
Lemma jsval_induction (P : jsval -> Prop) :
  P JUndefined -> P JNull -> (forall b, P (JBool b)) -> (forall z, P (JNum z)) ->
  (forall s, P (JStr s)) -> P JFun ->
  (forall items, Forall P items -> P (JArr items)) ->
  (forall c entries, Forall (fun e => P e.2) entries -> P (JObj c entries)) ->
  forall v, P v.
Proof.
  intros Hu Hn Hb Hz Hs Hf Ha Ho.
  fix IH 1. intros [| | b | z | s | | items | c entries].
  - exact Hu.
  - exact Hn.
  - apply Hb.
  - apply Hz.
  - apply Hs.
  - exact Hf.
  - apply Ha. induction items as [|v items IHitems]; constructor; [apply IH | exact IHitems].
  - apply Ho. induction entries as [|[k v] entries IHentries]; constructor;
      [apply IH | exact IHentries].
Qed.

Lemma strip_too_deep (v : jsval) (depth : nat) :
  10 < depth -> stripUnserializable v depth = Returned too_deep.
Proof.
  intros Hd. destruct v; cbn [stripUnserializable];
    by destruct (Nat.ltb_spec 10 depth); [|lia].
Qed.

Lemma strip_shallow (v : jsval) (depth : nat) :
  depth <= 10 ->
  stripUnserializable v depth
  = match v with
    | JFun => Returned JUndefined
    | JArr items =>
        bind (map_outcome (fun v => stripUnserializable v (S depth)) items)
             (fun items' => Returned (JArr items'))
    | JObj _ entries =>
        bind (strip_entries (fun v => stripUnserializable v (S depth)) entries)
             (fun out => Returned (JObj "Object" out))
    | _ => Returned v
    end.
Proof.
  intros Hd. destruct v; cbn [stripUnserializable]; by destruct (Nat.ltb_spec 10 depth); [lia|].
Qed.

Lemma settled_shallow (v : jsval) (depth : nat) :
  depth <= 10 ->
  settled v depth
  = match v with
    | JFun => false
    | JArr items => forallb (fun v => settled v (S depth)) items
    | JObj c entries =>
        String.eqb c "Object" &&
        forallb (fun e => negb (special_key e.1) && settled e.2 (S depth)) entries
    | _ => true
    end.
Proof.
  intros Hd. destruct v; cbn [settled]; by destruct (Nat.ltb_spec 10 depth); [lia|].
Qed.

Lemma settled_deep (v : jsval) (depth : nat) :
  10 < depth -> settled v depth = true -> v = too_deep.
Proof.
  intros Hd. destruct v; cbn [settled]; destruct (Nat.ltb_spec 10 depth); try lia; try done.
  by intros ->%String.eqb_eq.
Qed.

Lemma special_key_false (k : string) :
  special_key k = false ->
  String.eqb k "__proto__" = false /\ String.eqb k "constructor" = false.
Proof. unfold special_key. by intros [? ?]%orb_false_iff. Qed.

Lemma list_max_bound (l : list nat) (n : nat) :
  Forall (fun x => x <= n) l -> list_max l <= n.
Proof. induction 1; simpl; lia. Qed.

(** The outcomes of a loop whose steps each are outside the model or
    return a value with a property. *)
Lemma map_outcome_cases {A B : Type} (f : A -> outcome B) (P : B -> Prop) (l : list A) :
  Forall (fun x => f x = Unmodelled \/ exists y, f x = Returned y /\ P y) l ->
  map_outcome f l = Unmodelled \/
  exists ys, map_outcome f l = Returned ys /\ Forall P ys.
Proof.
  induction 1 as [|x l Hx _ IH]; cbn [map_outcome].
  - right. by exists [].
  - destruct Hx as [-> | (y & -> & Hy)]; [by left|]. cbn [bind].
    destruct IH as [-> | (ys & -> & Hys)]; [by left|]. cbn [bind].
    right. exists (y :: ys). split; [done | by constructor].
Qed.

Lemma strip_entries_cases (strip : jsval -> outcome jsval) (P : jsval -> Prop)
    (es : list (string * jsval)) :
  Forall (fun e => strip e.2 = Unmodelled \/ exists y, strip e.2 = Returned y /\ P y) es ->
  strip_entries strip es = Unmodelled \/
  exists out, strip_entries strip es = Returned out /\
              Forall (fun e => special_key e.1 = false /\ P e.2) out.
Proof.
  induction 1 as [|[k v] es Hv _ IH]; cbn [strip_entries].
  - right. by exists [].
  - destruct (is_function v); [exact IH|]. destruct (is_page v); [exact IH|].
    cbn [snd] in Hv. destruct Hv as [-> | (y & -> & Hy)]; [by left|]. cbn [bind].
    destruct (String.eqb k "__proto__") eqn:Hproto.
    { destruct (replaces_prototype y); [by left | exact IH]. }
    destruct (String.eqb k "constructor") eqn:Hctor; [by left|].
    destruct IH as [-> | (out & -> & Hout)]; [by left|]. cbn [bind].
    right. exists ((k, y) :: out). split; [done|]. constructor; [|done].
    cbn [fst snd]. unfold special_key. by rewrite Hproto, Hctor.
Qed.

Lemma strip_cases (v : jsval) (depth : nat) :
  stripUnserializable v depth = Unmodelled \/
  exists v', stripUnserializable v depth = Returned v' /\ stripped depth v'.
Proof.
  revert depth. induction v as [| | b | z | s | | items IH | c entries IH] using jsval_induction;
    intros depth;
    (destruct (Nat.le_gt_cases depth 10) as [Hd | Hd];
     [| right; exists too_deep; split; [by apply strip_too_deep|];
        split; [done|]; split; [cbn; lia|];
        cbn [settled too_deep]; by destruct (Nat.ltb_spec 10 depth); [|lia]]);
    rewrite strip_shallow by done.
  1-6: right; eexists; split; [reflexivity|];
       split; [done|]; split; [cbn; lia | by rewrite settled_shallow].
  - destruct (map_outcome_cases (fun v => stripUnserializable v (S depth))
                (stripped (S depth)) items) as [-> | (ys & -> & Hys)]; [|by left|].
    { eapply Forall_impl; [exact IH|]. intros x Hx. apply Hx. }
    right. cbn [bind]. eexists. split; [reflexivity|]. split; [|split].
    + cbn [serializable]. apply forallb_forall. intros y Hy%list_elem_of_In.
      rewrite Forall_forall in Hys. by destruct (Hys y Hy).
    + cbn [height].
      enough (list_max (List.map height ys) <= 10 - depth) by lia.
      apply list_max_bound. apply Forall_forall.
      intros n (y & <- & Hy%list_elem_of_In)%list_elem_of_In%in_map_iff.
      rewrite Forall_forall in Hys. destruct (Hys y Hy) as (_ & Hh & _). lia.
    + rewrite settled_shallow by done. apply forallb_forall. intros y Hy%list_elem_of_In.
      rewrite Forall_forall in Hys. by destruct (Hys y Hy) as (_ & _ & ?).
  - destruct (strip_entries_cases (fun v => stripUnserializable v (S depth))
                (stripped (S depth)) entries) as [-> | (out & -> & Hout)]; [|by left|].
    { eapply Forall_impl; [exact IH|]. intros x Hx. apply Hx. }
    right. cbn [bind]. eexists. split; [reflexivity|]. split; [|split].
    + cbn [serializable]. cbn [String.eqb Ascii.eqb Bool.eqb andb].
      apply forallb_forall. intros e He%list_elem_of_In.
      rewrite Forall_forall in Hout. by destruct (Hout e He) as (_ & ? & _).
    + cbn [height].
      enough (list_max (List.map (fun e => height e.2) out) <= 10 - depth) by lia.
      apply list_max_bound. apply Forall_forall.
      intros n (e & <- & He%list_elem_of_In)%list_elem_of_In%in_map_iff.
      rewrite Forall_forall in Hout. destruct (Hout e He) as (_ & _ & Hh & _). lia.
    + rewrite settled_shallow by done. cbn [String.eqb Ascii.eqb Bool.eqb andb].
      apply forallb_forall. intros e He%list_elem_of_In.
      rewrite Forall_forall in Hout. destruct (Hout e He) as (-> & _ & _ & ->). done.
Qed.

Lemma map_outcome_total {A B : Type} (f : A -> outcome B) (l : list A) :
  Forall (fun x => exists y, f x = Returned y) l -> exists ys, map_outcome f l = Returned ys.
Proof.
  induction 1 as [|x l [y Hy] _ [ys IH]]; cbn [map_outcome]; [by eexists|].
  rewrite Hy, IH. by eexists.
Qed.

Lemma strip_entries_total (strip : jsval -> outcome jsval) (es : list (string * jsval)) :
  Forall (fun e => special_key e.1 = false /\ exists y, strip e.2 = Returned y) es ->
  exists out, strip_entries strip es = Returned out.
Proof.
  induction 1 as [|[k v] es [Hk [y Hy]] _ [out IH]]; cbn [strip_entries]; [by eexists|].
  cbn [fst snd] in *. apply special_key_false in Hk as [Hproto Hctor].
  destruct (is_function v); [by eexists|]. destruct (is_page v); [by eexists|].
  rewrite Hy. cbn [bind]. rewrite Hproto, Hctor, IH. by eexists.
Qed.

Lemma strip_total (v : jsval) (depth : nat) :
  ordinary v = true -> exists v', stripUnserializable v depth = Returned v'.
Proof.
  revert depth. induction v as [| | b | z | s | | items IH | c entries IH] using jsval_induction;
    intros depth Hv;
    (destruct (Nat.le_gt_cases depth 10) as [Hd | Hd];
     [| exists too_deep; by apply strip_too_deep]);
    rewrite strip_shallow by done; try by eexists.
  - cbn [ordinary] in Hv. rewrite forallb_forall in Hv.
    destruct (map_outcome_total (fun v => stripUnserializable v (S depth)) items) as [ys ->];
      [|by eexists].
    apply Forall_forall. intros x Hx. rewrite Forall_forall in IH.
    apply (IH x Hx). by apply Hv, list_elem_of_In.
  - cbn [ordinary] in Hv. rewrite forallb_forall in Hv.
    destruct (strip_entries_total (fun v => stripUnserializable v (S depth)) entries)
      as [out ->]; [|by eexists].
    apply Forall_forall. intros e He. rewrite Forall_forall in IH.
    pose proof (Hv e (proj1 (list_elem_of_In _ _) He)) as [Hk He']%andb_true_iff.
    split; [by apply negb_true_iff|]. by apply (IH e He).
Qed.

(** X6. Whatever it is given, [stripUnserializable] returns, when the call
    is within the model, a value that holds no function and whose objects
    are all plain, nested no deeper than eleven levels counted from depth
    0. The call is within the model for every value none of whose objects
    has an entry named [__proto__] or [constructor]. *)
Theorem stripUnserializable_serializable (v : jsval) (depth : nat) :
  (ordinary v = true -> exists v', stripUnserializable v depth = Returned v') /\
  (stripUnserializable v depth = Unmodelled \/
   exists v', stripUnserializable v depth = Returned v' /\
              serializable v' = true /\ height v' <= 11 - depth).
Proof.
  split; [apply strip_total|].
  destruct (strip_cases v depth) as [Hu | (v' & Hv & Hs & Hh & _)]; [by left|].
  right. by exists v'.
Qed.

Lemma map_outcome_same {A : Type} (f : A -> outcome A) (l : list A) :
  Forall (fun x => f x = Returned x) l -> map_outcome f l = Returned l.
Proof.
  induction 1 as [|x l Hx _ IH]; cbn [map_outcome]; [done|]. by rewrite Hx, IH.
Qed.

Lemma settled_kept (v : jsval) (depth : nat) :
  settled v depth = true -> is_function v = false /\ is_page v = false.
Proof.
  intros Hv. destruct (Nat.le_gt_cases depth 10) as [Hd | Hd].
  - rewrite settled_shallow in Hv by done.
    destruct v as [| | | | | | |c es]; try done. cbn [is_function is_page].
    apply andb_true_iff in Hv as [->%String.eqb_eq _]. done.
  - by rewrite (settled_deep v depth Hd Hv).
Qed.

Lemma strip_entries_same (strip : jsval -> outcome jsval) (depth : nat)
    (es : list (string * jsval)) :
  Forall (fun e => special_key e.1 = false /\ settled e.2 depth = true /\
                   strip e.2 = Returned e.2) es ->
  strip_entries strip es = Returned es.
Proof.
  induction 1 as [|[k v] es (Hk & Hs & Hv) _ IH]; cbn [strip_entries]; [done|].
  cbn [fst snd] in *. apply special_key_false in Hk as [Hproto Hctor].
  destruct (settled_kept v depth Hs) as [-> ->].
  by rewrite Hv; cbn [bind]; rewrite Hproto, Hctor, IH.
Qed.

Lemma strip_settled (v : jsval) (depth : nat) :
  settled v depth = true -> stripUnserializable v depth = Returned v.
Proof.
  revert depth. induction v as [| | b | z | s | | items IH | c entries IH] using jsval_induction;
    intros depth Hv;
    (destruct (Nat.le_gt_cases depth 10) as [Hd | Hd];
     [| by rewrite strip_too_deep, (settled_deep _ depth Hd Hv)]);
    rewrite settled_shallow in Hv by done; rewrite strip_shallow by done; try done.
  - rewrite forallb_forall in Hv. rewrite map_outcome_same; [done|].
    apply Forall_forall. intros x Hx. rewrite Forall_forall in IH.
    apply (IH x Hx). by apply Hv, list_elem_of_In.
  - apply andb_true_iff in Hv as [->%String.eqb_eq Hv]. rewrite forallb_forall in Hv.
    rewrite (strip_entries_same _ (S depth)); [done|].
    apply Forall_forall. intros e He. rewrite Forall_forall in IH.
    pose proof (Hv e (proj1 (list_elem_of_In _ _) He)) as [Hk He']%andb_true_iff.
    split; [by apply negb_true_iff|]. split; [done|]. by apply (IH e He).
Qed.

(** X7. The values [stripUnserializable] returns unchanged are the settled
    ones, and what it returns is settled: stripping a second time changes
    nothing. *)
Theorem stripUnserializable_idempotent (v : jsval) (depth : nat) :
  (stripUnserializable v depth = Returned v <-> settled v depth = true) /\
  (forall v', stripUnserializable v depth = Returned v' ->
              stripUnserializable v' depth = Returned v').
Proof.
  split; [split|].
  - intros Hv. destruct (strip_cases v depth) as [Hu | (v' & Hv' & _ & _ & Hs)];
      [congruence|]. rewrite Hv in Hv'. by injection Hv' as <-.
  - apply strip_settled.
  - intros v' Hv. destruct (strip_cases v depth) as [Hu | (v'' & Hv' & _ & _ & Hs)];
      [congruence|]. rewrite Hv in Hv'. injection Hv' as <-. by apply strip_settled.
Qed.

End StripFacts.

(** A result with a function, a browser page and a primitive under
    [__proto__] loses the three; an array under [__proto__] or an entry
    named [constructor] takes the call out of the model; a second pass
    returns the first result. *)
Example stripUnserializable_samples :
  let result :=
    Strip.JObj "Object"
      [ ("backend", Strip.JStr "lite"); ("log", Strip.JFun);
        ("page", Strip.JObj "Page" [("url", Strip.JStr "u")]);
        ("__proto__", Strip.JNum 1);
        ("data", Strip.JArr [Strip.JNum 1; Strip.JFun; Strip.JObj "Date" []]) ] in
  let safe :=
    Strip.JObj "Object"
      [ ("backend", Strip.JStr "lite");
        ("data", Strip.JArr [Strip.JNum 1; Strip.JUndefined; Strip.JObj "Object" []]) ] in
  Strip.stripUnserializable result 0 = Returned safe /\
  Strip.stripUnserializable safe 0 = Returned safe /\
  Strip.stripUnserializable
    (Strip.JObj "Object" [("__proto__", Strip.JArr []); ("b", Strip.JNum 2)]) 0
  = Unmodelled /\
  Strip.stripUnserializable
    (Strip.JObj "Object" [("constructor", Strip.JObj "Object" [("name", Strip.JStr "Page")])]) 0
  = Unmodelled.
Proof. vm_compute. repeat split. Qed.

(* --------------------------------------------------------------------- *)
(** ** More on the orchestrator *)
(* --------------------------------------------------------------------- *)

Section RenderMore.

Import Page Chunker Lite Orchestrator Notions.

Variable parseHTML : string -> string -> PageRecord.
Variable serialize : RenderResult -> string.
Variable JSON_parse : string -> option RenderResult.

(** [buildResult] catches what the chunking throws. *)
Lemma buildResult_cases url tag d page q limit elapsed :
  buildResult url tag d page q limit elapsed = Unmodelled \/
  exists r, buildResult url tag d page q limit elapsed = Returned r /\
            backend r = tag /\ error r = None /\ cached r = false /\ data r = Some page.
Proof.
  unfold buildResult.
  match goal with |- context [match ?x with Returned _ => _ | _ => _ end] => destruct x end.
  - right. eexists. by split.
  - right. eexists. by split.
  - by left.
Qed.

(** The ways a call of [render] ends: outside the modelled fragment, with
    a cached result, with an error result, with the result of the
    fallback, or with the result of the backend chosen first, which is
    stored unless [noCache] is set. *)
Lemma render_cases (w : World) (url : string) (o : Options) (st : CacheState) :
  let l := cache_lookup JSON_parse w url o st in
  render parseHTML serialize JSON_parse w url o st = Unmodelled \/
  exists r st',
    render parseHTML serialize JSON_parse w url o st = Returned (r, st') /\
    ((is_Some l.1 /\ cached r = true /\ st' = Opened l.2) \/
     (l.1 = None /\ cached r = false /\ backend r = "error" /\ is_Some (error r) /\
      data r = None /\ st' = Opened l.2) \/
     (l.1 = None /\ cached r = false /\ backend r = "lite-fallback" /\ error r = None /\
      st' = Opened l.2) \/
     (l.1 = None /\ cached r = false /\ (backend r = "lite" \/ backend r = "playwright") /\
      error r = None /\
      st' = Opened (if noCache o then l.2
                    else cache_set serialize (t_set w) (t_evict w) url
                           (default EmptyString (query o)) r
                           (Some (store_ttl o (backend r))) l.2))).
Proof.
  cbv zeta. unfold render. fold (cache_lookup JSON_parse w url o st).
  destruct (cache_lookup JSON_parse w url o st) as [[c0|] c] eqn:Hl; cbn [fst snd].
  { right. eexists _, _. split; [reflexivity|]. left. repeat split; by eexists. }
  destruct (fetched w) as [f|msg|]; [| |by left].
  2:{ right. eexists _, _. split; [reflexivity|]. right. left.
      repeat split; try done; try by eexists. }
  set (useLite := match force o with Some (String _ _ as how) => String.eqb how "lite"
                                   | _ => negb (Detect.isSPA (Detect.detectSPA (html f))) end).
  destruct useLite.
  - destruct (renderLite parseHTML url (Some (html f)) (lite_fetch w)) as [page|msg|];
      [| |by left].
    + destruct (buildResult_cases url "lite" (Detect.detectSPA (html f)) page (query o)
                  (default 8 (chunkLimit o)) (t_ms w - t0 w)%Z)
        as [-> | (r & -> & Hb & He & Hc & Hd)]; [by left|].
      right. cbn [bind]. rewrite Hb. cbn [String.eqb Ascii.eqb Bool.eqb negb].
      rewrite andb_true_r.
      destruct (noCache o); cbn [negb]; eexists _, _; (split; [reflexivity|]);
        right; right; right; rewrite ?Hb; repeat split; auto.
    + right. cbn [String.eqb Ascii.eqb Bool.eqb].
      eexists _, _. split; [reflexivity|]. right. left.
      repeat split; try done; try by eexists.
  - destruct (browser w) as [page|msg|]; [| |by left].
    + destruct (buildResult_cases url "playwright" (Detect.detectSPA (html f)) page (query o)
                  (default 8 (chunkLimit o)) (t_ms w - t0 w)%Z)
        as [-> | (r & -> & Hb & He & Hc & Hd)]; [by left|].
      right. cbn [bind]. rewrite Hb. cbn [String.eqb Ascii.eqb Bool.eqb negb].
      rewrite andb_true_r.
      destruct (noCache o); cbn [negb]; eexists _, _; (split; [reflexivity|]);
        right; right; right; rewrite ?Hb; repeat split; auto.
    + cbn [String.eqb Ascii.eqb Bool.eqb].
      destruct (renderLite parseHTML url (Some (html f)) (lite_fetch w)) as [page|e2|];
        [| |by left].
      * destruct (buildResult_cases url "lite-fallback" (Detect.detectSPA (html f)) page
                    (query o) (default 8 (chunkLimit o)) (t_ms w - t0 w)%Z)
          as [-> | (r & -> & Hb & He & Hc & Hd)]; [by left|].
        right. cbn [bind]. eexists _, _. split; [reflexivity|].
        right. right. left. repeat split; done.
      * right. eexists _, _. split; [reflexivity|]. right. left.
        repeat split; try done; try by eexists.
Qed.

(** X13. [render] never throws: what its steps throw is caught and reported as
    a result whose backend is error. Among the results that do not come
    from the cache these are exactly the ones with an [error]; they carry
    no page, and they are never stored. *)
Theorem render_reports_errors (w : World) (url : string) (o : Options) (st : CacheState) :
  (forall msg, render parseHTML serialize JSON_parse w url o st <> Threw msg) /\
  (forall r st',
     render parseHTML serialize JSON_parse w url o st = Returned (r, st') ->
     cached r = false ->
     (backend r = "error" <-> is_Some (error r)) /\
     (backend r = "error" ->
        data r = None /\ st' = Opened (cache_lookup JSON_parse w url o st).2)).
Proof.
  destruct (render_cases w url o st) as [Hu | (r & st' & Hr & Hcases)]; cbv zeta in *.
  - split; intros; congruence.
  - split; [intros; congruence|].
    intros r0 st0 Hr0 Hc. rewrite Hr in Hr0. injection Hr0 as <- <-.
    destruct Hcases as [(_ & Hc' & _) | [(_ & _ & Hb & He & Hd & Hst)
                       | [(_ & _ & Hb & He & Hst) | (_ & _ & Hb & He & Hst)]]].
    + congruence.
    + done.
    + rewrite Hb, He. split; [split; [done | by intros [? ?]] | done].
    + rewrite He. split; [split; [by destruct Hb as [-> | ->] | by intros [? ?]]|].
      by destruct Hb as [-> | ->].
Qed.

(** X14. With [noCache] set, [render] neither reads the cache nor writes to it:
    the result is not a cached one, and the cache is left as [getCache]
    returned it. *)
Theorem render_noCache (w : World) (url : string) (o : Options) (st : CacheState) :
  noCache o = true ->
  match render parseHTML serialize JSON_parse w url o st with
  | Returned (r, st') => cached r = false /\ st' = Opened (getCache (t_open w) st)
  | Threw _ => False
  | Unmodelled => True
  end.
Proof.
  intros Hnc.
  destruct (render_cases w url o st) as [-> | (r & st' & -> & Hcases)]; [done|].
  cbv zeta in Hcases. unfold cache_lookup in Hcases. rewrite Hnc in Hcases.
  cbn [negb andb fst snd] in Hcases.
  destruct Hcases as [([? ?] & _) | [(_ & Hc & _ & _ & _ & Hst)
                     | [(_ & Hc & _ & _ & Hst) | (_ & Hc & _ & _ & Hst)]]]; done.
Qed.

(** X15. A result that [render] stores is served by the next call for the same
    address and query: when the first call returns a result of the lite or
    the browser backend, the cache had room for it, and the second call
    looks it up before its time to live has passed, the second call
    returns what [JSON.parse] makes of the stored text, marked as cached
    and with its own [ms], and counts one hit. *)
Theorem render_second_call (w1 w2 : World) (url : string) (o : Options) (st st1 : CacheState)
    (r r' : RenderResult) :
  noCache o = false ->
  truthy (force o) = false ->
  render parseHTML serialize JSON_parse w1 url o st = Returned (r, st1) ->
  cached r = false ->
  backend r = "lite" \/ backend r = "playwright" ->
  size (Cache.db (cache_lookup JSON_parse w1 url o st).2)
  < Cache.maxEntries (cache_lookup JSON_parse w1 url o st).2 ->
  (t_get w2 <= t_set w1 + store_ttl o (backend r))%Z ->
  JSON_parse (serialize r) = Some r' ->
  exists c2,
    render parseHTML serialize JSON_parse w2 url o st1
    = Returned ({| r_url := r_url r'; backend := backend r'; detection := detection r';
                   data := data r'; r_chunks := r_chunks r'; summary := summary r';
                   ms := t_ms w2 - t0 w2; cached := true; error := error r' |},
                Opened c2) /\
    Cache.hit_count <$> (Cache.db c2 !! (url, default EmptyString (query o))) = Some 1%Z.
Proof.
  intros Hnc Hforce Hfirst Hfresh Hb Hroom Hlive Hparse.
  destruct (render_cases w1 url o st) as [Hu | (r0 & st0 & Hr & Hcases)]; [congruence|].
  rewrite Hfirst in Hr. injection Hr as <- <-. cbv zeta in Hcases.
  set (c := (cache_lookup JSON_parse w1 url o st).2) in *.
  assert (Hst1 : st1 = Opened (cache_set serialize (t_set w1) (t_evict w1) url
                                 (default EmptyString (query o)) r
                                 (Some (store_ttl o (backend r))) c)).
  { destruct Hcases as [(_ & Hc & _) | [(_ & _ & Hb' & _)
                       | [(_ & _ & Hb' & _) | (_ & _ & _ & _ & Hst)]]].
    - congruence.
    - destruct Hb as [Hb | Hb]; congruence.
    - destruct Hb as [Hb | Hb]; congruence.
    - by rewrite Hnc in Hst. }
  subst st1. unfold render. cbn [getCache]. rewrite Hnc, Hforce. cbn [negb andb].
  unfold cache_get, cache_set, Cache.set.
  set (c1 := Cache.upsert _ serialize (t_set w1) url _ r _ c).
  assert (Hevict : Cache._evictIfNeeded (t_evict w1) c1 = c1).
  { unfold Cache._evictIfNeeded.
    destruct (Nat.leb_spec (size (Cache.db c1)) (Cache.maxEntries c1)) as [|Hover]; [done|].
    exfalso. unfold c1 in Hover. rewrite upsert_db in Hover.
    cbn [Cache.upsert Cache.maxEntries Cache.with_db] in Hover.
    rewrite map_size_insert in Hover.
    destruct (Cache.db c !! _); unfold Datatypes.id in Hover; lia. }
  rewrite Hevict. unfold Cache.get.
  assert (Hrow : Cache.db c1 !! (url, default EmptyString (query o))
                 = Some (CacheRuns.fresh_row (fun r => Some (backend r)) serialize (t_set w1) r
                           (store_ttl o (backend r)))).
  { unfold c1. rewrite upsert_db. apply lookup_insert_eq. }
  rewrite Hrow. cbn [CacheRuns.fresh_row Cache.expires_at Cache.result_json].
  destruct (Z.ltb_spec (t_set w1 + store_ttl o (backend r)) (t_get w2)); [lia|].
  rewrite Hparse. eexists. split; [reflexivity|].
  cbn [Cache.db Cache.with_db]. by rewrite lookup_insert_eq.
Qed.

End RenderMore.

Lemma render_noCache_witness :
  let o := {| Orchestrator.force := None; Orchestrator.query := None;
              Orchestrator.chunkLimit := None; Orchestrator.timeout := None;
              Orchestrator.noCache := true; Orchestrator.cacheTtlMs := None |} in
  exists r st',
    Orchestrator.render Samples.bare_parser Samples.no_serialize Samples.no_parse
      Samples.world_browser "https://a.example/" o (Orchestrator.Closed ∅)
    = Returned (r, st') /\
    Orchestrator.cached r = false /\
    st' = Orchestrator.Opened (Orchestrator.getCache 100 (Orchestrator.Closed ∅)).
Proof.
  cbv zeta.
  pose proof (render_noCache Samples.bare_parser Samples.no_serialize Samples.no_parse
                Samples.world_browser "https://a.example/"
                {| Orchestrator.force := None; Orchestrator.query := None;
                   Orchestrator.chunkLimit := None; Orchestrator.timeout := None;
                   Orchestrator.noCache := true; Orchestrator.cacheTtlMs := None |}
                (Orchestrator.Closed ∅) eq_refl) as H.
  destruct (Orchestrator.render _ _ _ _ _ _ _) as [[r st']| |] eqn:E.
  - exists r, st'. split; [reflexivity | exact H].
  - destruct H.
  - vm_compute in E. discriminate E.
Defined.

Lemma render_second_call_witness :
  let stored := Orchestrator.error_result "https://a.example/" "stored" 0 in
  let parse := fun _ : string => Some stored in
  exists r st1 c2,
    Orchestrator.render Samples.bare_parser Samples.no_serialize parse
      Samples.world_browser "https://a.example/" Samples.no_options (Orchestrator.Closed ∅)
    = Returned (r, st1) /\
    Orchestrator.render Samples.bare_parser Samples.no_serialize parse
      Samples.world_no_browser "https://a.example/" Samples.no_options st1
    = Returned ({| Orchestrator.r_url := "https://a.example/"; Orchestrator.backend := "error";
                   Orchestrator.detection := None; Orchestrator.data := None;
                   Orchestrator.r_chunks := None; Orchestrator.summary := None;
                   Orchestrator.ms := 50; Orchestrator.cached := true;
                   Orchestrator.error := Some "stored" |},
                Orchestrator.Opened c2) /\
    Cache.hit_count <$> (Cache.db c2 !! ("https://a.example/", "")) = Some 1%Z.
Proof.
  cbv zeta.
  let v := eval vm_compute in
      (Orchestrator.render Samples.bare_parser Samples.no_serialize
         (fun _ : string => Some (Orchestrator.error_result "https://a.example/" "stored" 0))
         Samples.world_browser "https://a.example/" Samples.no_options (Orchestrator.Closed ∅)) in
  lazymatch v with
  | Returned (?r, ?s) =>
      assert (E : Orchestrator.render Samples.bare_parser Samples.no_serialize
                    (fun _ : string =>
                       Some (Orchestrator.error_result "https://a.example/" "stored" 0))
                    Samples.world_browser "https://a.example/" Samples.no_options
                    (Orchestrator.Closed ∅) = Returned (r, s))
        by (vm_compute; reflexivity);
      destruct (render_second_call Samples.bare_parser Samples.no_serialize
                  (fun _ : string =>
                     Some (Orchestrator.error_result "https://a.example/" "stored" 0))
                  Samples.world_browser Samples.world_no_browser "https://a.example/"
                  Samples.no_options (Orchestrator.Closed ∅) s r
                  (Orchestrator.error_result "https://a.example/" "stored" 0))
        as (c2 & Hsecond & Hhit);
      [ reflexivity | reflexivity | exact E | reflexivity | right; reflexivity
      | vm_compute; lia | vm_compute; discriminate | reflexivity
      | exists r, s, c2; split; [exact E | split; [exact Hsecond | exact Hhit]] ]
  end.
Defined.

(* --------------------------------------------------------------------- *)
(** ** The matcher consumes input *)
(* --------------------------------------------------------------------- *)

Section MatcherFacts.

Import Captures.

Lemma star_loop_le (step : cursor -> list cursor) (g : bool) (fuel : nat) (c c' : cursor) :
  In c' (star_loop step g fuel c) -> String.length (snd c') <= String.length (snd c).
Proof.
  revert c. induction fuel as [|f IH]; intros c; cbn [star_loop].
  - intros [<- | []]. done.
  - intros Hin.
    assert (Hcases : c' = c \/
              In c' (flat_map (star_loop step g f) (List.filter (shorter c) (step c)))).
    { destruct g.
      - apply in_app_or in Hin as [Hin | [<- | []]]; [by right | by left].
      - destruct Hin as [<- | Hin]; [by left | by right]. }
    destruct Hcases as [-> | (c1 & Hc1 & Hin')%in_flat_map]; [done|].
    apply filter_In in Hc1 as [_ Hshort]. unfold shorter in Hshort.
    apply Nat.ltb_lt in Hshort. apply IH in Hin'. lia.
Qed.

(** A match never gives back input: the cursor after it has no more left
    than the cursor before. *)
Lemma run_le (r : regex) (c c' : cursor) :
  In c' (run r c) -> String.length (snd c') <= String.length (snd c).
Proof.
  revert c c'. induction r as [|p|p|a IHa b IHb|a IHa b IHb|g a IHa]; intros c c'; cbn [run].
  - intros [<- | []]. done.
  - destruct c as [prev [|x s]]; cbn [snd]; [done|].
    destruct (p x); [|done]. intros [<- | []]. cbn. lia.
  - destruct (p c.1 c.2); [|done]. intros [<- | []]. done.
  - intros (c1 & Hc1 & Hc')%in_flat_map. apply IHa in Hc1. apply IHb in Hc'. lia.
  - intros [Hin | Hin]%in_app_or; [by apply IHa | by apply IHb].
  - apply star_loop_le.
Qed.

Lemma run_pieces_le (ps : list piece) (caps caps' : list string) (c c' : cursor) :
  In (caps', c') (run_pieces ps caps c) -> String.length (snd c') <= String.length (snd c).
Proof.
  revert caps c. induction ps as [|[r|r|n] ps IH]; intros caps c; cbn [run_pieces].
  - intros [[= <- <-] | []]. done.
  - intros (c1 & Hc1%run_le & Hc'%IH)%in_flat_map. lia.
  - intros (c1 & Hc1%run_le & Hc'%IH)%in_flat_map. lia.
  - intros (c1 & Hc1%run_le & Hc'%IH)%in_flat_map. lia.
Qed.

(** The groups of a match extend the groups it began with. *)
Lemma run_pieces_groups (ps : list piece) (caps caps' : list string) (c c' : cursor) :
  In (caps', c') (run_pieces ps caps c) -> exists more, caps' = caps ++ more.
Proof.
  revert caps c. induction ps as [|[r|r|n] ps IH]; intros caps c; cbn [run_pieces].
  - intros [[= <- <-] | []]. exists []. by rewrite app_nil_r.
  - intros (c1 & _ & Hc'%IH)%in_flat_map. exact Hc'.
  - intros (c1 & _ & (more & ->)%IH)%in_flat_map.
    exists (consumed c c1 :: more). by rewrite <- app_assoc.
  - intros (c1 & _ & Hc'%IH)%in_flat_map. exact Hc'.
Qed.

(** The first group of a pattern that opens with a plain piece and a
    group. *)
Lemma run_pieces_first_group (r g : regex) (ps : list piece) (caps' : list string)
    (c c' : cursor) :
  In (caps', c') (run_pieces (Plain r :: Group g :: ps) [] c) ->
  exists c1 c2 more, In c2 (run g c1) /\ caps' = consumed c1 c2 :: more.
Proof.
  cbn [run_pieces].
  intros (c1 & _ & (c2 & Hc2 & (more & ->)%run_pieces_groups)%in_flat_map)%in_flat_map.
  by exists c1, c2, more.
Qed.

(** The text a character and a character of a class consume. *)
Lemma run_two_chars (p q : ascii -> bool) (c1 c2 : cursor) :
  In c2 (run (Cat (Chr p) (Chr q)) c1) ->
  exists a d, consumed c1 c2 = String a (String d EmptyString) /\
              p a = true /\ q d = true.
Proof.
  cbn [run]. intros (c0 & Hc0 & Hc2)%in_flat_map.
  destruct c1 as [p1 [|a [|d s]]]; cbn [snd] in *; [done| |].
  - destruct (p a); [|done]. by destruct Hc0 as [<- | []].
  - destruct (p a) eqn:Ha; [|done]. destruct Hc0 as [<- | []].
    cbn [snd] in Hc2. destruct (q d) eqn:Hd; [|done]. destruct Hc2 as [<- | []].
    exists a, d. split; [|done].
    unfold consumed. cbn [snd String.length].
    replace (S (S (String.length s)) - String.length s) with 2 by lia. done.
Qed.

(** A literal character consumes one character. *)
Lemma run_chr_lt (p : ascii -> bool) (c c' : cursor) :
  In c' (run (Chr p) c) -> String.length (snd c') < String.length (snd c).
Proof.
  cbn [run]. destruct c as [prev [|x s]]; cbn [snd]; [done|].
  destruct (p x); [|done]. intros [<- | []]. cbn. lia.
Qed.

Lemma run_pieces_lt (ps : list piece) (caps' : list string) (c c' : cursor) :
  begins_with_char ps ->
  In (caps', c') (run_pieces ps [] c) -> String.length (snd c') < String.length (snd c).
Proof.
  intros (p & r & ps' & [-> | ->]); cbn [run_pieces run];
    intros (c1 & (c0 & Hc0%run_chr_lt & Hc1%run_le)%in_flat_map & Hc'%run_pieces_le)%in_flat_map;
    lia.
Qed.

Lemma str_take_nonempty (n : nat) (s : string) :
  0 < n -> s <> EmptyString -> str_take n s <> EmptyString.
Proof. destruct n, s; cbn; intros; try done; lia. Qed.

Lemma exec_found (ps : list piece) (prev : option ascii) (s : string) (m : hit) :
  exec ps prev s = Some m ->
  exists c, In (groups m, rest m) (run_pieces ps [] c) /\ whole m = consumed c (rest m).
Proof.
  revert prev. induction s as [|ch s IH]; intros prev; cbn [exec].
  - destruct (run_pieces ps [] (prev, EmptyString)) as [|[caps c'] l] eqn:Hrun; [done|].
    intros [= <-]. exists (prev, EmptyString). cbn [groups rest whole].
    split; [rewrite Hrun; by left | done].
  - destruct (run_pieces ps [] (prev, String ch s)) as [|[caps c'] l] eqn:Hrun.
    + apply IH.
    + intros [= <-]. exists (prev, String ch s). cbn [groups rest whole].
      split; [rewrite Hrun; by left | done].
Qed.

Lemma exec_loop_found (ps : list piece) (fuel : nat) (prev : option ascii) (s : string)
    (m : hit) :
  In m (exec_loop ps fuel prev s) ->
  exists c, In (groups m, rest m) (run_pieces ps [] c) /\ whole m = consumed c (rest m).
Proof.
  revert prev s. induction fuel as [|f IH]; intros prev s; cbn [exec_loop]; [done|].
  destruct (exec ps prev s) as [m0|] eqn:Hexec; [|done].
  intros Hin.
  assert (Hcases : m = m0 \/ In m (exec_loop ps f (fst (rest m0)) (snd (rest m0)))).
  { destruct (whole m0); destruct Hin as [<- | Hin]; auto. destruct Hin. }
  destruct Hcases as [-> | Hin']; [by apply (exec_found ps prev s) | by apply IH in Hin'].
Qed.

Lemma consumed_nonempty (c c' : cursor) :
  String.length (snd c') < String.length (snd c) -> consumed c c' <> EmptyString.
Proof.
  intros Hlt. unfold consumed. apply str_take_nonempty; [lia|].
  intros He. rewrite He in Hlt. cbn in Hlt. lia.
Qed.

End MatcherFacts.

(* --------------------------------------------------------------------- *)
(** ** The extractors *)
(* --------------------------------------------------------------------- *)

Section ExtractFacts.

Import Page Captures Extract.

(** X17. No pattern that an extractor runs in a loop over [exec] can match the
    empty text: each begins with a literal character. Every match moves
    the position the next search starts from, so the loops come to an
    end on every input. *)
Theorem extractor_loops_advance :
  Forall (fun ps => forall prev s m,
            exec ps prev s = Some m ->
            whole m <> EmptyString /\
            String.length (snd (rest m)) < String.length s)
         looped_patterns.
Proof.
  assert (Hstep : forall ps, begins_with_char ps ->
            forall prev s m, exec ps prev s = Some m ->
            whole m <> EmptyString /\ String.length (snd (rest m)) < String.length s).
  { intros ps Hps prev s. revert prev.
    induction s as [|ch s IH]; intros prev m; cbn [exec].
    - destruct (run_pieces ps [] (prev, EmptyString)) as [|[caps c'] l] eqn:Hrun; [done|].
      assert (Hin : In (caps, c') (run_pieces ps [] (prev, EmptyString)))
        by (rewrite Hrun; by left).
      apply (run_pieces_lt ps caps _ c' Hps) in Hin. cbn in Hin. lia.
    - destruct (run_pieces ps [] (prev, String ch s)) as [|[caps c'] l] eqn:Hrun.
      + intros Hm. destruct (IH _ _ Hm) as [Hw Hlt]. split; [done | cbn; lia].
      + intros [= <-]. cbn [whole rest].
        assert (Hin : In (caps, c') (run_pieces ps [] (prev, String ch s)))
          by (rewrite Hrun; by left).
        apply (run_pieces_lt ps caps _ c' Hps) in Hin.
        split; [by apply consumed_nonempty | done]. }
  unfold looped_patterns.
  repeat (constructor;
          [apply Hstep; eexists _, _, _; first [left; reflexivity | right; reflexivity]|]).
  constructor.
Qed.

(** *** Headings *)

Lemma heading_tag (m : hit) (html : string) :
  m ∈ exec_all headingPattern html ->
  exists a d more,
    groups m = String a (String d EmptyString) :: more /\
    char_eqb_ci "h" a = true /\ 1 <= code d - 48 <= 6.
Proof.
  intros Hm%list_elem_of_In. apply exec_loop_found in Hm as (c & Hin & _).
  apply run_pieces_first_group in Hin as (c1 & c2 & more & Hc2 & ->).
  apply run_two_chars in Hc2 as (a & d & -> & Ha & Hd).
  exists a, d, more. split; [done|]. split; [done|].
  apply andb_true_iff in Hd as [Hlo%Nat.leb_le Hhi%Nat.leb_le].
  change (code "1") with 49 in Hlo. change (code "6") with 54 in Hhi. lia.
Qed.

(** X18. Every heading [extractHeadings] lists has a text and a level from 1
    to 6: the tag a match captures is the letter h and one digit from 1 to
    6, and the level is that digit. *)
Theorem extractHeadings_levels (html : string) :
  Forall (fun h => (level h <= 6)%positive /\ h_text h <> EmptyString)
         (extractHeadings html) /\
  Forall (fun m => exists a d,
            group m 0 = String a (String d EmptyString) /\
            char_eqb_ci "h" a = true /\ 1 <= code d - 48 <= 6 /\
            level_of (group m 0) = Pos.of_nat (code d - 48))
         (exec_all headingPattern html).
Proof.
  split.
  - apply Forall_forall. intros h (m & Hm & Hh)%list_elem_of_omap.
    destruct (heading_tag m html Hm) as (a & d & more & Hg & _ & Hd).
    unfold heading_of in Hh. cbv zeta in Hh.
    destruct (trim (stripTags (group m 1))) as [|x t] eqn:Ht; [done|].
    injection Hh as <-. cbn [level h_text]. split; [|done].
    unfold group. rewrite Hg.
    change (level_of _) with (Pos.of_nat (code d - 48)). lia.
  - apply Forall_forall. intros m Hm.
    destruct (heading_tag m html Hm) as (a & d & more & Hg & Ha & Hd).
    exists a, d. unfold group. rewrite Hg. done.
Qed.

(** *** Links *)

Lemma str_take_length (n : nat) (s : string) : String.length (str_take n s) <= n.
Proof.
  revert s. induction n as [|n IH]; intros [|c s]; cbn; try lia.
  specialize (IH s). lia.
Qed.

Section LinkFacts.

Variable resolve : string -> string -> option string.
Variable baseUrl : string.

Lemma links_inv_step (anchors : list hit) (st : gset string * list Link) (m : hit) :
  links_inv resolve baseUrl anchors st ->
  links_inv resolve baseUrl (anchors ++ [m]) (link_step resolve baseUrl st m).
Proof.
  intros (Hseen & Hlinks & Hnodup).
  assert (Hlast : forall i m0, (anchors ++ [m]) !! i = Some m0 ->
            (i < length anchors /\ anchors !! i = Some m0) \/ (i = length anchors /\ m0 = m)).
  { intros i m0 Hi. destruct (Nat.lt_ge_cases i (length anchors)) as [Hlt | Hge].
    - left. by rewrite lookup_app_l in Hi.
    - right. rewrite lookup_app_r in Hi by done.
      destruct (i - length anchors) as [|k] eqn:Hk; [|by destruct k].
      injection Hi as <-. split; [lia | done]. }
  assert (Hold : forall i m0, anchors !! i = Some m0 -> (anchors ++ [m]) !! i = Some m0).
  { intros i m0 Hi. rewrite lookup_app_l; [done|]. by apply lookup_lt_Some in Hi. }
  assert (Hnew : (anchors ++ [m]) !! length anchors = Some m).
  { rewrite lookup_app_r by done. by rewrite Nat.sub_diag. }
  assert (Hkeep : forall l, anchor_target resolve baseUrl m <> Some (href l) \/
                            anchor_text m = EmptyString \/
                            href l ∈ st.1 ->
            (first_anchor resolve baseUrl (anchors ++ [m]) l
             <-> first_anchor resolve baseUrl anchors l)).
  { intros l Hwhy. split.
    - intros (i & m0 & Hi & Ht & Htxt & Hl & Hfirst).
      destruct (Hlast i m0 Hi) as [[Hlt Hi'] | [-> ->]].
      + exists i, m0. repeat split; try done.
        intros j m' Hj Hm'. apply (Hfirst j m' Hj). by apply Hold.
      + destruct Hwhy as [Hwhy | [Hwhy | Hwhy]]; [done | done |].
        apply Hseen in Hwhy as (j & m' & Hj & Hm').
        exfalso. apply (Hfirst j m'); [by apply lookup_lt_Some in Hj | by apply Hold | done].
    - intros (i & m0 & Hi & Ht & Htxt & Hl & Hfirst).
      exists i, m0. split; [by apply Hold|]. repeat split; try done.
      intros j m' Hj Hm'. destruct (Hlast j m' Hm') as [[_ Hm''] | [-> _]].
      + by apply (Hfirst j).
      + apply lookup_lt_Some in Hi. lia. }
  unfold link_step.
  destruct (anchor_target resolve baseUrl m) as [t|] eqn:Ht.
  2:{ split; [|split]; [| |done].
      - intros t. rewrite Hseen. split.
        + intros (i & m0 & Hi & Hm0). exists i, m0. split; [by apply Hold | done].
        + intros (i & m0 & Hi & Hm0). destruct (Hlast i m0 Hi) as [[_ Hi'] | [_ ->]].
          * by exists i, m0.
          * congruence.
      - intros l. rewrite Hlinks. symmetry. apply Hkeep. by left. }
  destruct (decide (t ∈ st.1)) as [Hin | Hnin].
  { split; [|split]; [| |done].
    - intros t'. rewrite Hseen. split.
      + intros (i & m0 & Hi & Hm0). exists i, m0. split; [by apply Hold | done].
      + intros (i & m0 & Hi & Hm0). destruct (Hlast i m0 Hi) as [[_ Hi'] | [_ ->]].
        * by exists i, m0.
        * rewrite Ht in Hm0. injection Hm0 as <-. by apply Hseen.
    - intros l. rewrite Hlinks. symmetry. apply Hkeep.
      destruct (decide (t = href l)) as [-> | Hne]; [by right; right | left; congruence]. }
  assert (Hseen' : forall t', t' ∈ ({[t]} ∪ st.1 : gset string) <->
            exists i m0, (anchors ++ [m]) !! i = Some m0 /\
                         anchor_target resolve baseUrl m0 = Some t').
  { intros t'. rewrite elem_of_union, elem_of_singleton, Hseen. split.
    - intros [-> | (i & m0 & Hi & Hm0)].
      + by exists (length anchors), m.
      + exists i, m0. split; [by apply Hold | done].
    - intros (i & m0 & Hi & Hm0). destruct (Hlast i m0 Hi) as [[_ Hi'] | [_ ->]].
      + right. by exists i, m0.
      + left. congruence. }
  destruct (anchor_text m) as [|x txt] eqn:Htxt; cbv zeta.
  { split; [|split]; [done| |done].
    intros l. cbn [snd]. rewrite Hlinks. symmetry. apply Hkeep. right. by left. }
  split; [|split]; [done| |].
  - intros l. cbn [snd]. rewrite elem_of_app, list_elem_of_singleton, Hlinks. split.
    + intros [(i & m0 & Hi & Hm0 & Hrest) | ->].
      * exists i, m0. split; [by apply Hold|]. split; [done|].
        destruct Hrest as (Htx & Hl & Hfirst). repeat split; try done.
        intros j m' Hj Hm'. destruct (Hlast j m' Hm') as [[_ Hm''] | [-> _]].
        -- by apply (Hfirst j).
        -- apply lookup_lt_Some in Hi. lia.
      * exists (length anchors), m. cbn [href l_text].
        split; [done|]. split; [done|]. rewrite Htxt. repeat split; try done.
        intros j m' Hj Hm' Hm''. apply Hnin, Hseen.
        destruct (Hlast j m' Hm') as [[_ Hj'] | [-> _]]; [by exists j, m' | lia].
    + intros (i & m0 & Hi & Hm0 & Htx & Hl & Hfirst).
      destruct (Hlast i m0 Hi) as [[Hlt Hi'] | [-> ->]].
      * left. exists i, m0. repeat split; try done.
        intros j m' Hj Hm'. apply (Hfirst j m' Hj). by apply Hold.
      * right. destruct l as [lt lh]. cbn [href l_text] in *.
        rewrite Htxt in Hl. rewrite Ht in Hm0. injection Hm0 as <-. by rewrite Hl.
  - cbn [snd]. rewrite List.map_app. cbn [List.map href].
    apply NoDup_app. split; [done|]. split; [|apply NoDup_singleton].
    intros h Hh ->%list_elem_of_singleton.
    apply list_elem_of_In, in_map_iff in Hh as (l & Hl & Hin%list_elem_of_In).
    apply Hlinks in Hin as (i & m0 & Hi & Hm0 & _).
    apply Hnin, Hseen. exists i, m0. by rewrite Hl in Hm0.
Qed.

Lemma links_inv_fold (anchors : list hit) :
  links_inv resolve baseUrl anchors
    (fold_left (link_step resolve baseUrl) anchors ((∅ : gset string), [])).
Proof.
  induction anchors as [|m anchors IH] using rev_ind.
  - split; [|split]; cbn.
    + intros t. split; [set_solver | by intros (i & m & Hi & _)].
    + intros l. split; [by intros ?%elem_of_nil | by intros (i & m & Hi & _)].
    + constructor.
  - rewrite fold_left_app. cbn [fold_left]. by apply links_inv_step.
Qed.

(** X19. [extractLinks] lists each address once, whatever the number of
    anchors that point to it; every link has a text, of at most 120
    characters, and an address that [new URL] made of an [href]. *)
Theorem extractLinks_distinct (html : string) :
  NoDup (List.map href (extractLinks resolve html baseUrl)) /\
  Forall (fun l => l_text l <> EmptyString /\ String.length (l_text l) <= 120 /\
                   exists h, resolve h baseUrl = Some (href l))
         (extractLinks resolve html baseUrl).
Proof.
  unfold extractLinks, links_of.
  destruct (links_inv_fold (exec_all (element "a") html)) as (_ & Hlinks & Hnodup).
  split; [done|]. apply Forall_forall. intros l Hl.
  apply Hlinks in Hl as (i & m & _ & Ht & Htxt & -> & _).
  split; [|split].
  - unfold slice0. by apply str_take_nonempty; [lia|].
  - apply str_take_length.
  - unfold anchor_target in Ht.
    destruct (attr (parseAttrs (group m 0)) "href") as [h|]; [|done].
    destruct (startsWith h "#" || startsWith h "javascript:"); [done|]. by exists h.
Qed.

(** X20. Which anchors become links: a link is listed exactly when the first
    anchor that resolves to its address has a text, and it carries the
    first 120 characters of that text. An anchor without text thus hides
    every later anchor to the same address. *)
Theorem links_of_first_anchor (anchors : list hit) (l : Link) :
  l ∈ links_of resolve baseUrl anchors <-> first_anchor resolve baseUrl anchors l.
Proof.
  unfold links_of. by destruct (links_inv_fold anchors) as (_ & Hlinks & _).
Qed.

End LinkFacts.

(** *** Tables and text *)

(** X21. [extractTables] returns at most 10 tables, none of them without a row
    and no row without a cell, and [extractText] at most 5000
    characters. *)
Theorem extractTables_shape (html : string) :
  length (extractTables html) <= 10 /\
  Forall (fun t => t <> [] /\ Forall (fun row => row <> []) t) (extractTables html) /\
  String.length (extractText html) <= 5000.
Proof.
  split; [|split].
  - unfold extractTables. rewrite length_firstn. lia.
  - apply Forall_forall. intros t Ht%elem_of_take.
    destruct Ht as (i & Ht%list_elem_of_lookup_2 & _).
    apply list_elem_of_omap in Ht as (m & _ & Hm). unfold table_of in Hm.
    destruct (omap row_of _) as [|r rows] eqn:Hrows; [done|].
    injection Hm as <-. split; [done|].
    apply Forall_forall. intros row Hrow. rewrite <- Hrows in Hrow.
    apply list_elem_of_omap in Hrow as (rm & _ & Hrm). unfold row_of in Hrm.
    destruct (List.map _ _); [done|]. by injection Hrm as <-.
  - unfold extractText. cbv zeta. apply str_take_length.
Qed.

(** *** Forms *)

Lemma upper_char_idemp (c : ascii) : upper_char (upper_char c) = upper_char c.
Proof. destruct c as [[] [] [] [] [] [] [] []]; reflexivity. Qed.

Lemma toUpperCase_idemp (s : string) : toUpperCase (toUpperCase s) = toUpperCase s.
Proof. induction s as [|c s IH]; cbn; [done|]. by rewrite upper_char_idemp, IH. Qed.

(** X22. The fields of a form come by kind, not in the order of the page: the
    inputs, then the text areas, then the selects. No input of type hidden
    is listed, every input has a type, a select lists at most 20 options,
    and the method is in upper case. *)
Theorem extractForms_fields (html : string) :
  Forall (fun f =>
            toUpperCase (method f) = method f /\
            exists inputs textareas selects,
              fields f = inputs ++ textareas ++ selects /\
              Forall (fun x => tag x = "input" /\ f_type x <> Some "hidden" /\
                               f_type x <> Some EmptyString /\ is_Some (f_type x)) inputs /\
              Forall (fun x => tag x = "textarea") textareas /\
              Forall (fun x => tag x = "select" /\ length (options x) <= 20) selects)
         (extractForms html).
Proof.
  apply Forall_forall. intros f Hf%list_elem_of_In.
  apply in_map_iff in Hf as (m & <- & _). unfold form_of. cbv zeta. cbn [method fields].
  split; [apply toUpperCase_idemp|].
  eexists _, _, _. split; [reflexivity|]. split; [|split].
  - apply Forall_forall. intros x (im & _ & Hx)%list_elem_of_omap.
    unfold input_of in Hx. cbv zeta in Hx.
    destruct (decide (parseAttrs (group im 0) !! "type" = Some "hidden")) as [|Hne]; [done|].
    injection Hx as <-. cbn [tag f_type]. split; [done|].
    unfold attr. destruct (parseAttrs (group im 0) !! "type") as [[|c v]|] eqn:Ht;
      cbn [default]; repeat split; try done; try by eexists.
  - apply Forall_forall. intros x Hx%list_elem_of_In.
    by apply in_map_iff in Hx as (tm & <- & _).
  - apply Forall_forall. intros x Hx%list_elem_of_In.
    apply in_map_iff in Hx as (sm & <- & _). unfold select_of. cbv zeta.
    cbn [tag options]. split; [done|]. rewrite length_firstn. lia.
Qed.

End ExtractFacts.

(** The extractors on small documents. *)
Example extract_samples :
  Extract.extractHeadings "<h1>Title</h1><H2 class='x'>Sub <b>one</b></H2><h3></h3><h4>x</h5>"
  = [ {| Page.level := 1; Page.h_text := "Title" |};
      {| Page.level := 2; Page.h_text := "Sub one" |} ] /\
  Extract.extractLinks (fun h b => Some (b +:+ h))
    ("<a href='/a'>A</a><a href='/a'>again</a><a href='#top'>top</a>"
     +:+ "<a href='/b'><img src='x'></a><a href='/b'>B</a><a name='n'>N</a>")
    "https://e.org"
  = [ {| Page.l_text := "A"; Page.href := "https://e.org/a" |} ] /\
  Extract.extractTables "<table><tr><td>a</td><th>b</th></tr><tr></tr></table><table></table>"
  = [[["a"; "b"]]] /\
  Extract.extractText
    "<html><nav>menu</nav><body><p>out</p><main id='m'><p>Hello &amp;amp; bye</p></main></body></html>"
  = "Hello &amp; bye" /\
  List.map (fun f => (Page.method f, List.map Page.tag (Page.fields f)))
    (Extract.extractForms
       ("<form action='/s' method='post'><input type='hidden' name='t'>"
        +:+ "<select name='c'><option>One</option></select>"
        +:+ "<input name='q' required><textarea name='m'></textarea></form>"))
  = [("POST", ["input"; "textarea"; "select"])].
Proof. vm_compute. repeat split. Qed.

(* --------------------------------------------------------------------- *)
(** ** The summary of a result *)
(* --------------------------------------------------------------------- *)

Section SummaryFacts.

Import Page Chunker Orchestrator ChunkShapes Summary.

Lemma join_head (sep x : string) (l : list string) :
  exists tail, join sep (x :: l) = x +:+ tail.
Proof.
  destruct l as [|y l]; cbn [join].
  - exists EmptyString. by rewrite string_app_nil_r.
  - by eexists.
Qed.

Lemma formatChunks_summary_first (page : PageRecord) (cs : list Chunk) :
  exists tail, formatChunks (summary_chunk page :: cs) = summary_block page +:+ tail.
Proof.
  unfold formatChunks. cbv zeta. cbn [List.filter summary_chunk c_score Z.leb Z.compare].
  cbn [List.firstn List.map].
  destruct (join_head (newline +:+ newline +:+ "---" +:+ newline +:+ newline)
              (summary_block page)
              (List.map
                 (fun c =>
                    join " "
                      (omap (fun x : option string => x)
                         [ Some ("[chunk:" +:+ of_nat (id c) +:+ "]");
                           Some ("type=" +:+ type_name (type c));
                           (fun s => "section=" +:+ String dquote EmptyString +:+ s
                                     +:+ String dquote EmptyString) <$> nonempty (section c);
                           Some ("score=" +:+ of_Z (c_score c)) ])
                    +:+ newline +:+ text c)
                 (List.firstn 9 (List.filter (fun c => (0 <=? c_score c)%Z) cs))))
    as [tail Htail].
  exists tail. rewrite <- Htail. reflexivity.
Qed.

(** X16. Without a query, and with room for one chunk at least, the result
    [buildResult] returns lists the first chunks of the page by falling
    score, the summary of the page first, and its [summary] text opens
    with what [formatChunks] prints for that summary chunk. *)
Theorem buildResult_no_query (url tag : string) (d : Detect.DetectionReport)
    (page : PageRecord) (q : option string) (limit : nat) (elapsed : Z) :
  truthy q = false ->
  1 <= limit ->
  exists r cs tail,
    buildResult url tag d page q limit elapsed = Returned r /\
    r_chunks r = Some (summary_chunk page :: cs) /\
    summary_chunk page :: cs = List.firstn limit (chunkPage page default_opts) /\
    Forall (fun c => (c_score c <= 10)%Z) cs /\
    summary r = Some (summary_block page +:+ tail).
Proof.
  intros Hq Hlimit.
  pose proof (chunkPage_summary_first page default_opts) as Hhd.
  assert (Hsorted : StronglySorted (Notions.desc c_score) (chunkPage page default_opts))
    by apply sort_desc_sorted.
  destruct (chunkPage page default_opts) as [|c0 rest] eqn:Hcs; [done|].
  injection Hhd as ->.
  destruct limit as [|n]; [lia|].
  destruct (formatChunks_summary_first page (List.firstn n rest)) as [tail Htail].
  exists {| r_url := url; backend := tag; detection := Some d; data := Some page;
            r_chunks := Some (summary_chunk page :: List.firstn n rest);
            summary := Some (summary_block page +:+ tail); ms := elapsed;
            cached := false; error := None |}, (List.firstn n rest), tail.
  split; [|split; [done|split; [done|split; [|done]]]].
  - unfold buildResult. rewrite Hcs. cbv zeta.
    destruct q as [[|ch q]|]; try done; cbn [List.firstn]; by rewrite Htail.
  - apply StronglySorted_inv in Hsorted as [_ Hall].
    apply Forall_forall. intros c (i & Hc%list_elem_of_lookup_2 & _)%elem_of_take.
    rewrite Forall_forall in Hall. apply (Hall c Hc).
Qed.

End SummaryFacts.

Lemma buildResult_no_query_witness :
  exists r cs tail,
    Orchestrator.buildResult "https://a.example/guide" "lite"
      (Detect.detectSPA "<p>x</p>") Samples.page_steps None 8 50 = Returned r /\
    Orchestrator.r_chunks r = Some (ChunkShapes.summary_chunk Samples.page_steps :: cs) /\
    ChunkShapes.summary_chunk Samples.page_steps :: cs
    = List.firstn 8 (Chunker.chunkPage Samples.page_steps Chunker.default_opts) /\
    Forall (fun c => (Chunker.c_score c <= 10)%Z) cs /\
    Orchestrator.summary r = Some (Summary.summary_block Samples.page_steps +:+ tail).
Proof.
  apply (buildResult_no_query "https://a.example/guide" "lite" (Detect.detectSPA "<p>x</p>")
           Samples.page_steps None 8 50); [reflexivity | lia].
Defined.

(* --------------------------------------------------------------------- *)
(** ** Forcing the lite backend *)
(* --------------------------------------------------------------------- *)

Section ForceFacts.

Import Page Chunker Lite Orchestrator Notions Worlds.

Variable parseHTML : string -> string -> PageRecord.
Variable serialize : RenderResult -> string.
Variable JSON_parse : string -> option RenderResult.

(** X23. With [force] set to lite, [render] never turns to the browser, whatever
    the detector says: the call ends the same way in every world that
    differs in the browser only. It does not read the cache either, so the
    result is never a cached one, and its backend is lite or error. *)
Theorem render_force_lite (w : World) (url : string) (o : Options) (st : CacheState) :
  force o = Some "lite" ->
  (forall b, render parseHTML serialize JSON_parse (with_browser w b) url o st
             = render parseHTML serialize JSON_parse w url o st) /\
  match render parseHTML serialize JSON_parse w url o st with
  | Returned (r, _) => cached r = false /\ (backend r = "lite" \/ backend r = "error")
  | Threw _ => False
  | Unmodelled => True
  end.
Proof.
  intros Hforce. split.
  - intros b. unfold render. rewrite Hforce. reflexivity.
  - unfold render. rewrite Hforce. cbn [truthy negb andb String.eqb Ascii.eqb Bool.eqb].
    rewrite andb_false_r.
    destruct (fetched w) as [f|msg|]; [| |done].
    + destruct (renderLite parseHTML url (Some (html f)) (lite_fetch w)) as [page|msg|];
        [| |done].
      * destruct (buildResult_cases url "lite" (Detect.detectSPA (html f)) page (query o)
                    (default 8 (chunkLimit o)) (t_ms w - t0 w)%Z)
          as [-> | (r & -> & Hb & He & Hc & Hd)]; [done|].
        cbn [bind]. destruct (negb (noCache o) && negb (String.eqb (backend r) "error"));
          split; auto.
      * cbn [error_result cached backend]. split; auto.
    + cbn [error_result cached backend]. split; auto.
Qed.

End ForceFacts.

Lemma render_force_lite_witness :
  let o := {| Orchestrator.force := Some "lite"; Orchestrator.query := None;
              Orchestrator.chunkLimit := None; Orchestrator.timeout := None;
              Orchestrator.noCache := false; Orchestrator.cacheTtlMs := None |} in
  exists r st',
    Orchestrator.render Samples.bare_parser Samples.no_serialize Samples.no_parse
      Samples.world_no_browser "https://a.example/" o (Orchestrator.Closed ∅)
    = Returned (r, st') /\
    Orchestrator.render Samples.bare_parser Samples.no_serialize Samples.no_parse
      Samples.world_browser "https://a.example/" o (Orchestrator.Closed ∅)
    = Returned (r, st') /\
    Orchestrator.cached r = false /\ Orchestrator.backend r = "lite".
Proof.
  cbv zeta.
  destruct (render_force_lite Samples.bare_parser Samples.no_serialize Samples.no_parse
              Samples.world_no_browser "https://a.example/"
              {| Orchestrator.force := Some "lite"; Orchestrator.query := None;
                 Orchestrator.chunkLimit := None; Orchestrator.timeout := None;
                 Orchestrator.noCache := false; Orchestrator.cacheTtlMs := None |}
              (Orchestrator.Closed ∅) eq_refl) as [Hsame Hend].
  specialize (Hsame (Orchestrator.browser Samples.world_browser)).
  change (Worlds.with_browser Samples.world_no_browser
            (Orchestrator.browser Samples.world_browser))
    with Samples.world_browser in Hsame.
  rewrite Hsame.
  destruct (Orchestrator.render _ _ _ Samples.world_no_browser _ _ _) as [[r st']| |] eqn:E.
  - exists r, st'. destruct Hend as [Hc Hb]. repeat split; try done.
    destruct Hb as [Hb | Hb]; [done|].
    exfalso. vm_compute in E. injection E as <- _. discriminate Hb.
  - destruct Hend.
  - vm_compute in E. discriminate E.
Defined.

(* --------------------------------------------------------------------- *)
(** ** The heading test of the paragraph loop *)
(* --------------------------------------------------------------------- *)

Section HeadingTest.

Import Page Chunker.




End HeadingTest.
